(** * The energy-flow optimisation model of [optimization_model.py]

    A shallow embedding of [get_edges], [opt_model] and [solve_opt_model].
    The modelling library (pyomo) is kept at the level the source uses it:
    an indexed [Var] or [Constraint] component is a dictionary from index
    tuples to variable data or constraints, built by calling the rule once
    per index; expressions are the syntax trees the rules build. The
    decimal literals of the source are read as the decimals they spell. *)

From Stdlib Require Import QArith Lqa.
From stdpp Require Import gmap strings list fin_maps.

(** ** Python exceptions and fallible computations *)

(** The built-in exceptions the source can raise by itself, the one with
    which the modelling library refuses the value of a constraint rule, and
    the ones that come out of the solver backend. *)
Inductive exn :=
  | IndexError
  | KeyError
  | AttributeError
  | InvalidConstraintError
  | External (name : string).

Definition exn_name (e : exn) : string :=
  match e with
  | IndexError => "IndexError"
  | KeyError => "KeyError"
  | AttributeError => "AttributeError"
  | InvalidConstraintError => "InvalidConstraintError"
  | External name => name
  end%string.

Inductive result (A : Type) :=
  | Ok (a : A)
  | Raise (e : exn).
Arguments Ok {A} a.
Arguments Raise {A} e.

#[global] Instance result_ret : MRet result := @Ok.
#[global] Instance result_bind : MBind result := λ A B f r,
  match r with
  | Ok a => f a
  | Raise e => Raise e
  end.
#[global] Instance result_fmap : FMap result := λ A B f r,
  match r with
  | Ok a => Ok (f a)
  | Raise e => Raise e
  end.

(** [l[n]] for a non-negative literal index. *)
Definition py_index {A} (l : list A) (n : nat) : result A :=
  match l !! n with
  | Some x => Ok x
  | None => Raise IndexError
  end.

(** [d[k]] on a dictionary. *)
Definition getitem `{Countable K} {V} (d : gmap K V) (k : K) : result V :=
  match d !! k with
  | Some v => Ok v
  | None => Raise KeyError
  end.

(** [dict(pairs)] and dictionary comprehensions: a later pair with the same
    key replaces an earlier one. *)
Definition py_dict `{Countable K} {V} (pairs : list (K * V)) : gmap K V :=
  list_to_map (reverse pairs).

(** [{key(x): value(x) for x in l}]: the pairs are evaluated in list order,
    the first exception ends the comprehension. *)
Definition dict_comprehension `{Countable K} {A V} (key : A → K)
    (value : A → result V) (l : list A) : result (gmap K V) :=
  pairs ← mapM (λ x, v ← value x; mret (key x, v)) l;
  mret (py_dict pairs).

(** ** Entities *)

(** Modelled from the spec: the module [components] (classes [Bus],
    [SimpleTransformer], [Transformer]) is imported by the source but is
    not part of it. Section 3 of the specification gives the shape: a bus
    has a unique id and a type tag; a component has a unique id, an ordered
    list of input buses and an ordered list of output buses; a simple
    transformer has an efficiency [eta] in addition, which a CHP lacks. *)
Record Bus := mkBus {
  bus_uid : string;
  bus_type : string;
}.

Record Component := mkComponent {
  comp_uid : string;
  inputs : list Bus;
  outputs : list Bus;
  eta : option Q;
}.

(** The attribute [.uid], shared by buses and components. *)
Class HasUid (A : Type) := uid : A → string.
#[global] Instance Bus_uid : HasUid Bus := bus_uid.
#[global] Instance Component_uid : HasUid Component := comp_uid.

(** [t.eta]: an object without the attribute raises. *)
Definition getattr_eta (t : Component) : result Q :=
  match eta t with
  | Some q => Ok q
  | None => Raise AttributeError
  end.

(** The dictionary [entities], with its three keys. *)
Record Entities := mkEntities {
  ent_buses : list Bus;
  ent_s_transformers : list Component;
  ent_s_chps : list Component;
}.

(** An edge is the pair [(source uid, destination uid)]. *)
Abbreviation edge := (string * string)%type.

(** ** [get_edges] *)

(** The two inner loops append to the running list [edges]. *)
Definition get_edges (components : list Component) : list edge :=
  foldl (λ (edges : list edge) (c : Component),
           let edges := foldl (λ edges i, edges ++ [(uid i, uid c)])
                              edges (inputs c) in
           foldl (λ edges o, edges ++ [(uid c, uid o)]) edges (outputs c))
        [] components.

(** The edges one component contributes: its inputs first, then its outputs. *)
Definition component_edges (c : Component) : list edge :=
  ((λ i, (uid i, uid c)) <$> inputs c) ++ ((λ o, (uid c, uid o)) <$> outputs c).

(** ** Expressions and constraints *)

(** A decision variable: [w[i,j,t]] or [w_add[i,j]]. *)
Inductive var :=
  | W (i j : string) (t : Z)
  | W_add (i j : string).

(** The expression trees the rules build with [+], unary [-], [*] and [/]. *)
Inductive expr :=
  | Num (q : Q)
  | Var (v : var)
  | Add (a b : expr)
  | Neg (a : expr)
  | Mul (a b : expr)
  | Div (a b : expr).

(** What a constraint rule returns: the pair [(expr, rhs)], read as
    [expr = rhs], or the relational expression [lhs <= rhs]. *)
Inductive constraint :=
  | EqTuple (body rhs : expr)
  | LeExpr (lhs rhs : expr).

(** The builtin [sum]: starts from [0] and adds from the left. *)
Definition py_sum (terms : list expr) : expr :=
  foldl Add (Num 0) terms.

Definition valuation : Type := var → Q.

Fixpoint eval (ρ : valuation) (e : expr) : Q :=
  match e with
  | Num q => q
  | Var v => ρ v
  | Add a b => eval ρ a + eval ρ b
  | Neg a => - eval ρ a
  | Mul a b => eval ρ a * eval ρ b
  | Div a b => eval ρ a / eval ρ b
  end%Q.

Definition holds (ρ : valuation) (c : constraint) : Prop :=
  match c with
  | EqTuple body rhs => (eval ρ body == eval ρ rhs)%Q
  | LeExpr lhs rhs => (eval ρ lhs <= eval ρ rhs)%Q
  end.

(** The variables an expression, respectively a constraint, mentions. *)
Fixpoint expr_vars (e : expr) : list var :=
  match e with
  | Num _ => []
  | Var v => [v]
  | Neg a => expr_vars a
  | Add a b | Mul a b | Div a b => expr_vars a ++ expr_vars b
  end.

Definition constraint_vars (c : constraint) : list var :=
  match c with
  | EqTuple a b | LeExpr a b => expr_vars a ++ expr_vars b
  end.

(** Arithmetic on plain numbers is evaluated by Python at once and gives a
    plain number: an expression is a number, and not an expression of the
    modelling library, when no variable occurs in it. *)
Fixpoint is_number (e : expr) : bool :=
  match e with
  | Num _ => true
  | Var _ => false
  | Neg a => is_number a
  | Add a b | Mul a b | Div a b => is_number a && is_number b
  end.

(** The sum of a list of rationals. *)
Fixpoint Qsum (l : list Q) : Q :=
  match l with
  | [] => 0
  | x :: l => x + Qsum l
  end%Q.

(** ** The modelling library, as far as the source uses it *)

(** [within=po.NonNegativeReals] is the only domain the source asks for. *)
Inductive Domain := NonNegativeReals.

(** The data of one declared variable: its domain and, when the declaration
    carried [bounds=], the pair the bounds rule returned. *)
Record VarData := mkVarData {
  within : Domain;
  bounds : option (Q * Q);
}.

(** The interval a declared variable ranges over: the domain's, cut by the
    declared bounds. [None] as upper bound is "unbounded above". *)
Definition lower_bound (v : VarData) : Q :=
  match within v, bounds v with
  | NonNegativeReals, Some (l, _) => if Qle_bool 0 l then l else 0%Q
  | NonNegativeReals, None => 0%Q
  end.

Definition upper_bound (v : VarData) : option Q :=
  match bounds v with
  | Some (_, u) => Some u
  | None => None
  end.

(** An indexed component on a concrete model is constructed at once: its
    rule is called once per index, in index order, and the results are kept
    in a dictionary under their index; an exception of the rule propagates. *)
Definition indexed_component `{Countable K} {V} (index : list K)
    (rule : K → result V) : result (gmap K V) :=
  dict_comprehension id rule index.

(** The entries a component holds when its construction stops: those of
    the indices before the first one whose rule raises. *)
Fixpoint built_before {K V} (rule : K → result V) (index : list K)
    : list (K * V) :=
  match index with
  | [] => []
  | k :: rest =>
    match rule k with
    | Ok v => (k, v) :: built_before rule rest
    | Raise _ => []
    end
  end.

Definition partial_component `{Countable K} {V} (index : list K)
    (rule : K → result V) : gmap K V :=
  py_dict (built_before rule index).

(** The data [po.Var(..., bounds=rule, within=domain)] keeps for one
    index. *)
Definition var_rule {K} (rule : option (K → result (Q * Q)))
    (domain : Domain) (k : K) : result VarData :=
  b ← match rule with
      | Some r => Some <$> r k
      | None => mret None
      end;
  mret (mkVarData domain b).

(** [po.Var(index, bounds=rule, within=domain)]. *)
Definition po_Var `{Countable K} (index : list K)
    (rule : option (K → result (Q * Q))) (domain : Domain)
    : result (gmap K VarData) :=
  indexed_component index (var_rule rule domain).

(** What the library makes of the value of a constraint rule: a pair of
    two plain numbers is no constraint, and is refused with
    [InvalidConstraintError]; a pair with a variable on either side and a
    relational expression are kept. *)
Definition as_constraint (c : constraint) : result constraint :=
  match c with
  | EqTuple body rhs =>
    if is_number body && is_number rhs then Raise InvalidConstraintError
    else Ok c
  | LeExpr _ _ => Ok c
  end.

Definition constraint_rule {K} (rule : K → result constraint) (k : K)
    : result constraint :=
  c ← rule k; as_constraint c.

(** [po.Constraint(index, rule=rule)]. *)
Definition po_Constraint `{Countable K} (index : list K)
    (rule : K → result constraint) : result (gmap K constraint) :=
  indexed_component index (constraint_rule rule).

(** ** The model object [m] *)

Record Model := mkModel {
  invest : bool;
  timesteps : list Z;
  buses : list string;
  s_transformers : list string;
  s_chps : list string;
  edges : list edge;
  w_max : gmap edge Q;
  w : gmap (edge * Z) VarData;
  w_add : option (gmap edge VarData);
  bus_constr : gmap (string * Z) constraint;
  s_chp_eta_constr : gmap (string * Z) constraint;
  s_chp_pth_constr : gmap (string * Z) constraint;
  s_transformer_eta_constr : gmap (string * Z) constraint;
  ee : list edge;
  s_transformer_w_max : gmap (edge * Z) constraint;
  objective : option expr;
}.

(** Attribute assignments [m.name = value]. *)
Definition set_w (v : gmap (edge * Z) VarData) (m : Model) : Model :=
  mkModel (invest m) (timesteps m) (buses m) (s_transformers m) (s_chps m)
    (edges m) (w_max m) v (w_add m) (bus_constr m) (s_chp_eta_constr m)
    (s_chp_pth_constr m) (s_transformer_eta_constr m) (ee m)
    (s_transformer_w_max m) (objective m).

Definition set_w_add (v : gmap edge VarData) (m : Model) : Model :=
  mkModel (invest m) (timesteps m) (buses m) (s_transformers m) (s_chps m)
    (edges m) (w_max m) (w m) (Some v) (bus_constr m) (s_chp_eta_constr m)
    (s_chp_pth_constr m) (s_transformer_eta_constr m) (ee m)
    (s_transformer_w_max m) (objective m).

Definition set_bus_constr (v : gmap (string * Z) constraint) (m : Model)
    : Model :=
  mkModel (invest m) (timesteps m) (buses m) (s_transformers m) (s_chps m)
    (edges m) (w_max m) (w m) (w_add m) v (s_chp_eta_constr m)
    (s_chp_pth_constr m) (s_transformer_eta_constr m) (ee m)
    (s_transformer_w_max m) (objective m).

Definition set_s_chp_eta_constr (v : gmap (string * Z) constraint)
    (m : Model) : Model :=
  mkModel (invest m) (timesteps m) (buses m) (s_transformers m) (s_chps m)
    (edges m) (w_max m) (w m) (w_add m) (bus_constr m) v
    (s_chp_pth_constr m) (s_transformer_eta_constr m) (ee m)
    (s_transformer_w_max m) (objective m).

Definition set_s_chp_pth_constr (v : gmap (string * Z) constraint)
    (m : Model) : Model :=
  mkModel (invest m) (timesteps m) (buses m) (s_transformers m) (s_chps m)
    (edges m) (w_max m) (w m) (w_add m) (bus_constr m) (s_chp_eta_constr m)
    v (s_transformer_eta_constr m) (ee m)
    (s_transformer_w_max m) (objective m).

Definition set_s_transformer_eta_constr (v : gmap (string * Z) constraint)
    (m : Model) : Model :=
  mkModel (invest m) (timesteps m) (buses m) (s_transformers m) (s_chps m)
    (edges m) (w_max m) (w m) (w_add m) (bus_constr m) (s_chp_eta_constr m)
    (s_chp_pth_constr m) v (ee m)
    (s_transformer_w_max m) (objective m).

Definition set_ee (v : list edge) (m : Model) : Model :=
  mkModel (invest m) (timesteps m) (buses m) (s_transformers m) (s_chps m)
    (edges m) (w_max m) (w m) (w_add m) (bus_constr m) (s_chp_eta_constr m)
    (s_chp_pth_constr m) (s_transformer_eta_constr m) v
    (s_transformer_w_max m) (objective m).

Definition set_s_transformer_w_max (v : gmap (edge * Z) constraint)
    (m : Model) : Model :=
  mkModel (invest m) (timesteps m) (buses m) (s_transformers m) (s_chps m)
    (edges m) (w_max m) (w m) (w_add m) (bus_constr m) (s_chp_eta_constr m)
    (s_chp_pth_constr m) (s_transformer_eta_constr m) (ee m)
    v (objective m).

Definition set_objective (v : expr) (m : Model) : Model :=
  mkModel (invest m) (timesteps m) (buses m) (s_transformers m) (s_chps m)
    (edges m) (w_max m) (w m) (w_add m) (bus_constr m) (s_chp_eta_constr m)
    (s_chp_pth_constr m) (s_transformer_eta_constr m) (ee m)
    (s_transformer_w_max m) (Some v).

(** How a run of the builder ends: it returns the model, or an exception
    leaves it with the model as far as it had been built. *)
Inductive outcome :=
  | Returned (m : Model)
  | Raised (e : exn) (partial : Model).

(** [m.name = component] for an indexed component: the component is
    attached to the model and constructed there, index by index; when a
    rule raises, the model keeps the component with the entries built
    before. *)
Definition attach `{Countable K} {V} (index : list K) (rule : K → result V)
    (set : gmap K V → Model → Model) (m : Model) : outcome :=
  match indexed_component index rule with
  | Ok d => Returned (set d m)
  | Raise e => Raised e (set (partial_component index rule) m)
  end.

(** [m.objective = po.Objective(rule=rule)]: the objective has its
    expression once the rule has returned. *)
Definition assign {A} (r : result A) (set : A → Model → Model) (m : Model)
    : outcome :=
  match r with
  | Ok a => Returned (set a m)
  | Raise e => Raised e m
  end.

Definition and_then (o : outcome) (k : Model → outcome) : outcome :=
  match o with
  | Returned m => k m
  | Raised e partial => Raised e partial
  end.

(** [m.w[i,j,t]] and [m.w_add[i,j]]: a reference to a declared variable. *)
Definition w_getitem (m : Model) (i j : string) (t : Z) : result expr :=
  _ ← getitem (w m) ((i, j), t); mret (Var (W i j t)).

Definition w_add_getitem (m : Model) (i j : string) : result expr :=
  match w_add m with
  | Some d => _ ← getitem d (i, j); mret (Var (W_add i j))
  | None => Raise AttributeError
  end.

(** ** [opt_model] *)

(** The bounds rule of the flow variables when there is no investment. *)
Definition w_max_rule (m : Model) (k : edge * Z) : result (Q * Q) :=
  let '((i, j), t) := k in
  cap ← getitem (w_max m) (i, j);
  mret (0%Q, cap).

(** Bus balance. The unary [+] in front of the second sum leaves it as it
    is. *)
Definition bus_rule (m : Model) (k : string * Z) : result constraint :=
  let '(e, t) := k in
  let expr := Num 0 in
  outflow ← mapM (λ ij : edge, w_getitem m ij.1 ij.2 t)
                 (filter (λ ij : edge, ij.1 = e) (edges m));
  let expr := Add expr (Neg (py_sum outflow)) in
  inflow ← mapM (λ ij : edge, w_getitem m ij.1 ij.2 t)
                (filter (λ ij : edge, ij.2 = e) (edges m));
  let expr := Add expr (py_sum inflow) in
  mret (EqTuple expr (Num 0)).

(** The rules of [simple_transformer_model], closed over the dictionaries
    [I], [O] and [eta] (written [I_] and [O_] where [I] would be read as
    the proof of [True]). *)
Definition transformer_eta_rule (I O : gmap string string)
    (eta : gmap string Q) (m : Model) (k : string * Z) : result constraint :=
  let '(e, t) := k in
  let expr := Num 0 in
  i ← getitem I e;
  win ← w_getitem m i e t;
  η ← getitem eta e;
  let expr := Add expr (Mul win (Num η)) in
  o ← getitem O e;
  wout ← w_getitem m e o t;
  let expr := Add expr (Neg wout) in
  mret (EqTuple expr (Num 0)).

Definition w_bound_investment (m : Model) (k : edge * Z) : result constraint :=
  let '((i, j), t) := k in
  wijt ← w_getitem m i j t;
  cap ← getitem (w_max m) (i, j);
  wadd ← w_add_getitem m i j;
  mret (LeExpr wijt (Add (Num cap) wadd)).

Definition simple_transformer_model (entities : Entities) (m : Model)
    : outcome :=
  let transformers := ent_s_transformers entities in
  let dicts :=
    I_ ← dict_comprehension uid (λ t, uid <$> py_index (inputs t) 0)
                            transformers;
    O_ ← dict_comprehension uid (λ t, uid <$> py_index (outputs t) 0)
                            transformers;
    eta ← dict_comprehension uid getattr_eta transformers;
    mret (I_, O_, eta) in
  match dicts with
  | Raise e => Raised e m
  | Ok (I_, O_, eta) =>
    and_then
      (attach (list_prod (s_transformers m) (timesteps m))
              (constraint_rule (transformer_eta_rule I_ O_ eta m))
              set_s_transformer_eta_constr m)
      (λ m,
         if invest m then
           let m := set_ee (get_edges transformers) m in
           attach (list_prod (ee m) (timesteps m))
                  (constraint_rule (w_bound_investment m))
                  set_s_transformer_w_max m
         else Returned m)
  end.

(** The rules of [simple_chp_model], closed over [I] and [O]; [O] maps a
    CHP to the list of all its outputs. The literals [0.8] and [0.6] stand
    for the decimals 4/5 and 3/5. *)
Definition chp_eta_rule (I : gmap string string)
    (O : gmap string (list string)) (m : Model) (k : string * Z)
    : result constraint :=
  let '(e, t) := k in
  let expr := Num 0 in
  i ← getitem I e;
  win ← w_getitem m i e t;
  let expr := Add expr win in
  os ← getitem O e;
  wouts ← mapM (λ o, w_getitem m e o t) os;
  let expr := Add expr (Div (Neg (py_sum wouts)) (Num 0.8)) in
  mret (EqTuple expr (Num 0)).

Definition power_to_heat_rule (O : gmap string (list string)) (m : Model)
    (k : string * Z) : result constraint :=
  let '(e, t) := k in
  let expr := Num 0 in
  os ← getitem O e;
  power ← py_index os 0;
  wpower ← w_getitem m e power t;
  let expr := Add expr wpower in
  os ← getitem O e;
  heat ← py_index os 1;
  wheat ← w_getitem m e heat t;
  let expr := Add expr (Mul (Neg wheat) (Num 0.6)) in
  mret (EqTuple expr (Num 0)).

Definition simple_chp_model (entities : Entities) (m : Model) : outcome :=
  let chps := ent_s_chps entities in
  let dicts :=
    I_ ← dict_comprehension uid (λ t, uid <$> py_index (inputs t) 0) chps;
    O_ ← dict_comprehension uid (λ t, mret (uid <$> outputs t)) chps;
    mret (I_, O_) in
  match dicts with
  | Raise e => Raised e m
  | Ok (I_, O_) =>
    and_then
      (attach (list_prod (s_chps m) (timesteps m))
              (constraint_rule (chp_eta_rule I_ O_ m))
              set_s_chp_eta_constr m)
      (λ m,
         attach (list_prod (s_chps m) (timesteps m))
                (constraint_rule (power_to_heat_rule O_ m))
                set_s_chp_pth_constr m)
  end.

(** The nested function [objective] with its rule [obj_rule]. *)
Definition obj_rule (m : Model) : result expr :=
  let expr := Num 0 in
  terms ← mapM (λ ijt : edge * Z, w_getitem m ijt.1.1 ijt.1.2 ijt.2)
               (list_prod (edges m) (timesteps m));
  let expr := Add expr (py_sum terms) in
  mret expr.

Definition objective_model (m : Model) : outcome :=
  assign (obj_rule m) set_objective m.

(** The declaration of the variables, by the investment flag. *)
Definition declare_variables (m : Model) : outcome :=
  if invest m then
    and_then
      (attach (list_prod (edges m) (timesteps m))
              (var_rule None NonNegativeReals) set_w m)
      (λ m, attach (edges m) (var_rule None NonNegativeReals) set_w_add m)
  else
    attach (list_prod (edges m) (timesteps m))
           (var_rule (Some (w_max_rule m)) NonNegativeReals) set_w m.

(** The plain attributes [opt_model] sets on the fresh [ConcreteModel]
    before it declares any component. *)
Definition new_model (entities : Entities) (edges : list edge)
    (timesteps : list Z) (invest : bool) : Model :=
  mkModel invest timesteps
    (uid <$> ent_buses entities)
    (uid <$> ent_s_transformers entities)
    (uid <$> ent_s_chps entities)
    edges
    (py_dict (zip edges (replicate (length edges) 100%Q)))
    ∅ None ∅ ∅ ∅ ∅ [] ∅ None.

(** The components, in the order the source adds them: the variables, the
    bus balance, then the calls [simple_chp_model(m)],
    [simple_transformer_model(m)] and [objective(m)]. *)
Definition add_components (entities : Entities) (m : Model) : outcome :=
  and_then (declare_variables m) (λ m,
  and_then (attach (list_prod (buses m) (timesteps m))
                   (constraint_rule (bus_rule m)) set_bus_constr m) (λ m,
  and_then (simple_chp_model entities m) (λ m,
  and_then (simple_transformer_model entities m) (λ m,
  objective_model m)))).

Definition opt_model (entities : Entities) (edges : list edge)
    (timesteps : list Z) (invest : bool) : outcome :=
  add_components entities (new_model entities edges timesteps invest).

(** ** [solve_opt_model] *)

(** The solver interface is outside the source. A status is what the
    external solver reports back with its results; section 6 of the
    specification lists the five. *)
Inductive SolverStatus :=
  | optimal
  | infeasible
  | unbounded
  | error
  | timeout.

(** The calls [solve_opt_model] makes into the modelling library and the
    solver: [model.create()], [instance.write(...)],
    [SolverFactory(solver, solver_io='lp')], [opt.solve(instance, tee=...)]
    and [instance.load(results)], which leaves the results in the
    instance. Each of them can raise; [status] reads the status the
    results carry. *)
Record Backend (Instance Solver Results : Type) := mkBackend {
  create : Model → result Instance;
  write : Instance → string → bool → result ();
  factory : string → string → result Solver;
  solve : Solver → Instance → bool → result Results;
  load : Instance → Results → result Instance;
  status : Results → SolverStatus;
}.
Arguments create {Instance Solver Results} _ _.
Arguments write {Instance Solver Results} _ _ _ _.
Arguments factory {Instance Solver Results} _ _ _.
Arguments solve {Instance Solver Results} _ _ _ _.
Arguments load {Instance Solver Results} _ _ _.
Arguments status {Instance Solver Results} _ _.

(** The default arguments of [solve_opt_model]. *)
Definition default_solver : string := "glpk".
Definition default_options : gmap string bool := {[ "stream"%string := false ]}.
Definition default_debug : bool := false.

(** The statements of [solve_opt_model] in their order; the keyword
    argument [tee=options['stream']] is evaluated after the solver object
    exists and before the solve is called. *)
Definition solve_opt_model {Instance Solver Results}
    (B : Backend Instance Solver Results)
    (model : Model) (solver : string) (options : gmap string bool)
    (debug : bool) : result Instance :=
  instance ← create B model;
  _ ← (if debug then write B instance "problem.lp" true else mret ());
  opt ← factory B solver "lp";
  tee ← getitem options "stream"%string;
  results ← solve B opt instance tee;
  instance ← load B instance results;
  mret instance.

(** ** What a returned model consists of

    [declared] describes a model once its plain attributes are set and its
    variables are declared, [assembled] a model with all its components. *)

Record declared (entities : Entities) (E : list edge) (T : list Z)
    (inv : bool) (m : Model) : Prop := mkDeclared {
  dcl_invest : invest m = inv;
  dcl_timesteps : timesteps m = T;
  dcl_edges : edges m = E;
  dcl_buses : buses m = uid <$> ent_buses entities;
  dcl_s_transformers : s_transformers m = uid <$> ent_s_transformers entities;
  dcl_s_chps : s_chps m = uid <$> ent_s_chps entities;
  dcl_w_max : w_max m = py_dict (zip E (replicate (length E) 100%Q));
  dcl_w :
    po_Var (list_prod E T) (if inv then None else Some (w_max_rule m))
           NonNegativeReals = Ok (w m);
  dcl_w_add :
    if inv then ∃ d, po_Var E None NonNegativeReals = Ok d ∧ w_add m = Some d
    else w_add m = None;
}.

Record assembled (entities : Entities) (E : list edge) (T : list Z)
    (inv : bool) (m : Model) : Prop := mkAssembled {
  asm_declared : declared entities E T inv m;
  asm_bus_constr :
    po_Constraint (list_prod (buses m) T) (bus_rule m) = Ok (bus_constr m);
  asm_chp :
    ∃ I_ O_,
      dict_comprehension uid (λ t, uid <$> py_index (inputs t) 0)
                         (ent_s_chps entities) = Ok I_
      ∧ dict_comprehension uid (λ t, mret (uid <$> outputs t))
                           (ent_s_chps entities) = Ok O_
      ∧ po_Constraint (list_prod (s_chps m) T) (chp_eta_rule I_ O_ m)
        = Ok (s_chp_eta_constr m)
      ∧ po_Constraint (list_prod (s_chps m) T) (power_to_heat_rule O_ m)
        = Ok (s_chp_pth_constr m);
  asm_transformer :
    ∃ I_ O_ eta,
      dict_comprehension uid (λ t, uid <$> py_index (inputs t) 0)
                         (ent_s_transformers entities) = Ok I_
      ∧ dict_comprehension uid (λ t, uid <$> py_index (outputs t) 0)
                           (ent_s_transformers entities) = Ok O_
      ∧ dict_comprehension uid getattr_eta (ent_s_transformers entities)
        = Ok eta
      ∧ po_Constraint (list_prod (s_transformers m) T)
                      (transformer_eta_rule I_ O_ eta m)
        = Ok (s_transformer_eta_constr m);
  asm_w_bound :
    if inv then
      ee m = get_edges (ent_s_transformers entities)
      ∧ po_Constraint (list_prod (ee m) T) (w_bound_investment m)
        = Ok (s_transformer_w_max m)
    else s_transformer_w_max m = ∅;
  asm_objective : ∃ obj, obj_rule m = Ok obj ∧ objective m = Some obj;
}.

(** Tactics that reduce the attribute reads of a model built by
    assignments. *)
Ltac fields :=
  cbn [invest timesteps edges buses s_transformers s_chps w_max w w_add
       bus_constr s_chp_eta_constr s_chp_pth_constr s_transformer_eta_constr
       ee s_transformer_w_max objective new_model set_w set_w_add
       set_bus_constr set_s_chp_eta_constr set_s_chp_pth_constr
       set_s_transformer_eta_constr set_ee set_s_transformer_w_max
       set_objective].

Ltac fields_in H :=
  cbn [invest timesteps edges buses s_transformers s_chps w_max w w_add
       bus_constr s_chp_eta_constr s_chp_pth_constr s_transformer_eta_constr
       ee s_transformer_w_max objective new_model set_w set_w_add
       set_bus_constr set_s_chp_eta_constr set_s_chp_pth_constr
       set_s_transformer_eta_constr set_ee set_s_transformer_w_max
       set_objective] in H.

Ltac by_env lem H :=
  fields_in H; fields; erewrite lem; [exact H | fields; reflexivity ..].

(** An edge starts or ends at the node [b]. *)
Definition touched (b : string) (E : list edge) : Prop :=
  ∃ ij : edge, ij ∈ E ∧ (ij.1 = b ∨ ij.2 = b).

(** The inputs on which the builder is meant to run: distinct component
    ids, a simple transformer with an input, an output and an efficiency, a
    CHP with an input and at least the two outputs [power; heat], every
    edge of a component among the declared edges, and every bus at one end
    of an edge at least. *)
Record well_formed (entities : Entities) (E : list edge) : Prop :=
  mkWellFormed {
  wf_transformer_ids : NoDup (uid <$> ent_s_transformers entities);
  wf_chp_ids : NoDup (uid <$> ent_s_chps entities);
  wf_transformers :
    ∀ c, c ∈ ent_s_transformers entities →
      inputs c ≠ [] ∧ outputs c ≠ [] ∧ is_Some (eta c);
  wf_chps :
    ∀ c, c ∈ ent_s_chps entities →
      inputs c ≠ [] ∧ (2 ≤ length (outputs c))%nat;
  wf_edges :
    ∀ c, c ∈ ent_s_transformers entities ++ ent_s_chps entities →
      component_edges c ⊆ E;
  wf_buses : ∀ b, b ∈ ent_buses entities → touched (uid b) E;
}.

(** ** Vocabulary of the properties *)

(** The references [w[i,j,t]] to the flow variables of a list of edges. *)
Definition flow_terms (t : Z) (l : list edge) : list expr :=
  (λ ij : edge, Var (W ij.1 ij.2 t)) <$> l.

(** The total flow on a list of edges at one timestep, under a valuation. *)
Definition flow (ρ : valuation) (t : Z) (l : list edge) : Q :=
  Qsum ((λ ij : edge, ρ (W ij.1 ij.2 t)) <$> l).

(** The edges that leave, respectively enter, the node [e]. *)
Definition edges_from (e : string) (l : list edge) : list edge :=
  filter (λ ij : edge, ij.1 = e) l.
Definition edges_into (e : string) (l : list edge) : list edge :=
  filter (λ ij : edge, ij.2 = e) l.

(** The references [w[i,j,t]] for a list of (edge, timestep) indices. *)
Definition indexed_flow_terms (l : list (edge * Z)) : list expr :=
  (λ ijt : edge * Z, Var (W ijt.1.1 ijt.1.2 ijt.2)) <$> l.

(** The contract of section 4.2 of the specification,
    [build_flow_bounds(edges, capacities, invest)], in its words: the
    capacity of an edge is the caller-supplied one where there is one, and
    the default 100 otherwise. The source has no such argument; this
    definition only serves to state the specification's sentence. *)
Definition spec_capacity (capacities : gmap edge Q) (e : edge) : Q :=
  default 100%Q (capacities !! e).

(** Sections 4.7 and 7 of the specification, in their words: a reported
    status [infeasible] or [unbounded] is to reach the caller of the solve
    as the error kind [InfeasibleModel] or [UnboundedModel]. *)
Definition spec_error_kind (s : SolverStatus) : option string :=
  match s with
  | infeasible => Some "InfeasibleModel"
  | unbounded => Some "UnboundedModel"
  | _ => None
  end%string.

Definition surfaces_solver_status {Instance Solver Results}
    (B : Backend Instance Solver Results) (model : Model) (solver : string)
    (options : gmap string bool) (debug : bool) : Prop :=
  ∀ instance opt tee results kind,
    create B model = Ok instance →
    factory B solver "lp" = Ok opt →
    options !! "stream"%string = Some tee →
    solve B opt instance tee = Ok results →
    spec_error_kind (status B results) = Some kind →
    ∃ e, solve_opt_model B model solver options debug = Raise e
         ∧ exn_name e = kind.

(** Section 7 of the specification, in its words: a CHP configuration
    error is raised as [ConfigurationError] before any constraint is
    generated. *)
Definition no_constraints (m : Model) : Prop :=
  bus_constr m = ∅ ∧ s_chp_eta_constr m = ∅ ∧ s_chp_pth_constr m = ∅
  ∧ s_transformer_eta_constr m = ∅ ∧ s_transformer_w_max m = ∅.

Definition fails_fast_with_ConfigurationError (o : outcome) : Prop :=
  ∃ e partial,
    o = Raised e partial
    ∧ exn_name e = "ConfigurationError"%string
    ∧ no_constraints partial.

(** ** A small network

    The network of the script's [__main__] block, with two transformers
    and two CHPs instead of ten each and three timesteps instead of 8760. *)
Definition bus1 : Bus := mkBus "b1" "coal".
Definition bus2 : Bus := mkBus "b2" "elec".
Definition bus3 : Bus := mkBus "b3" "th".

Definition objs_sf : list Component :=
  [ mkComponent "t0" [bus1] [bus2] (Some 0.5%Q);
    mkComponent "t1" [bus1] [bus2] (Some 0.5%Q) ].

Definition objs_schp : list Component :=
  [ mkComponent "c0" [bus1] [bus2; bus3] None;
    mkComponent "c1" [bus1] [bus2; bus3] None ].

Definition example_edges : list edge := get_edges (objs_sf ++ objs_schp).

Definition entities_dict : Entities :=
  mkEntities [bus1; bus2; bus3] objs_sf objs_schp.

Definition example_timesteps : list Z := [0; 1; 2]%Z.

(** The model a run of the builder ends with, returned or not. *)
Definition final_model (o : outcome) : Model :=
  match o with
  | Returned m => m
  | Raised _ partial => partial
  end.

Definition is_returned (o : outcome) : bool :=
  match o with
  | Returned _ => true
  | Raised _ _ => false
  end.

(** A CHP declared with a single output, in the network above without
    the heat bus. *)
Definition one_output_chp : Component := mkComponent "c0" [bus1] [bus2] None.

Definition one_output_entities : Entities :=
  mkEntities [bus1; bus2] objs_sf [one_output_chp].

Definition one_output_edges : list edge :=
  get_edges (objs_sf ++ [one_output_chp]).

(** The exception a run of the builder ended with, if any. *)
Definition raised_exn (o : outcome) : option exn :=
  match o with
  | Returned _ => None
  | Raised e _ => Some e
  end.

(** A solver backend whose every solve reports [infeasible]; its results
    are just the status, its instances just the model, its solver objects
    the solver's name, and loading results leaves the instance as it is. *)
Definition infeasible_backend : Backend Model string SolverStatus := {|
  create := λ model, Ok model;
  write := λ _ _ _, Ok ();
  factory := λ solver _, Ok solver;
  solve := λ _ _ _, Ok infeasible;
  load := λ instance _, Ok instance;
  status := λ results, results;
|}.

(** ** A model read as a constraint system *)

(** A variable is declared in a model when [m.w], respectively [m.w_add],
    has an entry under its index. *)
Definition declared_var (m : Model) (v : var) : Prop :=
  match v with
  | W i j t => is_Some (w m !! ((i, j), t))
  | W_add i j => ∃ d, w_add m = Some d ∧ is_Some (d !! (i, j))
  end.

(** All the constraints of a model, component after component. *)
Definition model_constraints (m : Model) : list constraint :=
  (map_to_list (bus_constr m)).*2
  ++ (map_to_list (s_chp_eta_constr m)).*2
  ++ (map_to_list (s_chp_pth_constr m)).*2
  ++ (map_to_list (s_transformer_eta_constr m)).*2
  ++ (map_to_list (s_transformer_w_max m)).*2.

(** A valuation satisfies a model when it satisfies every constraint, and
    is within bounds when every declared variable lies in its interval. *)
Definition satisfies (ρ : valuation) (m : Model) : Prop :=
  ∀ c, c ∈ model_constraints m → holds ρ c.

Definition in_interval (x : Q) (v : VarData) : Prop :=
  (lower_bound v <= x)%Q ∧ ∀ u, upper_bound v = Some u → (x <= u)%Q.

Definition within_bounds (ρ : valuation) (m : Model) : Prop :=
  (∀ i j t v, w m !! ((i, j), t) = Some v → in_interval (ρ (W i j t)) v)
  ∧ (∀ d i j v, w_add m = Some d → d !! (i, j) = Some v →
       in_interval (ρ (W_add i j)) v).

(** What the CHP and transformer parts of the builder leave untouched. *)
Definition same_base (m p : Model) : Prop :=
  invest p = invest m ∧ timesteps p = timesteps m ∧ edges p = edges m
  ∧ buses p = buses m ∧ s_transformers p = s_transformers m
  ∧ s_chps p = s_chps m ∧ w_max p = w_max m ∧ w p = w m
  ∧ w_add p = w_add m ∧ bus_constr p = bus_constr m
  ∧ objective p = objective m.

(** A CHP with a third output, in the network above. *)
Definition bus4 : Bus := mkBus "b4" "steam".

Definition three_output_chp : Component :=
  mkComponent "c0" [bus1] [bus2; bus3; bus4] None.

Definition three_output_entities : Entities :=
  mkEntities [bus1; bus2; bus3; bus4] objs_sf [three_output_chp].

Definition three_output_edges : list edge :=
  get_edges (objs_sf ++ [three_output_chp]).

(** What the builder asks of its input: the shapes its dictionaries read
    (a first input everywhere, a first output and an efficiency for a
    simple transformer) and, as soon as there is a timestep, an edge at
    every bus and the edges its rules look up. *)
Record runs_on (entities : Entities) (E : list edge) (T : list Z)
    (inv : bool) : Prop := mkRunsOn {
  ro_transformers :
    ∀ c, c ∈ ent_s_transformers entities →
      is_Some (inputs c !! 0%nat) ∧ is_Some (outputs c !! 0%nat)
      ∧ is_Some (eta c);
  ro_chps : ∀ c, c ∈ ent_s_chps entities → is_Some (inputs c !! 0%nat);
  ro_buses : T ≠ [] → ∀ b, b ∈ ent_buses entities → touched (uid b) E;
  ro_transformer_edges :
    T ≠ [] →
    ∀ c i o, c ∈ ent_s_transformers entities →
      inputs c !! 0%nat = Some i → outputs c !! 0%nat = Some o →
      (uid i, uid c) ∈ E ∧ (uid c, uid o) ∈ E;
  ro_chp_edges :
    T ≠ [] →
    ∀ c i, c ∈ ent_s_chps entities → inputs c !! 0%nat = Some i →
      (uid i, uid c) ∈ E
      ∧ (2 ≤ length (outputs c))%nat
      ∧ ∀ o, o ∈ outputs c → (uid c, uid o) ∈ E;
  ro_invest :
    T ≠ [] → inv = true →
    ∀ c, c ∈ ent_s_transformers entities → component_edges c ⊆ E;
}.

(** The small network with one more bus, [x], and one more edge, from
    [x] to a node [y] that is neither a bus nor a component. *)
Definition stray_entities : Entities :=
  mkEntities [bus1; bus2; bus3; mkBus "x" "none"] objs_sf objs_schp.

Definition stray_edges : list edge :=
  example_edges ++ [("x", "y")]%string.

(** What an exception of the builder tells about its input: an
    [InvalidConstraintError] a bus without any edge, an [IndexError] a
    component short of an input or an output, an [AttributeError] a simple
    transformer without [eta], a [KeyError] an edge of a component that is
    not among the edges. *)
Definition defect (entities : Entities) (E : list edge) (e : exn) : Prop :=
  match e with
  | IndexError =>
      (∃ c, c ∈ ent_s_transformers entities
            ∧ (inputs c = [] ∨ outputs c = []))
      ∨ (∃ c, c ∈ ent_s_chps entities
              ∧ (inputs c = [] ∨ (length (outputs c) < 2)%nat))
  | AttributeError => ∃ c, c ∈ ent_s_transformers entities ∧ eta c = None
  | InvalidConstraintError =>
      ∃ b, b ∈ ent_buses entities ∧ ¬ touched (uid b) E
  | KeyError =>
      ∃ c ij, c ∈ ent_s_transformers entities ++ ent_s_chps entities
              ∧ ij ∈ component_edges c ∧ ij ∉ E
  | External _ => False
  end.

(** The edges of the small network but the last one. *)
Definition short_edges : list edge := take 9 example_edges.

(** The flow variables [w[i,j,t]], as opposed to [w_add[i,j]]. *)
Definition flow_var (v : var) : Prop :=
  match v with W _ _ _ => True | W_add _ _ => False end.

(** * Properties *)

(** ** Fallible maps over lists *)

Section mapM_result.
Context {A B : Type} (f : A → result B).

Lemma mapM_Ok_Forall2 l k :
  mapM f l = Ok k ↔ Forall2 (λ x y, f x = Ok y) l k.
Proof.
  revert k. induction l as [|x l IH]; intros k; simpl;
    unfold mbind, result_bind, mret, result_ret.
  - split.
    + intros [= <-]. constructor.
    + intros Hk. inversion Hk. reflexivity.
  - destruct (f x) as [y|e] eqn:Hx.
    + destruct (mapM f l) as [k'|e] eqn:Hl.
      * split.
        -- intros [= <-]. constructor; [assumption|]. by apply IH.
        -- intros Hk. inversion Hk as [|? y' ? k'' Hy Hrest]; subst.
           apply IH in Hrest. congruence.
      * split; [discriminate|].
        intros Hk. inversion Hk as [|? y' ? k'' Hy Hrest]; subst.
        apply IH in Hrest. discriminate.
    + split; [discriminate|].
      intros Hk. inversion Hk; subst. congruence.
Qed.

Lemma mapM_Raise_elem l e :
  mapM f l = Raise e → ∃ x, x ∈ l ∧ f x = Raise e.
Proof.
  induction l as [|x l IH]; simpl; [discriminate|].
  unfold mbind, result_bind. destruct (f x) as [y|e'] eqn:Hx.
  - destruct (mapM f l) as [k'|e'] eqn:Hl; [discriminate|].
    intros [= <-]. destruct IH as (x' & Hin & Hx'); [reflexivity|].
    exists x'. split; [by right | assumption].
  - intros [= <-]. exists x. split; [by left | assumption].
Qed.

Lemma mapM_Ok_elem l k x :
  mapM f l = Ok k → x ∈ l → ∃ y, y ∈ k ∧ f x = Ok y.
Proof.
  rewrite mapM_Ok_Forall2. intros HF Hx.
  induction HF as [|x' y' l' k' Hxy HF IH]; [by apply elem_of_nil in Hx|].
  apply elem_of_cons in Hx as [->|Hx].
  - exists y'. split; [by left | assumption].
  - destruct (IH Hx) as (y & Hy & Hfy). exists y. split; [by right | done].
Qed.

Lemma mapM_Ok_elem_inv l k y :
  mapM f l = Ok k → y ∈ k → ∃ x, x ∈ l ∧ f x = Ok y.
Proof.
  rewrite mapM_Ok_Forall2. intros HF Hy.
  induction HF as [|x' y' l' k' Hxy HF IH]; [by apply elem_of_nil in Hy|].
  apply elem_of_cons in Hy as [->|Hy].
  - exists x'. split; [by left | assumption].
  - destruct (IH Hy) as (x & Hx & Hfx). exists x. split; [by right | done].
Qed.

Lemma mapM_Ok_total l :
  (∀ x, x ∈ l → ∃ y, f x = Ok y) → ∃ k, mapM f l = Ok k.
Proof.
  induction l as [|x l IH]; intros Hall; [by exists []|].
  destruct (Hall x) as [y Hy]; [by left|].
  destruct IH as [k Hk]; [intros x' Hx'; apply Hall; by right|].
  exists (y :: k). apply mapM_Ok_Forall2.
  constructor; [assumption|]. by apply mapM_Ok_Forall2.
Qed.

Lemma mapM_Ok_fmap (g : A → B) l :
  (∀ x, x ∈ l → f x = Ok (g x)) → mapM f l = Ok (g <$> l).
Proof.
  intros Hall. apply mapM_Ok_Forall2.
  induction l as [|x l IH]; simpl; constructor.
  - apply Hall. by left.
  - apply IH. intros x' Hx'. apply Hall. by right.
Qed.
End mapM_result.

(** ** Dictionaries built from pairs *)

Section py_dict.
Context `{Countable K} {V : Type}.
Implicit Types l : list (K * V).

Lemma py_dict_lookup_Some l k v : py_dict l !! k = Some v → (k, v) ∈ l.
Proof.
  unfold py_dict. intros Hl. apply elem_of_list_to_map_2 in Hl.
  by rewrite elem_of_reverse in Hl.
Qed.

Lemma py_dict_lookup_None l k : py_dict l !! k = None ↔ k ∉ l.*1.
Proof.
  unfold py_dict. rewrite <- not_elem_of_list_to_map, fmap_reverse.
  unfold not. by rewrite elem_of_reverse.
Qed.

Lemma py_dict_lookup_NoDup l k v :
  NoDup l.*1 → (k, v) ∈ l → py_dict l !! k = Some v.
Proof.
  intros Hnd Hin. apply elem_of_list_to_map_1.
  - by rewrite fmap_reverse, reverse_Permutation.
  - by rewrite elem_of_reverse.
Qed.

Lemma py_dict_size l : NoDup l.*1 → size (py_dict l) = length l.
Proof.
  intros Hnd. unfold py_dict. rewrite map_size_list_to_map.
  - apply length_reverse.
  - by rewrite fmap_reverse, reverse_Permutation.
Qed.
End py_dict.

(** ** Dictionary comprehensions and indexed components *)

Section dict_comprehension.
Context `{Countable K} {A V : Type} (key : A → K) (value : A → result V).
Implicit Types (l : list A) (d : gmap K V).

Lemma dict_comprehension_pairs l d :
  dict_comprehension key value l = Ok d →
  ∃ pairs, d = py_dict pairs ∧ pairs.*1 = key <$> l ∧
           mapM (λ x, v ← value x; mret (key x, v)) l = Ok pairs.
Proof.
  unfold dict_comprehension, mbind at 1, result_bind at 1.
  destruct (mapM _ l) as [pairs|e] eqn:Hpairs; [|discriminate].
  intros [= <-]. exists pairs. split; [reflexivity|].
  split; [|reflexivity].
  apply mapM_Ok_Forall2 in Hpairs.
  induction Hpairs as [|x y l' pairs' Hy _ IH]; [reflexivity|].
  rewrite !fmap_cons, IH. f_equal.
  unfold mbind, result_bind in Hy.
  destruct (value x); [|discriminate]. by injection Hy as <-.
Qed.

Lemma dict_comprehension_elem l d x :
  dict_comprehension key value l = Ok d → x ∈ l → ∃ v, value x = Ok v.
Proof.
  intros Hd Hx.
  destruct (dict_comprehension_pairs _ _ Hd) as (pairs & _ & _ & Hm).
  destruct (mapM_Ok_elem _ _ _ _ Hm Hx) as (y & _ & Hy).
  unfold mbind, result_bind in Hy.
  destruct (value x) as [v|]; [by exists v | discriminate].
Qed.

Lemma dict_comprehension_lookup_Some l d k v :
  dict_comprehension key value l = Ok d → d !! k = Some v →
  ∃ x, x ∈ l ∧ key x = k ∧ value x = Ok v.
Proof.
  intros Hd Hk.
  destruct (dict_comprehension_pairs _ _ Hd) as (pairs & -> & _ & Hm).
  apply py_dict_lookup_Some in Hk.
  destruct (mapM_Ok_elem_inv _ _ _ _ Hm Hk) as (x & Hx & Hy).
  unfold mbind, result_bind in Hy.
  destruct (value x) as [v'|] eqn:Hv'; [|discriminate].
  injection Hy as <- <-. exists x. auto.
Qed.

Lemma dict_comprehension_lookup_None l d k :
  dict_comprehension key value l = Ok d →
  d !! k = None ↔ k ∉ key <$> l.
Proof.
  intros Hd.
  destruct (dict_comprehension_pairs _ _ Hd) as (pairs & -> & Hkeys & _).
  by rewrite py_dict_lookup_None, Hkeys.
Qed.

(** With distinct keys, each element is found under its own key. *)
Lemma dict_comprehension_lookup_NoDup l d x :
  dict_comprehension key value l = Ok d → NoDup (key <$> l) → x ∈ l →
  ∃ v, value x = Ok v ∧ d !! key x = Some v.
Proof.
  intros Hd Hnd Hx.
  destruct (dict_comprehension_pairs _ _ Hd) as (pairs & -> & Hkeys & Hm).
  destruct (mapM_Ok_elem _ _ _ _ Hm Hx) as (y & Hy & Hxy).
  unfold mbind, result_bind in Hxy.
  destruct (value x) as [v|]; [|discriminate].
  injection Hxy as <-. exists v. split; [reflexivity|].
  apply py_dict_lookup_NoDup; [by rewrite Hkeys | assumption].
Qed.

Lemma dict_comprehension_size l d :
  dict_comprehension key value l = Ok d → NoDup (key <$> l) →
  size d = length l.
Proof.
  intros Hd Hnd.
  destruct (dict_comprehension_pairs _ _ Hd) as (pairs & -> & Hkeys & _).
  rewrite py_dict_size; [|by rewrite Hkeys].
  by rewrite <- (length_fmap fst), Hkeys, length_fmap.
Qed.

Lemma dict_comprehension_total l :
  (∀ x, x ∈ l → ∃ v, value x = Ok v) →
  ∃ d, dict_comprehension key value l = Ok d.
Proof.
  intros Hall. unfold dict_comprehension.
  destruct (mapM_Ok_total (λ x, v ← value x; mret (key x, v)) l)
    as [pairs Hp].
  - intros x Hx. destruct (Hall x Hx) as [v Hv]. exists (key x, v).
    unfold mbind, result_bind. by rewrite Hv.
  - exists (py_dict pairs). unfold mbind at 1, result_bind at 1.
    by rewrite Hp.
Qed.

Lemma dict_comprehension_Raise l e :
  dict_comprehension key value l = Raise e →
  ∃ x, x ∈ l ∧ value x = Raise e.
Proof.
  unfold dict_comprehension, mbind at 1, result_bind at 1.
  destruct (mapM _ l) as [pairs|e'] eqn:Hpairs; [discriminate|].
  intros [= ->]. apply mapM_Raise_elem in Hpairs as (x & Hx & Hr).
  exists x. split; [assumption|].
  unfold mbind, result_bind in Hr.
  destruct (value x); [discriminate | by injection Hr as ->].
Qed.
End dict_comprehension.

Section indexed_component.
Context `{Countable K} {V : Type}.
Implicit Types (index : list K) (rule : K → result V) (d : gmap K V).

(** The component holds exactly the rule's results, under the indices. *)
Lemma indexed_component_lookup index rule d k v :
  indexed_component index rule = Ok d →
  d !! k = Some v ↔ k ∈ index ∧ rule k = Ok v.
Proof.
  intros Hd. split.
  - intros Hk.
    destruct (dict_comprehension_lookup_Some _ _ _ _ _ _ Hd Hk)
      as (x & Hx & <- & Hv).
    done.
  - intros [Hk Hv]. destruct (d !! k) as [v'|] eqn:Hlook.
    + destruct (dict_comprehension_lookup_Some _ _ _ _ _ _ Hd Hlook)
        as (x & Hx & Hkx & Hv').
      unfold id in Hkx. subst x. congruence.
    + apply (dict_comprehension_lookup_None _ _ _ _ _ Hd) in Hlook.
      by rewrite list_fmap_id in Hlook.
Qed.

Lemma indexed_component_lookup_None index rule d k :
  indexed_component index rule = Ok d → d !! k = None ↔ k ∉ index.
Proof.
  intros Hd. rewrite (dict_comprehension_lookup_None _ _ _ _ _ Hd).
  by rewrite list_fmap_id.
Qed.

Lemma indexed_component_elem index rule d k :
  indexed_component index rule = Ok d → k ∈ index →
  ∃ v, rule k = Ok v ∧ d !! k = Some v.
Proof.
  intros Hd Hk. destruct (d !! k) as [v|] eqn:Hlook.
  - exists v. split; [|reflexivity].
    by apply (indexed_component_lookup _ _ _ _ _ Hd) in Hlook as [_ ?].
  - by apply (indexed_component_lookup_None _ _ _ _ Hd) in Hlook.
Qed.

Lemma indexed_component_size index rule d :
  indexed_component index rule = Ok d → NoDup index →
  size d = length index.
Proof.
  intros Hd Hnd. apply (dict_comprehension_size _ _ _ _ Hd).
  by rewrite list_fmap_id.
Qed.

Lemma indexed_component_total index rule :
  (∀ k, k ∈ index → ∃ v, rule k = Ok v) →
  ∃ d, indexed_component index rule = Ok d.
Proof. apply dict_comprehension_total. Qed.

(** A construction that goes through leaves the whole component. *)
Lemma partial_component_Ok index rule d :
  indexed_component index rule = Ok d → partial_component index rule = d.
Proof.
  unfold indexed_component, dict_comprehension, partial_component.
  destruct (mapM _ index) as [pairs|e] eqn:Hp; [|discriminate].
  intros [= <-]. f_equal. revert pairs Hp.
  induction index as [|k rest IH]; intros pairs; cbn [built_before].
  - by intros [= <-].
  - cbn [mapM]. destruct (rule k) as [v|e]; [|discriminate].
    cbn [mbind result_bind mret result_ret id].
    destruct (mapM _ rest) as [pairs'|e]; [|discriminate].
    intros [= <-]. by rewrite (IH pairs').
Qed.

Lemma indexed_component_Raise index rule e :
  indexed_component index rule = Raise e →
  ∃ k, k ∈ index ∧ rule k = Raise e.
Proof. apply dict_comprehension_Raise. Qed.
End indexed_component.

(** ** Edge derivation *)

Lemma foldl_snoc {A B} (f : A → B) (l : list A) (acc : list B) :
  foldl (λ acc x, acc ++ [f x]) acc l = acc ++ (f <$> l).
Proof.
  revert acc. induction l as [|x l IH]; intros acc; simpl.
  - by rewrite app_nil_r.
  - rewrite IH. by rewrite <- app_assoc.
Qed.

Lemma get_edges_acc (components : list Component) (acc : list edge) :
  foldl (λ (edges : list edge) (c : Component),
           let edges := foldl (λ edges i, edges ++ [(uid i, uid c)])
                              edges (inputs c) in
           foldl (λ edges o, edges ++ [(uid c, uid o)]) edges (outputs c))
        acc components
  = acc ++ concat (component_edges <$> components).
Proof.
  revert acc. induction components as [|c cs IH]; intros acc; simpl.
  - by rewrite app_nil_r.
  - rewrite IH, !foldl_snoc. unfold component_edges.
    by rewrite <- !app_assoc.
Qed.

Lemma get_edges_concat (components : list Component) :
  get_edges components = concat (component_edges <$> components).
Proof. unfold get_edges. by rewrite get_edges_acc. Qed.

Lemma component_edges_length (c : Component) :
  length (component_edges c) = (length (inputs c) + length (outputs c))%nat.
Proof. unfold component_edges. by rewrite length_app, !length_fmap. Qed.

Example get_edges_example :
  get_edges (objs_sf ++ objs_schp)
  = [("b1", "t0"); ("t0", "b2"); ("b1", "t1"); ("t1", "b2");
     ("b1", "c0"); ("c0", "b2"); ("c0", "b3");
     ("b1", "c1"); ("c1", "b2"); ("c1", "b3")]%string.
Proof. reflexivity. Qed.

(** A component listed twice contributes its edges twice. *)
Example get_edges_keeps_duplicates :
  get_edges [one_output_chp; one_output_chp]
  = [("b1", "c0"); ("c0", "b2"); ("b1", "c0"); ("c0", "b2")]%string.
Proof. reflexivity. Qed.

(** C6: [get_edges] returns, for each component in list order, one edge
    [(input.uid, component.uid)] per input in input-list order followed by
    one edge [(component.uid, output.uid)] per output in output-list order,
    all concatenated; repeated pairs are kept, the result being a list. *)
Theorem get_edges_ordered (components : list Component) :
  get_edges components
  = concat ((λ c, ((λ i, (uid i, uid c)) <$> inputs c)
                  ++ ((λ o, (uid c, uid o)) <$> outputs c)) <$> components).
Proof. apply get_edges_concat. Qed.

(** C10: [get_edges] is a list homomorphism: it maps the empty list to the
    empty list and a concatenation to the concatenation of the results, and
    the number of edges is the sum over the components of the number of
    inputs plus the number of outputs. *)
Theorem get_edges_homomorphism (xs ys : list Component) :
  get_edges (xs ++ ys) = get_edges xs ++ get_edges ys
  ∧ get_edges [] = []
  ∧ length (get_edges xs)
    = sum_list ((λ c, length (inputs c) + length (outputs c))%nat <$> xs).
Proof.
  split; [|split].
  - by rewrite !get_edges_concat, fmap_app, concat_app.
  - reflexivity.
  - rewrite get_edges_concat. induction xs as [|c cs IH]; [reflexivity|].
    csimpl. by rewrite length_app, IH, component_edges_length.
Qed.

(** ** Evaluating sums and variable references *)

Lemma eval_foldl_Add (ρ : valuation) (l : list expr) (acc : expr) :
  (eval ρ (foldl Add acc l) == eval ρ acc + Qsum (eval ρ <$> l))%Q.
Proof.
  revert acc. induction l as [|x l IH]; intros acc.
  - cbn [foldl fmap list_fmap Qsum]. ring.
  - cbn [foldl]. rewrite IH. cbn [eval fmap list_fmap Qsum]. ring.
Qed.

Lemma eval_py_sum (ρ : valuation) (l : list expr) :
  (eval ρ (py_sum l) == Qsum (eval ρ <$> l))%Q.
Proof. unfold py_sum. rewrite eval_foldl_Add. cbn [eval]. ring. Qed.

Lemma w_getitem_Ok (m : Model) i j t :
  is_Some (w m !! ((i, j), t)) → w_getitem m i j t = Ok (Var (W i j t)).
Proof. intros [v Hv]. unfold w_getitem, getitem. by rewrite Hv. Qed.

Lemma w_getitem_inv (m : Model) i j t e :
  w_getitem m i j t = Ok e →
  e = Var (W i j t) ∧ is_Some (w m !! ((i, j), t)).
Proof.
  unfold w_getitem, getitem. destruct (w m !! _) as [v|]; [|discriminate].
  intros [= <-]. eauto.
Qed.

Lemma w_getitem_Raise (m : Model) i j t e :
  w_getitem m i j t = Raise e → e = KeyError.
Proof.
  unfold w_getitem, getitem. destruct (w m !! _) as [v|]; [discriminate|].
  by intros [= <-].
Qed.

Lemma expr_vars_foldl_Add (l : list expr) (acc : expr) (v : var) :
  v ∈ expr_vars (foldl Add acc l) ↔
  v ∈ expr_vars acc ∨ ∃ e, e ∈ l ∧ v ∈ expr_vars e.
Proof.
  revert acc. induction l as [|x l IH]; intros acc; cbn [foldl].
  - split; [by left|]. intros [?|(e & ?%elem_of_nil & _)]; done.
  - rewrite IH. cbn [expr_vars]. rewrite elem_of_app. split.
    + intros [[?|?]|(e & He & Hv)].
      * by left.
      * right. exists x. split; [apply list_elem_of_here | done].
      * right. exists e. split; [by apply list_elem_of_further | done].
    + intros [?|(e & [->|He]%elem_of_cons & Hv)].
      * by left; left.
      * by left; right.
      * right. by exists e.
Qed.

Lemma expr_vars_sum_of_vars {A} (f : A → var) (l : list A) (v : var) :
  v ∈ expr_vars (py_sum ((λ x, Var (f x)) <$> l)) ↔ ∃ x, x ∈ l ∧ v = f x.
Proof.
  unfold py_sum. rewrite expr_vars_foldl_Add. cbn [expr_vars]. split.
  - intros [?%elem_of_nil|(e & (x & -> & Hx)%list_elem_of_fmap & Hv)]; [done|].
    cbn [expr_vars] in Hv. apply list_elem_of_singleton in Hv. by exists x.
  - intros (x & Hx & ->). right. exists (Var (f x)).
    split; [by apply (list_elem_of_fmap_2 (λ x, Var (f x)))|].
    cbn [expr_vars]. by apply list_elem_of_singleton.
Qed.

Lemma touched_edges (b : string) (E : list edge) :
  touched b E ↔ edges_from b E ++ edges_into b E ≠ [].
Proof.
  unfold touched, edges_from, edges_into. split.
  - intros (ij & Hij & [Hb|Hb]) Hnil; apply app_eq_nil in Hnil as [H1 H2].
    + assert (ij ∈ filter (λ ij : edge, ij.1 = b) E) as Hin
        by (by apply list_elem_of_filter).
      rewrite H1 in Hin. by apply elem_of_nil in Hin.
    + assert (ij ∈ filter (λ ij : edge, ij.2 = b) E) as Hin
        by (by apply list_elem_of_filter).
      rewrite H2 in Hin. by apply elem_of_nil in Hin.
  - intros Hne.
    destruct (filter (λ ij : edge, ij.1 = b) E) as [|ij l] eqn:H1.
    + destruct (filter (λ ij : edge, ij.2 = b) E) as [|ij l] eqn:H2; [done|].
      assert (ij ∈ filter (λ ij : edge, ij.2 = b) E) as Hin
        by (rewrite H2; apply list_elem_of_here).
      apply list_elem_of_filter in Hin as [? ?]. exists ij. auto.
    + assert (ij ∈ filter (λ ij : edge, ij.1 = b) E) as Hin
        by (rewrite H1; apply list_elem_of_here).
      apply list_elem_of_filter in Hin as [? ?]. exists ij. auto.
Qed.

Lemma expr_vars_flow_terms (t : Z) (l : list edge) :
  expr_vars (py_sum (flow_terms t l)) = [] ↔ l = [].
Proof.
  split; [|by intros ->].
  destruct l as [|[i j] l]; [done|]. intros Hnil.
  assert (W i j t ∈ expr_vars (py_sum (flow_terms t ((i, j) :: l)))) as Hin.
  { apply (expr_vars_sum_of_vars (λ ij : edge, W ij.1 ij.2 t)).
    exists (i, j). split; [apply list_elem_of_here | reflexivity]. }
  rewrite Hnil in Hin. by apply elem_of_nil in Hin.
Qed.

(** The pair the bus rule returns has a variable exactly when an edge
    starts or ends at the bus. *)
Lemma bus_constraint_vars (e : string) (t : Z) (E : list edge) :
  constraint_vars
    (EqTuple (Add (Add (Num 0) (Neg (py_sum (flow_terms t (edges_from e E)))))
                  (py_sum (flow_terms t (edges_into e E))))
             (Num 0)) ≠ []
  ↔ touched e E.
Proof.
  rewrite touched_edges. cbn [constraint_vars expr_vars].
  rewrite app_nil_l, app_nil_r. split.
  - intros Hv [H1 H2]%app_eq_nil. apply Hv. by rewrite H1, H2.
  - intros Hne [H1%expr_vars_flow_terms H2%expr_vars_flow_terms]%app_eq_nil.
    apply Hne. by rewrite H1, H2.
Qed.

(** ** Inverting the steps of the builder *)

Lemma bind_Ok {A B} (r : result A) (f : A → result B) (b : B) :
  r ≫= f = Ok b → ∃ a, r = Ok a ∧ f a = Ok b.
Proof. destruct r as [a|e]; [by exists a | discriminate]. Qed.

Lemma assign_Returned {A} (r : result A) set m m' :
  assign r set m = Returned m' → ∃ a, r = Ok a ∧ m' = set a m.
Proof.
  unfold assign. destruct r as [a|e]; [|discriminate].
  intros [= <-]. by exists a.
Qed.

Lemma attach_Returned `{Countable K} {V} (index : list K)
    (rule : K → result V) set m m' :
  attach index rule set m = Returned m' →
  ∃ d, indexed_component index rule = Ok d ∧ m' = set d m.
Proof.
  unfold attach. destruct (indexed_component index rule) as [d|e];
    [|discriminate].
  intros [= <-]. by exists d.
Qed.

Lemma attach_Var_Returned `{Countable K} (index : list K) rule domain
    set m m' :
  attach index (var_rule rule domain) set m = Returned m' →
  ∃ d, po_Var index rule domain = Ok d ∧ m' = set d m.
Proof. apply attach_Returned. Qed.

Lemma attach_Constraint_Returned `{Countable K} (index : list K) rule
    set m m' :
  attach index (constraint_rule rule) set m = Returned m' →
  ∃ d, po_Constraint index rule = Ok d ∧ m' = set d m.
Proof. apply attach_Returned. Qed.

(** ** What the library accepts as a constraint *)

Lemma is_number_vars (e : expr) : is_number e = true ↔ expr_vars e = [].
Proof.
  induction e as [q|v|a IHa b IHb|a IHa|a IHa b IHb|a IHa b IHb];
    cbn [is_number expr_vars];
    rewrite ?andb_true_iff, ?IHa, ?IHb; try done;
    (split; [by intros [-> ->] | by intros [? ?]%app_eq_nil]).
Qed.

Lemma as_constraint_Ok (c c' : constraint) :
  as_constraint c = Ok c' → c' = c.
Proof.
  destruct c as [body rhs|lhs rhs]; cbn [as_constraint].
  - destruct (is_number body && is_number rhs); [discriminate|].
    by intros [= <-].
  - by intros [= <-].
Qed.

Lemma as_constraint_EqTuple (body rhs : expr) (c : constraint) :
  as_constraint (EqTuple body rhs) = Ok c →
  constraint_vars (EqTuple body rhs) ≠ [].
Proof.
  cbn [as_constraint constraint_vars].
  destruct (is_number body && is_number rhs) eqn:Hn; [discriminate|].
  intros _ [Hb Hr]%app_eq_nil.
  apply is_number_vars in Hb, Hr. by rewrite Hb, Hr in Hn.
Qed.

Lemma as_constraint_vars (c : constraint) :
  constraint_vars c ≠ [] → as_constraint c = Ok c.
Proof.
  destruct c as [body rhs|lhs rhs]; cbn [as_constraint constraint_vars];
    [|done].
  intros Hv. destruct (is_number body && is_number rhs) eqn:Hn; [|done].
  apply andb_true_iff in Hn as [Hb%is_number_vars Hr%is_number_vars].
  by rewrite Hb, Hr in Hv.
Qed.

Lemma as_constraint_Raise (c : constraint) (e : exn) :
  as_constraint c = Raise e →
  e = InvalidConstraintError ∧ constraint_vars c = [].
Proof.
  destruct c as [body rhs|lhs rhs]; cbn [as_constraint constraint_vars];
    [|discriminate].
  destruct (is_number body && is_number rhs) eqn:Hn; [|discriminate].
  intros [= <-]. split; [reflexivity|].
  apply andb_true_iff in Hn as [Hb%is_number_vars Hr%is_number_vars].
  by rewrite Hb, Hr.
Qed.

Lemma constraint_rule_Ok {K} (rule : K → result constraint) k c :
  constraint_rule rule k = Ok c → rule k = Ok c ∧ as_constraint c = Ok c.
Proof.
  unfold constraint_rule.
  intros (c' & Hc' & Hc)%bind_Ok.
  pose proof (as_constraint_Ok _ _ Hc) as ->. by split.
Qed.

Lemma constraint_rule_Raise {K} (rule : K → result constraint) k e :
  constraint_rule rule k = Raise e →
  rule k = Raise e
  ∨ ∃ c, rule k = Ok c ∧ constraint_vars c = []
         ∧ e = InvalidConstraintError.
Proof.
  unfold constraint_rule. destruct (rule k) as [c|e'] eqn:Hk.
  - cbn [mbind result_bind]. intros [-> Hv]%as_constraint_Raise.
    right. by exists c.
  - intros [= <-]. by left.
Qed.

Section po_Constraint.
Context `{Countable K}.
Implicit Types (index : list K) (rule : K → result constraint).

Lemma po_Constraint_Ok index rule d :
  po_Constraint index rule = Ok d → indexed_component index rule = Ok d.
Proof.
  unfold po_Constraint, indexed_component, dict_comprehension.
  intros (pairs & Hp & [= <-])%bind_Ok.
  assert (mapM (λ x, v ← rule x; mret (id x, v)) index = Ok pairs) as ->;
    [|reflexivity].
  apply mapM_Ok_Forall2. apply mapM_Ok_Forall2 in Hp.
  eapply Forall2_impl; [exact Hp|].
  intros k [k' c] (c' & [Hc _]%constraint_rule_Ok & [= <- <-])%bind_Ok.
  by rewrite Hc.
Qed.

Lemma po_Constraint_accepted index rule d k c :
  po_Constraint index rule = Ok d → d !! k = Some c →
  as_constraint c = Ok c.
Proof.
  intros Hd Hk. unfold po_Constraint in Hd.
  apply (indexed_component_lookup _ _ _ _ _ Hd) in Hk as [_ Hk].
  by apply constraint_rule_Ok in Hk as [_ ?].
Qed.

Lemma po_Constraint_total index rule :
  (∀ k, k ∈ index → ∃ c, rule k = Ok c ∧ constraint_vars c ≠ []) →
  ∃ d, po_Constraint index rule = Ok d.
Proof.
  intros Hall. apply indexed_component_total.
  intros k (c & Hc & Hv)%Hall. exists c. unfold constraint_rule.
  rewrite Hc. by apply as_constraint_vars.
Qed.

Lemma po_Constraint_Raise index rule e :
  po_Constraint index rule = Raise e →
  ∃ k, k ∈ index
       ∧ (rule k = Raise e
          ∨ ∃ c, rule k = Ok c ∧ constraint_vars c = []
                 ∧ e = InvalidConstraintError).
Proof.
  intros (k & Hk & Hr%constraint_rule_Raise)%indexed_component_Raise.
  by exists k.
Qed.
End po_Constraint.

Lemma and_then_Returned o k m' :
  and_then o k = Returned m' → ∃ m, o = Returned m ∧ k m = Returned m'.
Proof. destruct o as [m|e p]; [by exists m | discriminate]. Qed.

Lemma declare_variables_Returned m m' :
  declare_variables m = Returned m' →
  if invest m then
    ∃ wv wadd,
      po_Var (list_prod (edges m) (timesteps m)) None NonNegativeReals = Ok wv
      ∧ po_Var (edges m) None NonNegativeReals = Ok wadd
      ∧ m' = set_w_add wadd (set_w wv m)
  else
    ∃ wv,
      po_Var (list_prod (edges m) (timesteps m)) (Some (w_max_rule m))
             NonNegativeReals = Ok wv
      ∧ m' = set_w wv m.
Proof.
  unfold declare_variables. destruct (invest m).
  - intros (m1 & (wv & Hwv & ->)%attach_Var_Returned
               & (wadd & Hwadd & ->)%attach_Var_Returned)%and_then_Returned.
    by exists wv, wadd.
  - intros (wv & Hwv & ->)%attach_Var_Returned. by exists wv.
Qed.

Lemma simple_chp_model_Returned entities m m' :
  simple_chp_model entities m = Returned m' →
  ∃ I_ O_ ce cp,
    dict_comprehension uid (λ t, uid <$> py_index (inputs t) 0)
                       (ent_s_chps entities) = Ok I_
    ∧ dict_comprehension uid (λ t, mret (uid <$> outputs t))
                         (ent_s_chps entities) = Ok O_
    ∧ po_Constraint (list_prod (s_chps m) (timesteps m))
                    (chp_eta_rule I_ O_ m) = Ok ce
    ∧ po_Constraint (list_prod (s_chps m) (timesteps m))
                    (power_to_heat_rule O_ (set_s_chp_eta_constr ce m))
      = Ok cp
    ∧ m' = set_s_chp_pth_constr cp (set_s_chp_eta_constr ce m).
Proof.
  unfold simple_chp_model.
  destruct (dict_comprehension _ _ _ ≫= _) as [[I_ O_]|e] eqn:Hd;
    [|discriminate].
  apply bind_Ok in Hd as (I' & HI & (O' & HO & [= -> ->])%bind_Ok).
  intros (m1 & (ce & Hce & ->)%attach_Constraint_Returned
             & (cp & Hcp & ->)%attach_Constraint_Returned)%and_then_Returned.
  by exists I_, O_, ce, cp.
Qed.

Lemma simple_transformer_model_Returned entities m m' :
  simple_transformer_model entities m = Returned m' →
  ∃ I_ O_ eta te,
    dict_comprehension uid (λ t, uid <$> py_index (inputs t) 0)
                       (ent_s_transformers entities) = Ok I_
    ∧ dict_comprehension uid (λ t, uid <$> py_index (outputs t) 0)
                         (ent_s_transformers entities) = Ok O_
    ∧ dict_comprehension uid getattr_eta (ent_s_transformers entities)
      = Ok eta
    ∧ po_Constraint (list_prod (s_transformers m) (timesteps m))
                    (transformer_eta_rule I_ O_ eta m) = Ok te
    ∧ if invest m then
        ∃ tw,
          let m1 := set_ee (get_edges (ent_s_transformers entities))
                           (set_s_transformer_eta_constr te m) in
          po_Constraint (list_prod (ee m1) (timesteps m1))
                        (w_bound_investment m1) = Ok tw
          ∧ m' = set_s_transformer_w_max tw m1
      else m' = set_s_transformer_eta_constr te m.
Proof.
  unfold simple_transformer_model.
  destruct (dict_comprehension _ _ _ ≫= _) as [[[I_ O_] eta]|e] eqn:Hd;
    [|discriminate].
  apply bind_Ok in Hd as (I' & HI & (O' & HO
                          & (eta' & Heta & [= -> -> ->])%bind_Ok)%bind_Ok).
  intros (m1 & (te & Hte & ->)%attach_Constraint_Returned
             & Hrest)%and_then_Returned.
  exists I_, O_, eta, te. repeat (split; [assumption|]).
  change (invest (set_s_transformer_eta_constr te m)) with (invest m) in Hrest.
  destruct (invest m).
  - apply attach_Constraint_Returned in Hrest as (tw & Htw & ->).
    by exists tw.
  - by injection Hrest as <-.
Qed.

(** The rules read the model only through its variables, capacities and
    edges. *)
Lemma bus_rule_env m1 m2 :
  w m1 = w m2 → edges m1 = edges m2 → bus_rule m1 = bus_rule m2.
Proof.
  intros Hw He. unfold bus_rule, w_getitem. by rewrite Hw, He.
Qed.

Lemma transformer_eta_rule_env I_ O_ eta m1 m2 :
  w m1 = w m2 →
  transformer_eta_rule I_ O_ eta m1 = transformer_eta_rule I_ O_ eta m2.
Proof. intros Hw. unfold transformer_eta_rule, w_getitem. by rewrite Hw. Qed.

Lemma w_bound_investment_env m1 m2 :
  w m1 = w m2 → w_max m1 = w_max m2 → w_add m1 = w_add m2 →
  w_bound_investment m1 = w_bound_investment m2.
Proof.
  intros Hw Hmax Hadd. unfold w_bound_investment, w_getitem, w_add_getitem.
  by rewrite Hw, Hmax, Hadd.
Qed.

Lemma chp_eta_rule_env I_ O_ m1 m2 :
  w m1 = w m2 → chp_eta_rule I_ O_ m1 = chp_eta_rule I_ O_ m2.
Proof. intros Hw. unfold chp_eta_rule, w_getitem. by rewrite Hw. Qed.

Lemma power_to_heat_rule_env O_ m1 m2 :
  w m1 = w m2 → power_to_heat_rule O_ m1 = power_to_heat_rule O_ m2.
Proof. intros Hw. unfold power_to_heat_rule, w_getitem. by rewrite Hw. Qed.

Lemma obj_rule_env m1 m2 :
  w m1 = w m2 → edges m1 = edges m2 → timesteps m1 = timesteps m2 →
  obj_rule m1 = obj_rule m2.
Proof.
  intros Hw He Ht. unfold obj_rule, w_getitem. by rewrite Hw, He, Ht.
Qed.

Lemma w_max_rule_env m1 m2 :
  w_max m1 = w_max m2 → w_max_rule m1 = w_max_rule m2.
Proof. intros Hmax. unfold w_max_rule. by rewrite Hmax. Qed.

Lemma opt_model_Returned entities E T inv m :
  opt_model entities E T inv = Returned m → assembled entities E T inv m.
Proof.
  unfold opt_model, add_components.
  intros (m1 & Hvars & (m2 & (bc & Hbc & ->)%attach_Constraint_Returned
          & (m3 & Hchp & (m4 & Htr & Hobj)%and_then_Returned
            )%and_then_Returned)%and_then_Returned)%and_then_Returned.
  apply declare_variables_Returned in Hvars.
  apply simple_chp_model_Returned in Hchp
    as (Ic & Oc & ce & cp & HIc & HOc & Hce & Hcp & ->).
  apply simple_transformer_model_Returned in Htr
    as (It & Ot & etat & te & HIt & HOt & Hetat & Hte & Htw).
  apply assign_Returned in Hobj as (obj & Hobj & ->).
  cbn [invest new_model] in Hvars.
  destruct inv.
  - destruct Hvars as (wv & wadd & Hwv & Hwadd & ->).
    cbn [invest new_model set_s_chp_pth_constr set_s_chp_eta_constr
         set_bus_constr set_w_add set_w] in Htw.
    destruct Htw as (tw & Htw & ->). cbv zeta in Htw.
    split; [split; try (fields; reflexivity)|..].
    + fields_in Hwv. exact Hwv.
    + exists wadd. split; [exact Hwadd | fields; reflexivity].
    + by_env bus_rule_env Hbc.
    + exists Ic, Oc. split; [exact HIc|]. split; [exact HOc|]. split.
      * by_env chp_eta_rule_env Hce.
      * by_env power_to_heat_rule_env Hcp.
    + exists It, Ot, etat. split; [exact HIt|]. split; [exact HOt|].
      split; [exact Hetat|].
      by_env transformer_eta_rule_env Hte.
    + split; [fields; reflexivity|].
      by_env w_bound_investment_env Htw.
    + exists obj. split; [|fields; reflexivity].
      by_env obj_rule_env Hobj.
  - destruct Hvars as (wv & Hwv & ->).
    cbn [invest new_model set_s_chp_pth_constr set_s_chp_eta_constr
         set_bus_constr set_w] in Htw.
    subst m4.
    split; [split; try (fields; reflexivity)|..].
    + by_env w_max_rule_env Hwv.
    + by_env bus_rule_env Hbc.
    + exists Ic, Oc. split; [exact HIc|]. split; [exact HOc|]. split.
      * by_env chp_eta_rule_env Hce.
      * by_env power_to_heat_rule_env Hcp.
    + exists It, Ot, etat. split; [exact HIt|]. split; [exact HOt|].
      split; [exact Hetat|].
      by_env transformer_eta_rule_env Hte.
    + fields; reflexivity.
    + exists obj. split; [|fields; reflexivity].
      by_env obj_rule_env Hobj.
Qed.

(** ** Index sets *)

Lemma elem_of_list_prod {A B} (l : list A) (k : list B) (x : A) (y : B) :
  (x, y) ∈ list_prod l k ↔ x ∈ l ∧ y ∈ k.
Proof. rewrite !list_elem_of_In. apply in_prod_iff. Qed.

Lemma NoDup_list_prod {A B} (l : list A) (k : list B) :
  NoDup l → NoDup k → NoDup (list_prod l k).
Proof.
  intros Hl Hk. induction Hl as [|x l Hx Hl IH]; [constructor|].
  cbn [list_prod]. apply NoDup_app. split; [|split].
  - change (NoDup (pair x <$> k)). by apply (NoDup_fmap_2 _).
  - intros [x' y'] Hin. change ((x', y') ∈ pair x <$> k) in Hin.
    apply list_elem_of_fmap in Hin as (y & [= -> ->] & Hy).
    rewrite elem_of_list_prod. by intros [? _].
  - exact IH.
Qed.

(** ** The declared variables *)

Lemma assembled_declared entities E T inv m :
  assembled entities E T inv m → declared entities E T inv m.
Proof. apply asm_declared. Qed.

Section declared.
Context {entities : Entities} {E : list edge} {T : list Z} {inv : bool}
        {m : Model} (Hm : declared entities E T inv m).

Lemma declared_w_max i j cap :
  w_max m !! (i, j) = Some cap → cap = 100%Q ∧ (i, j) ∈ E.
Proof.
  rewrite (dcl_w_max _ _ _ _ _ Hm). intros Hcap%py_dict_lookup_Some.
  split.
  - by apply elem_of_zip_r, elem_of_replicate_inv in Hcap.
  - by apply elem_of_zip_l in Hcap.
Qed.

Lemma declared_w_max_elem i j :
  (i, j) ∈ E → w_max m !! (i, j) = Some 100%Q.
Proof.
  intros Hin. destruct (w_max m !! (i, j)) as [cap|] eqn:Hcap.
  - by apply declared_w_max in Hcap as [-> _].
  - rewrite (dcl_w_max _ _ _ _ _ Hm) in Hcap.
    apply py_dict_lookup_None in Hcap.
    rewrite fst_zip in Hcap; [done|]. by rewrite length_replicate.
Qed.

(** The flow variables are exactly those indexed by an edge and a
    timestep, each with the data the investment flag selects. *)
Lemma declared_w i j t v :
  w m !! ((i, j), t) = Some v ↔
  ((i, j) ∈ E ∧ t ∈ T)
  ∧ v = mkVarData NonNegativeReals
                  (if inv then None else Some (0%Q, 100%Q)).
Proof.
  pose proof (dcl_w _ _ _ _ _ Hm) as Hw. unfold po_Var, var_rule in Hw.
  rewrite (indexed_component_lookup _ _ _ _ _ Hw), elem_of_list_prod.
  assert ((i, j) ∈ E →
          (b ← match (if inv then None else Some (w_max_rule m)) with
               | Some r => Some <$> r ((i, j), t)
               | None => mret None
               end;
           mret (mkVarData NonNegativeReals b))
          = Ok (mkVarData NonNegativeReals
                          (if inv then None else Some (0%Q, 100%Q))))
    as Hrule.
  { intros Hij. pose proof (declared_w_max_elem _ _ Hij) as Hcap.
    destruct inv; [reflexivity|].
    unfold w_max_rule, getitem. by rewrite Hcap. }
  split.
  - intros [[Hij Ht] Hv]. split; [done|].
    rewrite (Hrule Hij) in Hv. by injection Hv as <-.
  - intros [[Hij Ht] ->]. split; [done|]. by apply Hrule.
Qed.

Lemma declared_w_is_Some i j t :
  (i, j) ∈ E → t ∈ T → is_Some (w m !! ((i, j), t)).
Proof. intros Hij Ht. eexists. by apply declared_w. Qed.

Lemma declared_w_getitem i j t :
  (i, j) ∈ E → t ∈ T → w_getitem m i j t = Ok (Var (W i j t)).
Proof. intros Hij Ht. by apply w_getitem_Ok, declared_w_is_Some. Qed.

Lemma declared_w_getitem_inv i j t e :
  w_getitem m i j t = Ok e → e = Var (W i j t) ∧ (i, j) ∈ E ∧ t ∈ T.
Proof.
  intros [-> [v Hv]]%w_getitem_inv. split; [reflexivity|].
  by apply declared_w in Hv as [? _].
Qed.
End declared.

Lemma is_returned_final (o : outcome) :
  is_returned o = true → o = Returned (final_model o).
Proof. by destruct o. Qed.

(** ** Bus balance *)

Lemma eval_flow_terms (ρ : valuation) (t : Z) (l : list edge) :
  (eval ρ (py_sum (flow_terms t l)) == flow ρ t l)%Q.
Proof.
  rewrite eval_py_sum. unfold flow_terms, flow.
  by rewrite <- list_fmap_compose.
Qed.

Section rules.
Context {entities : Entities} {E : list edge} {T : list Z} {inv : bool}
        {m : Model} (Hm : declared entities E T inv m).

Lemma declared_flow_terms (t : Z) (l : list edge) :
  t ∈ T → l ⊆ E →
  mapM (λ ij : edge, w_getitem m ij.1 ij.2 t) l = Ok (flow_terms t l).
Proof.
  intros Ht Hl. unfold flow_terms. apply mapM_Ok_fmap.
  intros [i j] Hij. apply (declared_w_getitem Hm); [by apply Hl | done].
Qed.

Lemma bus_rule_Ok (e : string) (t : Z) :
  t ∈ T →
  bus_rule m (e, t)
  = Ok (EqTuple
          (Add (Add (Num 0) (Neg (py_sum (flow_terms t (edges_from e E)))))
               (py_sum (flow_terms t (edges_into e E))))
          (Num 0)).
Proof.
  intros Ht. unfold bus_rule. rewrite (dcl_edges _ _ _ _ _ Hm).
  fold (edges_from e E) (edges_into e E).
  rewrite !declared_flow_terms; try done.
  - intros ij Hij. unfold edges_into in Hij.
    by apply list_elem_of_filter in Hij as [_ ?].
  - intros ij Hij. unfold edges_from in Hij.
    by apply list_elem_of_filter in Hij as [_ ?].
Qed.
End rules.

(** C1: for every bus [b] of the entities and every timestep [t], the
    returned model holds, under the index [(b.uid, t)], an equality
    constraint whose body is the flow on the edges into [b] minus the flow
    on the edges out of [b] and whose right-hand side is 0; with distinct
    bus ids and distinct timesteps the bus balance has exactly
    |buses| * |timesteps| constraints. *)
Theorem bus_balance_constraints entities E T inv m :
  opt_model entities E T inv = Returned m →
  NoDup (uid <$> ent_buses entities) →
  NoDup T →
  (∀ b t, b ∈ ent_buses entities → t ∈ T →
     ∃ body,
       bus_constr m !! (uid b, t) = Some (EqTuple body (Num 0))
       ∧ ∀ ρ, (eval ρ body
               == flow ρ t (edges_into (uid b) E)
                  - flow ρ t (edges_from (uid b) E))%Q)
  ∧ size (bus_constr m) = (length (ent_buses entities) * length T)%nat.
Proof.
  intros Hm%opt_model_Returned Hbuses HT.
  pose proof (asm_bus_constr _ _ _ _ _ Hm) as Hbc.
  rewrite (dcl_buses _ _ _ _ _ (asm_declared _ _ _ _ _ Hm)) in Hbc.
  apply po_Constraint_Ok in Hbc.
  split.
  - intros b t Hb Ht. eexists. split.
    + apply (indexed_component_lookup _ _ _ _ _ Hbc). split.
      * apply elem_of_list_prod. split; [|done].
        by apply list_elem_of_fmap_2.
      * by apply (bus_rule_Ok (assembled_declared _ _ _ _ _ Hm)).
    + intros ρ. cbn [eval]. rewrite !eval_flow_terms. ring.
  - rewrite (indexed_component_size _ _ _ Hbc).
    + by rewrite length_prod, length_fmap.
    + by apply NoDup_list_prod.
Qed.

Lemma bus_balance_constraints_witness :
  let m := final_model
             (opt_model entities_dict example_edges example_timesteps false) in
  (∀ b t, b ∈ ent_buses entities_dict → t ∈ example_timesteps →
     ∃ body,
       bus_constr m !! (uid b, t) = Some (EqTuple body (Num 0))
       ∧ ∀ ρ, (eval ρ body
               == flow ρ t (edges_into (uid b) example_edges)
                  - flow ρ t (edges_from (uid b) example_edges))%Q)
  ∧ size (bus_constr m) = 9%nat.
Proof.
  apply (bus_balance_constraints entities_dict example_edges
           example_timesteps false).
  - apply is_returned_final. vm_compute. reflexivity.
  - apply (bool_decide_unpack _). vm_compute. exact I.
  - apply (bool_decide_unpack _). vm_compute. exact I.
Defined.

(** ** Conversion constraints *)

Lemma fmap_py_index_Ok {A B} (f : A → B) (l : list A) (n : nat) (y : B) :
  f <$> py_index l n = Ok y → ∃ x, l !! n = Some x ∧ y = f x.
Proof.
  unfold py_index. destruct (l !! n) as [x|]; [|discriminate].
  intros [= <-]. by exists x.
Qed.

Lemma getitem_Some `{Countable K} {V} (d : gmap K V) (k : K) (v : V) :
  d !! k = Some v → getitem d k = Ok v.
Proof. intros Hk. unfold getitem. by rewrite Hk. Qed.

Lemma getattr_eta_Ok (t : Component) (η : Q) :
  getattr_eta t = Ok η → eta t = Some η.
Proof. unfold getattr_eta. destruct (eta t); [by intros [= ->] | done]. Qed.

Lemma transformer_eta_rule_inv I_ O_ etas m e t c i o η :
  I_ !! e = Some i → O_ !! e = Some o → etas !! e = Some η →
  transformer_eta_rule I_ O_ etas m (e, t) = Ok c →
  c = EqTuple (Add (Add (Num 0) (Mul (Var (W i e t)) (Num η)))
                   (Neg (Var (W e o t))))
              (Num 0).
Proof.
  intros HI HO Heta. unfold transformer_eta_rule.
  rewrite (getitem_Some _ _ _ HI), (getitem_Some _ _ _ HO),
    (getitem_Some _ _ _ Heta).
  cbn [mbind result_bind].
  destruct (w_getitem m i e t) as [win|] eqn:Hin; [|discriminate].
  apply w_getitem_inv in Hin as [-> _]. cbn [mbind result_bind].
  destruct (w_getitem m e o t) as [wout|] eqn:Hout; [|discriminate].
  apply w_getitem_inv in Hout as [-> _]. by intros [= <-].
Qed.

(** C2: for every simple transformer [e] and timestep [t], the returned
    model holds, under the index [(e.uid, t)], the equality constraint
    [w[I(e),e,t] * eta(e) - w[e,O(e),t] = 0], where [I(e)] is the first
    declared input of [e] and [O(e)] its first declared output (the
    transformers having distinct ids). *)
Theorem simple_transformer_constraints entities E T inv m :
  opt_model entities E T inv = Returned m →
  NoDup (uid <$> ent_s_transformers entities) →
  ∀ e t, e ∈ ent_s_transformers entities → t ∈ T →
    ∃ i o η body,
      inputs e !! 0%nat = Some i
      ∧ outputs e !! 0%nat = Some o
      ∧ eta e = Some η
      ∧ s_transformer_eta_constr m !! (uid e, t)
        = Some (EqTuple body (Num 0))
      ∧ ∀ ρ, (eval ρ body
              == ρ (W (uid i) (uid e) t) * η - ρ (W (uid e) (uid o) t))%Q.
Proof.
  intros Hm%opt_model_Returned Hnd e t He Ht.
  destruct (asm_transformer _ _ _ _ _ Hm)
    as (I_ & O_ & etas & HI & HO & Heta & Hte).
  apply po_Constraint_Ok in Hte.
  rewrite (dcl_s_transformers _ _ _ _ _ (asm_declared _ _ _ _ _ Hm)) in Hte.
  destruct (dict_comprehension_lookup_NoDup _ _ _ _ _ HI Hnd He)
    as (ui & (i & Hi & ->)%fmap_py_index_Ok & HIe).
  destruct (dict_comprehension_lookup_NoDup _ _ _ _ _ HO Hnd He)
    as (uo & (o & Ho & ->)%fmap_py_index_Ok & HOe).
  destruct (dict_comprehension_lookup_NoDup _ _ _ _ _ Heta Hnd He)
    as (η & Hη%getattr_eta_Ok & Hetae).
  destruct (indexed_component_elem _ _ _ (uid e, t) Hte) as (c & Hc & Hlook).
  { apply elem_of_list_prod. split; [by apply list_elem_of_fmap_2 | done]. }
  apply (transformer_eta_rule_inv _ _ _ _ _ _ _ _ _ _ HIe HOe Hetae) in Hc.
  subst c. exists i, o, η. eexists. repeat (split; [eassumption|]).
  intros ρ. cbn [eval]. ring.
Qed.

Lemma simple_transformer_constraints_witness :
  let m := final_model
             (opt_model entities_dict example_edges example_timesteps false) in
  ∃ i o η body,
    [bus1] !! 0%nat = Some i
    ∧ [bus2] !! 0%nat = Some o
    ∧ Some 0.5%Q = Some η
    ∧ s_transformer_eta_constr m !! ("t0"%string, 1%Z)
      = Some (EqTuple body (Num 0))
    ∧ ∀ ρ, (eval ρ body
            == ρ (W (uid i) "t0" 1) * η - ρ (W "t0" (uid o) 1))%Q.
Proof.
  refine (simple_transformer_constraints entities_dict example_edges
            example_timesteps false _ _ _
            (mkComponent "t0" [bus1] [bus2] (Some 0.5%Q)) 1%Z _ _).
  - apply is_returned_final. vm_compute. reflexivity.
  - apply (bool_decide_unpack _). vm_compute. exact I.
  - apply list_elem_of_here.
  - apply (bool_decide_unpack _). vm_compute. exact I.
Defined.

Lemma mapM_w_getitem_inv m e t os wouts :
  mapM (λ o, w_getitem m e o t) os = Ok wouts →
  wouts = (λ o, Var (W e o t)) <$> os.
Proof.
  rewrite mapM_Ok_Forall2. intros HF.
  induction HF as [|o y os' wouts' Hy _ IH]; [reflexivity|].
  apply w_getitem_inv in Hy as [-> _]. by rewrite fmap_cons, IH.
Qed.

Lemma chp_eta_rule_inv I_ O_ m e t c i os :
  I_ !! e = Some i → O_ !! e = Some os →
  chp_eta_rule I_ O_ m (e, t) = Ok c →
  c = EqTuple
        (Add (Add (Num 0) (Var (W i e t)))
             (Div (Neg (py_sum ((λ o, Var (W e o t)) <$> os))) (Num 0.8)))
        (Num 0).
Proof.
  intros HI HO. unfold chp_eta_rule.
  rewrite (getitem_Some _ _ _ HI), (getitem_Some _ _ _ HO).
  cbn [mbind result_bind].
  destruct (w_getitem m i e t) as [win|] eqn:Hin; [|discriminate].
  apply w_getitem_inv in Hin as [-> _]. cbn [mbind result_bind].
  destruct (mapM _ os) as [wouts|] eqn:Hout; [|discriminate].
  apply mapM_w_getitem_inv in Hout as ->. by intros [= <-].
Qed.

Lemma power_to_heat_rule_inv O_ m e t c os power heat :
  O_ !! e = Some os → os !! 0%nat = Some power → os !! 1%nat = Some heat →
  power_to_heat_rule O_ m (e, t) = Ok c →
  c = EqTuple
        (Add (Add (Num 0) (Var (W e power t)))
             (Mul (Neg (Var (W e heat t))) (Num 0.6)))
        (Num 0).
Proof.
  intros HO Hp Hh. unfold power_to_heat_rule, py_index.
  rewrite (getitem_Some _ _ _ HO). cbn [mbind result_bind].
  rewrite Hp, Hh. cbn [mbind result_bind].
  destruct (w_getitem m e power t) as [wp|] eqn:Hwp; [|discriminate].
  apply w_getitem_inv in Hwp as [-> _]. cbn [mbind result_bind].
  destruct (w_getitem m e heat t) as [wh|] eqn:Hwh; [|discriminate].
  apply w_getitem_inv in Hwh as [-> _]. by intros [= <-].
Qed.

(** C3: for every CHP [e] whose outputs are [power; heat] and every
    timestep [t], the returned model holds under the index [(e.uid, t)]
    the two equality constraints
    [w[I(e),e,t] - (w[e,power,t] + w[e,heat,t]) / 0.8 = 0] and
    [w[e,power,t] - w[e,heat,t] * 0.6 = 0], one in each of the two CHP
    constraint components; with distinct CHP ids and timesteps each of the
    two components has exactly |CHPs| * |timesteps| constraints. *)
Theorem chp_constraints entities E T inv m :
  opt_model entities E T inv = Returned m →
  NoDup (uid <$> ent_s_chps entities) →
  NoDup T →
  (∀ e t power heat,
     e ∈ ent_s_chps entities → t ∈ T → outputs e = [power; heat] →
     ∃ i body_eta body_pth,
       inputs e !! 0%nat = Some i
       ∧ s_chp_eta_constr m !! (uid e, t) = Some (EqTuple body_eta (Num 0))
       ∧ s_chp_pth_constr m !! (uid e, t) = Some (EqTuple body_pth (Num 0))
       ∧ (∀ ρ, (eval ρ body_eta
                == ρ (W (uid i) (uid e) t)
                   - (ρ (W (uid e) (uid power) t)
                      + ρ (W (uid e) (uid heat) t)) / 0.8)%Q)
       ∧ (∀ ρ, (eval ρ body_pth
                == ρ (W (uid e) (uid power) t)
                   - ρ (W (uid e) (uid heat) t) * 0.6)%Q))
  ∧ size (s_chp_eta_constr m) = (length (ent_s_chps entities) * length T)%nat
  ∧ size (s_chp_pth_constr m) = (length (ent_s_chps entities) * length T)%nat.
Proof.
  intros Hm%opt_model_Returned Hnd HT.
  destruct (asm_chp _ _ _ _ _ Hm) as (I_ & O_ & HI & HO & Hce & Hcp).
  apply po_Constraint_Ok in Hce, Hcp.
  rewrite (dcl_s_chps _ _ _ _ _ (asm_declared _ _ _ _ _ Hm)) in Hce, Hcp.
  split; [|split].
  - intros e t power heat He Ht Houts.
    destruct (dict_comprehension_lookup_NoDup _ _ _ _ _ HI Hnd He)
      as (ui & (i & Hi & ->)%fmap_py_index_Ok & HIe).
    destruct (dict_comprehension_lookup_NoDup _ _ _ _ _ HO Hnd He)
      as (os & [= <-] & HOe).
    rewrite Houts in HOe.
    assert ((uid e, t) ∈ list_prod (uid <$> ent_s_chps entities) T) as Hidx.
    { apply elem_of_list_prod. split; [by apply list_elem_of_fmap_2|done]. }
    destruct (indexed_component_elem _ _ _ _ Hce Hidx) as (c1 & Hc1 & Hl1).
    destruct (indexed_component_elem _ _ _ _ Hcp Hidx) as (c2 & Hc2 & Hl2).
    apply (chp_eta_rule_inv _ _ _ _ _ _ _ _ HIe HOe) in Hc1.
    apply (power_to_heat_rule_inv _ _ _ _ _ _ (uid power) (uid heat) HOe)
      in Hc2; [|reflexivity..].
    subst c1 c2. exists i. do 2 eexists.
    split; [exact Hi|]. split; [exact Hl1|]. split; [exact Hl2|].
    split; intros ρ; cbn [eval py_sum foldl fmap list_fmap]; field.
  - rewrite (indexed_component_size _ _ _ Hce).
    + by rewrite length_prod, length_fmap.
    + by apply NoDup_list_prod.
  - rewrite (indexed_component_size _ _ _ Hcp).
    + by rewrite length_prod, length_fmap.
    + by apply NoDup_list_prod.
Qed.

Lemma chp_constraints_witness :
  let m := final_model
             (opt_model entities_dict example_edges example_timesteps true) in
  (∀ e t power heat,
     e ∈ ent_s_chps entities_dict → t ∈ example_timesteps →
     outputs e = [power; heat] →
     ∃ i body_eta body_pth,
       inputs e !! 0%nat = Some i
       ∧ s_chp_eta_constr m !! (uid e, t) = Some (EqTuple body_eta (Num 0))
       ∧ s_chp_pth_constr m !! (uid e, t) = Some (EqTuple body_pth (Num 0))
       ∧ (∀ ρ, (eval ρ body_eta
                == ρ (W (uid i) (uid e) t)
                   - (ρ (W (uid e) (uid power) t)
                      + ρ (W (uid e) (uid heat) t)) / 0.8)%Q)
       ∧ (∀ ρ, (eval ρ body_pth
                == ρ (W (uid e) (uid power) t)
                   - ρ (W (uid e) (uid heat) t) * 0.6)%Q))
  ∧ size (s_chp_eta_constr m) = 6%nat
  ∧ size (s_chp_pth_constr m) = 6%nat.
Proof.
  apply (chp_constraints entities_dict example_edges example_timesteps true).
  - apply is_returned_final. vm_compute. reflexivity.
  - apply (bool_decide_unpack _). vm_compute. exact I.
  - apply (bool_decide_unpack _). vm_compute. exact I.
Defined.

(** ** Objective *)

Lemma obj_rule_Ok entities E T inv m :
  declared entities E T inv m →
  obj_rule m
  = Ok (Add (Num 0) (py_sum (indexed_flow_terms (list_prod E T)))).
Proof.
  intros Hm. unfold obj_rule.
  rewrite (dcl_edges _ _ _ _ _ Hm), (dcl_timesteps _ _ _ _ _ Hm).
  rewrite (mapM_Ok_fmap _ (λ ijt : edge * Z, Var (W ijt.1.1 ijt.1.2 ijt.2)));
    [reflexivity|].
  intros [[i j] t] [Hij Ht]%elem_of_list_prod.
  by apply (declared_w_getitem Hm).
Qed.

(** C9: the objective of the returned model is [0] plus the [sum] of the
    references [w[i,j,t]] over all edges and, for each edge, all
    timesteps; under every valuation its value is the sum of the values of
    these variables, each with coefficient 1. *)
Theorem objective_is_total_flow entities E T inv m :
  opt_model entities E T inv = Returned m →
  ∃ obj,
    objective m = Some obj
    ∧ obj = Add (Num 0) (py_sum (indexed_flow_terms (list_prod E T)))
    ∧ ∀ ρ, (eval ρ obj
            == Qsum ((λ ijt : edge * Z, 1 * ρ (W ijt.1.1 ijt.1.2 ijt.2))
                       <$> list_prod E T))%Q.
Proof.
  intros Hm%opt_model_Returned.
  destruct (asm_objective _ _ _ _ _ Hm) as (obj & Hrule & Hobj).
  rewrite (obj_rule_Ok _ _ _ _ _ (assembled_declared _ _ _ _ _ Hm)) in Hrule.
  injection Hrule as <-.
  exists (Add (Num 0) (py_sum (indexed_flow_terms (list_prod E T)))).
  split; [exact Hobj|]. split; [reflexivity|].
  intros ρ. cbn [eval]. rewrite eval_py_sum. unfold indexed_flow_terms.
  rewrite <- list_fmap_compose. clear Hobj.
  induction (list_prod E T) as [|ijt l IH]; cbn [fmap list_fmap Qsum].
  - ring.
  - cbn [fmap list_fmap Qsum] in IH. rewrite <- IH.
    unfold compose. cbn [eval]. ring.
Qed.

Lemma objective_is_total_flow_witness :
  let m := final_model
             (opt_model entities_dict example_edges example_timesteps false) in
  ∃ obj,
    objective m = Some obj
    ∧ obj = Add (Num 0)
                (py_sum (indexed_flow_terms
                           (list_prod example_edges example_timesteps)))
    ∧ ∀ ρ, (eval ρ obj
            == Qsum ((λ ijt : edge * Z, 1 * ρ (W ijt.1.1 ijt.1.2 ijt.2))
                       <$> list_prod example_edges example_timesteps))%Q.
Proof.
  apply (objective_is_total_flow entities_dict example_edges
           example_timesteps false).
  apply is_returned_final. vm_compute. reflexivity.
Defined.

(** ** Bounds of the flow variables and investment *)

Lemma w_bound_investment_inv entities E T inv m i j t c :
  declared entities E T inv m →
  w_bound_investment m ((i, j), t) = Ok c →
  c = LeExpr (Var (W i j t)) (Add (Num 100) (Var (W_add i j)))
  ∧ w_max m !! (i, j) = Some 100%Q.
Proof.
  intros Hm. unfold w_bound_investment.
  destruct (w_getitem m i j t) as [wijt|] eqn:Hw; [|discriminate].
  apply w_getitem_inv in Hw as [-> _]. cbn [mbind result_bind].
  unfold getitem at 1.
  destruct (w_max m !! (i, j)) as [cap|] eqn:Hcap; [|discriminate].
  apply (declared_w_max Hm) in Hcap as [-> _]. cbn [mbind result_bind].
  unfold w_add_getitem. destruct (w_add m) as [d|]; [|discriminate].
  unfold getitem. destruct (d !! (i, j)); [|discriminate].
  by intros [= <-].
Qed.

(** C5: with the investment flag set, the returned model holds for every
    edge [(i, j)] of a simple transformer and every timestep [t] the
    constraint [w[i,j,t] <= w_max[i,j] + w_add[i,j]], the capacity
    [w_max[i,j]] being 100; it holds no such constraint for an edge that is
    not an edge of a simple transformer, and no flow variable has a
    declared upper bound. *)
Theorem investment_capacity_constraints entities E T m :
  opt_model entities E T true = Returned m →
  (∀ i j t, (i, j) ∈ get_edges (ent_s_transformers entities) → t ∈ T →
     w_max m !! (i, j) = Some 100%Q
     ∧ ∃ c, s_transformer_w_max m !! ((i, j), t) = Some c
            ∧ c = LeExpr (Var (W i j t)) (Add (Num 100) (Var (W_add i j)))
            ∧ ∀ ρ, holds ρ c ↔ (ρ (W i j t) <= 100 + ρ (W_add i j))%Q)
  ∧ (∀ i j t, (i, j) ∉ get_edges (ent_s_transformers entities) →
       s_transformer_w_max m !! ((i, j), t) = None)
  ∧ (∀ i j t v, w m !! ((i, j), t) = Some v → upper_bound v = None).
Proof.
  intros Hm%opt_model_Returned.
  pose proof (assembled_declared _ _ _ _ _ Hm) as Hd.
  destruct (asm_w_bound _ _ _ _ _ Hm) as [Hee Htw]. rewrite Hee in Htw.
  apply po_Constraint_Ok in Htw.
  split; [|split].
  - intros i j t Hij Ht.
    destruct (indexed_component_elem _ _ _ ((i, j), t) Htw)
      as (c & Hc & Hlook); [by apply elem_of_list_prod|].
    apply (w_bound_investment_inv _ _ _ _ _ _ _ _ _ Hd) in Hc as [-> Hcap].
    split; [exact Hcap|]. eexists. split; [exact Hlook|].
    split; [reflexivity|]. intros ρ. reflexivity.
  - intros i j t Hij.
    apply (indexed_component_lookup_None _ _ _ _ Htw).
    rewrite elem_of_list_prod. by intros [? _].
  - intros i j t v Hv. by apply (declared_w Hd) in Hv as [_ ->].
Qed.

Lemma investment_capacity_constraints_witness :
  let m := final_model
             (opt_model entities_dict example_edges example_timesteps true) in
  (∀ i j t, (i, j) ∈ get_edges (ent_s_transformers entities_dict) →
     t ∈ example_timesteps →
     w_max m !! (i, j) = Some 100%Q
     ∧ ∃ c, s_transformer_w_max m !! ((i, j), t) = Some c
            ∧ c = LeExpr (Var (W i j t)) (Add (Num 100) (Var (W_add i j)))
            ∧ ∀ ρ, holds ρ c ↔ (ρ (W i j t) <= 100 + ρ (W_add i j))%Q)
  ∧ (∀ i j t, (i, j) ∉ get_edges (ent_s_transformers entities_dict) →
       s_transformer_w_max m !! ((i, j), t) = None)
  ∧ (∀ i j t v, w m !! ((i, j), t) = Some v → upper_bound v = None).
Proof.
  apply (investment_capacity_constraints entities_dict example_edges
           example_timesteps).
  apply is_returned_final. vm_compute. reflexivity.
Defined.

(** C4, as the code has it: without investment every flow variable
    [w[edge,t]] is declared with the bounds [(0, 100)], the capacity being
    the constant 100 for every edge (the builder takes no capacities from
    its caller), and no variable [w_add] exists; with investment every flow
    variable is non-negative with no upper bound and one variable
    [w_add[edge]], non-negative with no upper bound, is declared for every
    edge. *)
Theorem flow_variable_bounds entities E T inv m :
  opt_model entities E T inv = Returned m →
  (∀ i j t, (i, j) ∈ E → t ∈ T →
     ∃ v, w m !! ((i, j), t) = Some v
          ∧ within v = NonNegativeReals
          ∧ lower_bound v = 0%Q
          ∧ upper_bound v = if inv then None else Some 100%Q)
  ∧ (if inv then
       ∃ d, w_add m = Some d
            ∧ ∀ i j, (i, j) ∈ E →
                ∃ v, d !! (i, j) = Some v
                     ∧ within v = NonNegativeReals
                     ∧ lower_bound v = 0%Q
                     ∧ upper_bound v = None
     else w_add m = None).
Proof.
  intros Hm%opt_model_Returned.
  pose proof (assembled_declared _ _ _ _ _ Hm) as Hd.
  split.
  - intros i j t Hij Ht. eexists. split.
    + by apply (declared_w Hd).
    + by destruct inv.
  - pose proof (dcl_w_add _ _ _ _ _ Hd) as Hadd.
    destruct inv; [|exact Hadd].
    destruct Hadd as (d & Hd' & Hwadd). exists d. split; [exact Hwadd|].
    intros i j Hij. unfold po_Var, var_rule in Hd'.
    destruct (indexed_component_elem _ _ _ (i, j) Hd' Hij) as (v & Hv & Hl).
    injection Hv as <-. by exists (mkVarData NonNegativeReals None).
Qed.

Lemma flow_variable_bounds_witness :
  let m := final_model
             (opt_model entities_dict example_edges example_timesteps true) in
  (∀ i j t, (i, j) ∈ example_edges → t ∈ example_timesteps →
     ∃ v, w m !! ((i, j), t) = Some v
          ∧ within v = NonNegativeReals
          ∧ lower_bound v = 0%Q
          ∧ upper_bound v = None)
  ∧ ∃ d, w_add m = Some d
         ∧ ∀ i j, (i, j) ∈ example_edges →
             ∃ v, d !! (i, j) = Some v
                  ∧ within v = NonNegativeReals
                  ∧ lower_bound v = 0%Q
                  ∧ upper_bound v = None.
Proof.
  apply (flow_variable_bounds entities_dict example_edges example_timesteps
           true).
  apply is_returned_final. vm_compute. reflexivity.
Defined.

(** C4, as the specification words it, fails: a capacity of 50 supplied by
    the caller for the edge [("b1", "t0")] does not reach the bound of the
    flow variable on that edge, which stays 100. *)
Lemma caller_capacities_counterexample :
  let capacities : gmap edge Q := {[ ("b1", "t0")%string := 50%Q ]} in
  let m := final_model
             (opt_model entities_dict example_edges example_timesteps false) in
  opt_model entities_dict example_edges example_timesteps false = Returned m
  ∧ ("b1", "t0")%string ∈ example_edges
  ∧ spec_capacity capacities ("b1", "t0")%string = 50%Q
  ∧ ¬ (∃ v, w m !! (("b1", "t0")%string, 0%Z) = Some v
            ∧ upper_bound v
              = Some (spec_capacity capacities ("b1", "t0")%string)).
Proof.
  split; [|split; [|split]].
  - apply is_returned_final. vm_compute. reflexivity.
  - apply (bool_decide_unpack _). vm_compute. exact I.
  - vm_compute. reflexivity.
  - intros (v & Hv & Hub).
    assert (upper_bound
              <$> w (final_model (opt_model entities_dict example_edges
                                            example_timesteps false))
                  !! (("b1", "t0")%string, 0%Z)
            = Some (Some 100%Q)) as Hcode by (vm_compute; reflexivity).
    rewrite Hv in Hcode. cbn in Hcode. rewrite Hub in Hcode.
    vm_compute in Hcode. discriminate Hcode.
Qed.

(** ** Solving *)

(** C8, as the code has it: [solve_opt_model] returns the instance with
    the results loaded whenever its steps succeed ([model.create()], the
    write of the problem file when debugging, [SolverFactory], the lookup
    [options['stream']], the solve and the load), whatever status the
    results carry; it never reads the status. *)
Theorem solve_returns_whatever_status {Instance Solver Results}
    (B : Backend Instance Solver Results) (model : Model) (solver : string)
    (options : gmap string bool) (debug : bool) (instance : Instance)
    (opt : Solver) (tee : bool) (results : Results) (loaded : Instance) :
  create B model = Ok instance →
  (debug = true → write B instance "problem.lp" true = Ok ()) →
  factory B solver "lp" = Ok opt →
  options !! "stream"%string = Some tee →
  solve B opt instance tee = Ok results →
  load B instance results = Ok loaded →
  ∀ s, status B results = s →
    solve_opt_model B model solver options debug = Ok loaded.
Proof.
  intros Hcreate Hwrite Hfactory Hstream Hsolve Hload s _.
  unfold solve_opt_model. rewrite Hcreate. cbn [mbind result_bind].
  assert ((if debug then write B instance "problem.lp" true
           else mret ()) = Ok ()) as ->.
  { destruct debug; [by apply Hwrite | reflexivity]. }
  cbn [mbind result_bind]. rewrite Hfactory. cbn [mbind result_bind].
  rewrite (getitem_Some _ _ _ Hstream).
  cbn [mbind result_bind]. rewrite Hsolve. cbn [mbind result_bind].
  by rewrite Hload.
Qed.

Lemma solve_returns_whatever_status_witness :
  solve_opt_model infeasible_backend
    (new_model entities_dict example_edges example_timesteps false)
    default_solver default_options true
  = Ok (new_model entities_dict example_edges example_timesteps false).
Proof.
  apply (solve_returns_whatever_status infeasible_backend _ default_solver
           default_options true
           (new_model entities_dict example_edges example_timesteps false)
           default_solver false infeasible _) with (s := infeasible).
  - reflexivity.
  - reflexivity.
  - reflexivity.
  - vm_compute. reflexivity.
  - reflexivity.
  - reflexivity.
  - reflexivity.
Defined.

(** C8, as the specification words it, fails: with a solver that reports
    [infeasible], [solve_opt_model] with its default arguments returns the
    instance as its normal result and raises nothing. *)
Lemma infeasible_returned_counterexample :
  let model := new_model entities_dict example_edges example_timesteps false in
  solve_opt_model infeasible_backend model default_solver default_options
                  default_debug = Ok model
  ∧ ¬ surfaces_solver_status infeasible_backend model default_solver
        default_options default_debug.
Proof.
  split; [reflexivity|].
  intros Hclaim.
  destruct (Hclaim (new_model entities_dict example_edges example_timesteps
                              false)
                   default_solver false infeasible "InfeasibleModel"%string)
    as (e & He & _);
    [reflexivity | reflexivity | vm_compute; reflexivity | reflexivity..|].
  discriminate He.
Qed.

(** ** The first steps of the builder never fail *)

Lemma default_capacity_lookup (E : list edge) (i j : string) :
  (i, j) ∈ E →
  py_dict (zip E (replicate (length E) 100%Q)) !! (i, j) = Some 100%Q.
Proof.
  intros Hin.
  destruct (py_dict (zip E (replicate (length E) 100%Q)) !! (i, j))
    as [cap|] eqn:Hcap.
  - apply py_dict_lookup_Some in Hcap.
    by apply elem_of_zip_r, elem_of_replicate_inv in Hcap as ->.
  - apply py_dict_lookup_None in Hcap.
    rewrite fst_zip in Hcap; [done|]. by rewrite length_replicate.
Qed.

Lemma declared_env entities E T inv m m' :
  declared entities E T inv m →
  invest m' = invest m → timesteps m' = timesteps m → edges m' = edges m →
  buses m' = buses m → s_transformers m' = s_transformers m →
  s_chps m' = s_chps m → w_max m' = w_max m → w m' = w m →
  w_add m' = w_add m →
  declared entities E T inv m'.
Proof.
  intros [] Hinv HT HE Hb Hst Hsc Hmax Hw Hadd.
  split; try congruence.
  - rewrite (w_max_rule_env m' m Hmax), Hw. assumption.
  - by rewrite Hadd.
Qed.

Lemma declare_variables_new_model entities E T inv :
  ∃ m1, declare_variables (new_model entities E T inv) = Returned m1
        ∧ declared entities E T inv m1
        ∧ no_constraints m1.
Proof.
  unfold declare_variables. cbn [invest new_model]. destruct inv.
  - destruct (indexed_component_total (list_prod E T)
                (λ _, b ← mret None; mret (mkVarData NonNegativeReals b)))
      as [wv Hwv]; [by eexists|].
    destruct (indexed_component_total E
                (λ _, b ← mret None; mret (mkVarData NonNegativeReals b)))
      as [wadd Hwadd]; [by eexists|].
    exists (set_w_add wadd (set_w wv (new_model entities E T true))).
    split; [|split].
    + unfold and_then, attach, var_rule. fields.
      rewrite Hwv. fields. by rewrite Hwadd.
    + split; try (fields; reflexivity).
      * exact Hwv.
      * by exists wadd.
    + by repeat split.
  - destruct (indexed_component_total (list_prod E T)
                (λ k, b ← Some <$> w_max_rule
                                     (new_model entities E T false) k;
                      mret (mkVarData NonNegativeReals b)))
      as [wv Hwv].
    { intros [[i j] t] [Hij _]%elem_of_list_prod.
      unfold w_max_rule, getitem. cbn [w_max new_model].
      rewrite (default_capacity_lookup _ _ _ Hij). by eexists. }
    exists (set_w wv (new_model entities E T false)).
    split; [|split].
    + unfold attach, var_rule. fields. by rewrite Hwv.
    + split; try (fields; reflexivity).
      rewrite (w_max_rule_env _ (new_model entities E T false)) by reflexivity.
      exact Hwv.
    + by repeat split.
Qed.

(** The bus balance is built when every bus has an edge; a bus without
    one stops it with [InvalidConstraintError], as soon as there is a
    timestep. *)
Lemma bus_constr_total entities E T inv m :
  declared entities E T inv m →
  (T ≠ [] → ∀ b, b ∈ ent_buses entities → touched (uid b) E) →
  ∃ bc, po_Constraint (list_prod (buses m) (timesteps m)) (bus_rule m) = Ok bc.
Proof.
  intros Hd Htouched. apply po_Constraint_total.
  intros [e t] [He Ht]%elem_of_list_prod.
  rewrite (dcl_timesteps _ _ _ _ _ Hd) in Ht.
  rewrite (dcl_buses _ _ _ _ _ Hd) in He.
  apply list_elem_of_fmap in He as (b & -> & Hb).
  eexists. split; [by apply (bus_rule_Ok Hd)|].
  apply bus_constraint_vars, Htouched; [|done].
  intros ->. by apply elem_of_nil in Ht.
Qed.

Lemma bus_constr_Raise entities E T inv m e :
  declared entities E T inv m →
  po_Constraint (list_prod (buses m) (timesteps m)) (bus_rule m) = Raise e →
  e = InvalidConstraintError
  ∧ T ≠ [] ∧ ∃ b, b ∈ ent_buses entities ∧ ¬ touched (uid b) E.
Proof.
  intros Hd ([k t] & [Hk Ht]%elem_of_list_prod & Hr)%po_Constraint_Raise.
  rewrite (dcl_timesteps _ _ _ _ _ Hd) in Ht.
  rewrite (dcl_buses _ _ _ _ _ Hd) in Hk.
  apply list_elem_of_fmap in Hk as (b & -> & Hb).
  rewrite (bus_rule_Ok Hd _ _ Ht) in Hr.
  destruct Hr as [Hr|(c & [= <-] & Hv & ->)]; [discriminate|].
  split; [reflexivity|]. split.
  { intros ->. by apply elem_of_nil in Ht. }
  exists b. split; [done|]. intros Hb'%(bus_constraint_vars _ t). done.
Qed.

Lemma bus_constr_touched entities E T inv m bc :
  declared entities E T inv m →
  po_Constraint (list_prod (buses m) (timesteps m)) (bus_rule m) = Ok bc →
  T ≠ [] → ∀ b, b ∈ ent_buses entities → touched (uid b) E.
Proof.
  intros Hd Hbc HT b Hb. destruct T as [|t T'] eqn:HeqT; [done|].
  assert (t ∈ T) as Ht by (rewrite HeqT; apply list_elem_of_here).
  rewrite <- HeqT in *. clear HeqT.
  destruct (indexed_component_elem _ _ _ (uid b, t) (po_Constraint_Ok _ _ _ Hbc))
    as (c & Hc & Hlook).
  { apply elem_of_list_prod.
    rewrite (dcl_buses _ _ _ _ _ Hd), (dcl_timesteps _ _ _ _ _ Hd).
    split; [by apply list_elem_of_fmap_2 | done]. }
  rewrite (bus_rule_Ok Hd _ _ Ht) in Hc. injection Hc as <-.
  apply (po_Constraint_accepted _ _ _ _ _ Hbc) in Hlook.
  by apply as_constraint_EqTuple, bus_constraint_vars in Hlook.
Qed.

(** ** Which exceptions the CHP constraints can raise *)

Lemma bind_Raise {A B} (r : result A) (f : A → result B) (e : exn) :
  r ≫= f = Raise e → r = Raise e ∨ ∃ a, r = Ok a ∧ f a = Raise e.
Proof.
  destruct r as [a|e']; intros Hr.
  - right. exists a. split; [reflexivity | exact Hr].
  - left. by injection Hr as ->.
Qed.

Lemma getitem_Raise `{Countable K} {V} (d : gmap K V) (k : K) (e : exn) :
  getitem d k = Raise e → e = KeyError.
Proof. unfold getitem. destruct (d !! k); [discriminate | by intros [= <-]]. Qed.

Lemma py_index_Raise {A} (l : list A) (n : nat) (e : exn) :
  py_index l n = Raise e → e = IndexError.
Proof.
  unfold py_index. destruct (l !! n); [discriminate | by intros [= <-]].
Qed.

Lemma chp_eta_rule_Raise I_ O_ m k e :
  chp_eta_rule I_ O_ m k = Raise e → e = KeyError.
Proof.
  destruct k as [c t]. unfold chp_eta_rule.
  intros [Hr|(i & _ & [Hr|(win & _ & [Hr|(os & _ & [Hr|(wouts & _ & Hr)
    ]%bind_Raise)]%bind_Raise)]%bind_Raise)]%bind_Raise.
  - by apply getitem_Raise in Hr.
  - by apply w_getitem_Raise in Hr.
  - by apply getitem_Raise in Hr.
  - apply mapM_Raise_elem in Hr as (o & _ & Hr).
    by apply w_getitem_Raise in Hr.
  - discriminate Hr.
Qed.

Lemma power_to_heat_rule_Raise O_ m k e :
  power_to_heat_rule O_ m k = Raise e → e = IndexError ∨ e = KeyError.
Proof.
  destruct k as [c t]. unfold power_to_heat_rule.
  intros [Hr|(os & _ & [Hr|(power & _ & [Hr|(wpower & _ & [Hr|(os' & _
    & [Hr|(heat & _ & [Hr|(wheat & _ & Hr)]%bind_Raise)]%bind_Raise
    )]%bind_Raise)]%bind_Raise)]%bind_Raise)]%bind_Raise.
  - right. by apply getitem_Raise in Hr.
  - left. by apply py_index_Raise in Hr.
  - right. by apply w_getitem_Raise in Hr.
  - right. by apply getitem_Raise in Hr.
  - left. by apply py_index_Raise in Hr.
  - right. by apply w_getitem_Raise in Hr.
  - discriminate Hr.
Qed.

(** The constraints of the CHP and transformer rules all mention a
    variable, so the library accepts them. *)
Lemma chp_eta_rule_vars I_ O_ m k c :
  chp_eta_rule I_ O_ m k = Ok c → constraint_vars c ≠ [].
Proof.
  destruct k as [e t]. unfold chp_eta_rule.
  intros (i & _ & (win & [-> _]%w_getitem_inv & (os & _
          & (wouts & _ & [= <-])%bind_Ok)%bind_Ok)%bind_Ok)%bind_Ok.
  done.
Qed.

Lemma power_to_heat_rule_vars O_ m k c :
  power_to_heat_rule O_ m k = Ok c → constraint_vars c ≠ [].
Proof.
  destruct k as [e t]. unfold power_to_heat_rule.
  intros (os & _ & (power & _ & (wp & [-> _]%w_getitem_inv & (os' & _
          & (heat & _ & (wh & _ & [= <-])%bind_Ok)%bind_Ok)%bind_Ok
          )%bind_Ok)%bind_Ok)%bind_Ok.
  done.
Qed.

Lemma transformer_eta_rule_vars I_ O_ etas m k c :
  transformer_eta_rule I_ O_ etas m k = Ok c → constraint_vars c ≠ [].
Proof.
  destruct k as [e t]. unfold transformer_eta_rule.
  intros (i & _ & (win & [-> _]%w_getitem_inv & (η & _ & (o & _
          & (wout & _ & [= <-])%bind_Ok)%bind_Ok)%bind_Ok)%bind_Ok)%bind_Ok.
  done.
Qed.

Lemma w_bound_investment_vars m k c :
  w_bound_investment m k = Ok c → constraint_vars c ≠ [].
Proof.
  destruct k as [[i j] t]. unfold w_bound_investment.
  intros (wijt & [-> _]%w_getitem_inv & (cap & _
          & (wadd & _ & [= <-])%bind_Ok)%bind_Ok)%bind_Ok.
  done.
Qed.

(** So a constraint component of theirs fails only where the rule itself
    raises. *)
Lemma po_Constraint_Raise_rule `{Countable K} (index : list K)
    (rule : K → result constraint) (e : exn) :
  (∀ k c, rule k = Ok c → constraint_vars c ≠ []) →
  po_Constraint index rule = Raise e →
  ∃ k, k ∈ index ∧ rule k = Raise e.
Proof.
  intros Hvars (k & Hk & [Hr|(c & Hc & Hv & _)])%po_Constraint_Raise.
  - by exists k.
  - by apply Hvars in Hc.
Qed.

Lemma constraint_rule_total `{Countable K} (index : list K)
    (rule : K → result constraint) :
  (∀ k, k ∈ index → ∃ c, rule k = Ok c) →
  (∀ k c, rule k = Ok c → constraint_vars c ≠ []) →
  ∃ d, indexed_component index (constraint_rule rule) = Ok d.
Proof.
  intros Hall Hvars. apply (po_Constraint_total index rule).
  intros k [c Hc]%Hall. exists c. split; [done|]. by apply Hvars in Hc.
Qed.

Lemma simple_chp_model_Raised entities m e partial :
  simple_chp_model entities m = Raised e partial →
  (e = IndexError ∨ e = KeyError) ∧ bus_constr partial = bus_constr m.
Proof.
  unfold simple_chp_model.
  destruct (dict_comprehension _ _ _ ≫= _) as [[I_ O_]|e'] eqn:Hd.
  - unfold and_then, attach.
    destruct (indexed_component _ (constraint_rule (chp_eta_rule I_ O_ m)))
      as [ce|e1] eqn:Hce.
    + destruct (indexed_component _
                  (constraint_rule (power_to_heat_rule O_ _)))
        as [cp|e2] eqn:Hcp; [discriminate|].
      intros [= <- <-]. split; [|reflexivity].
      apply po_Constraint_Raise_rule in Hcp as (k & _ & Hk);
        [|apply power_to_heat_rule_vars].
      by apply power_to_heat_rule_Raise in Hk.
    + intros [= <- <-]. split; [|reflexivity]. right.
      apply po_Constraint_Raise_rule in Hce as (k & _ & Hk);
        [|apply chp_eta_rule_vars].
      by apply chp_eta_rule_Raise in Hk.
  - intros [= <- <-]. split; [|reflexivity]. left.
    apply bind_Raise in Hd as [Hr|(I_ & _ & [Hr|(O_ & _ & Hr)]%bind_Raise)].
    + apply dict_comprehension_Raise in Hr as (c & _ & Hr).
      unfold fmap, result_fmap in Hr.
      destruct (py_index (inputs c) 0) eqn:Hi; [discriminate|].
      injection Hr as <-. by apply py_index_Raise in Hi.
    + apply dict_comprehension_Raise in Hr as (c & _ & Hr). discriminate Hr.
    + discriminate Hr.
Qed.

(** A CHP with a single output stops [simple_chp_model] as soon as there
    is a timestep to build its power-to-heat constraint for. *)
Lemma simple_chp_model_one_output entities m m' c :
  c ∈ ent_s_chps entities → length (outputs c) = 1%nat →
  NoDup (uid <$> ent_s_chps entities) →
  s_chps m = uid <$> ent_s_chps entities → timesteps m ≠ [] →
  simple_chp_model entities m ≠ Returned m'.
Proof.
  intros Hc Hlen Hnd Hchps HT
    (I_ & O_ & ce & cp & HI & HO & Hce & Hcp & ->)%simple_chp_model_Returned.
  destruct (timesteps m) as [|t0 T'] eqn:Ht; [done|].
  apply po_Constraint_Ok in Hcp.
  destruct (indexed_component_elem _ _ _ (uid c, t0) Hcp) as (v & Hv & _).
  { apply elem_of_list_prod. split; [|by left].
    rewrite Hchps. by apply list_elem_of_fmap_2. }
  destruct (dict_comprehension_lookup_NoDup _ _ _ _ _ HO Hnd Hc)
    as (os & [= <-] & HOc).
  destruct (outputs c) as [|o [|o' outs]]; try discriminate Hlen.
  unfold power_to_heat_rule, py_index in Hv.
  rewrite (getitem_Some _ _ _ HOc) in Hv. cbn [mbind result_bind] in Hv.
  cbn in Hv. destruct (w_getitem _ _ _ _); discriminate Hv.
Qed.

(** C7, as the code has it: a CHP declared with only one output (the CHPs
    having distinct ids), with at least one timestep, makes [opt_model]
    raise instead of returning a model, and never [ConfigurationError]. The
    exception is the library's [InvalidConstraintError] when the bus
    balance meets a bus that no edge touches; otherwise, every bus having
    an edge, it is the built-in [IndexError] or [KeyError], raised from
    within [simple_chp_model], when the bus balance constraint of every
    bus and timestep has already been generated. *)
Theorem one_output_chp_raises entities E T inv c :
  c ∈ ent_s_chps entities →
  length (outputs c) = 1%nat →
  NoDup (uid <$> ent_s_chps entities) →
  T ≠ [] →
  ∃ e partial,
    opt_model entities E T inv = Raised e partial
    ∧ exn_name e ≠ "ConfigurationError"%string
    ∧ ((e = InvalidConstraintError
        ∧ ∃ b, b ∈ ent_buses entities ∧ ¬ touched (uid b) E)
       ∨ ((e = IndexError ∨ e = KeyError)
          ∧ (∀ b, b ∈ ent_buses entities → touched (uid b) E)
          ∧ ∀ b t, b ∈ ent_buses entities → t ∈ T →
              is_Some (bus_constr partial !! (uid b, t)))).
Proof.
  intros Hc Hlen Hnd HT. unfold opt_model, add_components.
  destruct (declare_variables_new_model entities E T inv)
    as (m1 & -> & Hd & _).
  cbn [and_then]. unfold attach at 1.
  destruct (indexed_component _ (constraint_rule (bus_rule m1)))
    as [bc|e] eqn:Hbc.
  - cbn [and_then].
    destruct (simple_chp_model entities (set_bus_constr bc m1))
      as [m3|e partial] eqn:Hchp.
    + exfalso. revert Hchp. apply (simple_chp_model_one_output _ _ _ c);
        try assumption.
      * apply (dcl_s_chps _ _ _ _ _ Hd).
      * cbn [timesteps set_bus_constr].
        by rewrite (dcl_timesteps _ _ _ _ _ Hd).
    + cbn [and_then]. exists e, partial.
      apply simple_chp_model_Raised in Hchp as [He Hbus].
      split; [reflexivity|]. split; [by destruct He as [-> | ->]|].
      right. split; [exact He|]. split.
      { by apply (bus_constr_touched _ _ _ _ _ bc Hd). }
      intros b t Hb Ht. rewrite Hbus. cbn [bus_constr set_bus_constr].
      destruct (indexed_component_elem _ _ _ (uid b, t) Hbc)
        as (v & _ & Hv); [|by exists v].
      apply elem_of_list_prod.
      rewrite (dcl_buses _ _ _ _ _ Hd), (dcl_timesteps _ _ _ _ _ Hd).
      split; [by apply list_elem_of_fmap_2 | done].
  - cbn [and_then]. eexists _, _. split; [reflexivity|].
    apply (bus_constr_Raise _ _ _ _ _ _ Hd) in Hbc as (-> & _ & Hb).
    split; [discriminate|]. by left.
Qed.

Lemma one_output_chp_raises_witness :
  ∃ e partial,
    opt_model one_output_entities one_output_edges example_timesteps false
    = Raised e partial
    ∧ exn_name e ≠ "ConfigurationError"%string
    ∧ ((e = InvalidConstraintError
        ∧ ∃ b, b ∈ ent_buses one_output_entities
               ∧ ¬ touched (uid b) one_output_edges)
       ∨ ((e = IndexError ∨ e = KeyError)
          ∧ (∀ b, b ∈ ent_buses one_output_entities →
               touched (uid b) one_output_edges)
          ∧ ∀ b t, b ∈ ent_buses one_output_entities →
              t ∈ example_timesteps →
              is_Some (bus_constr partial !! (uid b, t)))).
Proof.
  apply (one_output_chp_raises one_output_entities one_output_edges
           example_timesteps false one_output_chp).
  - apply list_elem_of_here.
  - reflexivity.
  - apply (bool_decide_unpack _). vm_compute. exact I.
  - discriminate.
Defined.

(** C7, as the specification words it, fails: with a CHP that has a single
    output, in a network where every bus has an edge, the run ends in
    [IndexError], raised by the power-to-heat rule after the six bus
    balance constraints and the three CHP efficiency constraints have been
    generated; and with no timestep at all the same entities give a model
    and no exception. *)
Lemma one_output_chp_counterexample :
  let o := opt_model one_output_entities one_output_edges example_timesteps
                     false in
  raised_exn o = Some IndexError
  ∧ size (bus_constr (final_model o)) = 6%nat
  ∧ size (s_chp_eta_constr (final_model o)) = 3%nat
  ∧ ¬ fails_fast_with_ConfigurationError o
  ∧ is_returned (opt_model one_output_entities one_output_edges [] false)
    = true.
Proof.
  split; [vm_compute; reflexivity|].
  split; [vm_compute; reflexivity|].
  split; [vm_compute; reflexivity|].
  split; [|vm_compute; reflexivity].
  intros (e & partial & Ho & Hname & _).
  assert (raised_exn (opt_model one_output_entities one_output_edges
                                example_timesteps false) = Some IndexError)
    as Hexn by (vm_compute; reflexivity).
  rewrite Ho in Hexn. injection Hexn as ->. discriminate Hname.
Qed.

(** ** The inputs on which the builder returns a model *)

Lemma elem_of_get_edges (components : list Component) (ij : edge) :
  ij ∈ get_edges components ↔
  ∃ c, c ∈ components ∧ ij ∈ component_edges c.
Proof.
  rewrite get_edges_concat.
  induction components as [|a cs IH]; cbn [fmap list_fmap concat].
  - split; [by intros ?%elem_of_nil|].
    by intros (c & ?%elem_of_nil & _).
  - rewrite elem_of_app, IH. split.
    + intros [Hij|(c & Hc & Hij)].
      * exists a. split; [apply list_elem_of_here | done].
      * exists c. split; [by apply list_elem_of_further | done].
    + intros (c & [->|Hc]%elem_of_cons & Hij); [by left|].
      right. by exists c.
Qed.

Section runs.
Context {entities : Entities} {E : list edge} {T : list Z} {inv : bool}
        (Hro : runs_on entities E T inv)
        (Hnt : T ≠ [] → NoDup (uid <$> ent_s_transformers entities))
        (Hnc : T ≠ [] → NoDup (uid <$> ent_s_chps entities)).

Lemma simple_chp_model_runs m :
  declared entities E T inv m →
  ∃ m', simple_chp_model entities m = Returned m'
        ∧ declared entities E T inv m'.
Proof.
  intros Hd. unfold simple_chp_model.
  destruct (dict_comprehension_total uid
              (λ t, uid <$> py_index (inputs t) 0) (ent_s_chps entities))
    as [I_ HI].
  { intros c Hc. destruct (ro_chps _ _ _ _ Hro c Hc) as [i Hi].
    unfold py_index. rewrite Hi. by eexists. }
  destruct (dict_comprehension_total uid
              (λ t, mret (uid <$> outputs t)) (ent_s_chps entities))
    as [O_ HO]; [by eexists|].
  rewrite HI. cbn [mbind result_bind]. rewrite HO.
  cbn [mbind result_bind mret result_ret].
  assert (∀ e t, (e, t) ∈ list_prod (s_chps m) (timesteps m) →
            ∃ c (i : Bus) power heat rest,
              e = uid c ∧ t ∈ T
              ∧ outputs c = power :: heat :: rest
              ∧ I_ !! e = Some (uid i)
              ∧ O_ !! e = Some (uid <$> outputs c)
              ∧ (uid i, uid c) ∈ E
              ∧ ∀ o, o ∈ outputs c → (uid c, uid o) ∈ E) as Hidx.
  { intros e t [He Ht]%elem_of_list_prod.
    rewrite (dcl_s_chps _ _ _ _ _ Hd) in He.
    rewrite (dcl_timesteps _ _ _ _ _ Hd) in Ht.
    assert (T ≠ []) as HT by (by intros ->; apply elem_of_nil in Ht).
    apply list_elem_of_fmap in He as (c & -> & Hc).
    destruct (dict_comprehension_lookup_NoDup _ _ _ _ _ HI (Hnc HT) Hc)
      as (ui & (i & Hi & ->)%fmap_py_index_Ok & HIc).
    destruct (dict_comprehension_lookup_NoDup _ _ _ _ _ HO (Hnc HT) Hc)
      as (os & [= <-] & HOc).
    destruct (ro_chp_edges _ _ _ _ Hro HT c i Hc Hi) as (Hie & Hlen & Hos).
    destruct (outputs c) as [|power [|heat rest]] eqn:Houts;
      cbn in Hlen; try lia.
    exists c, i, power, heat, rest. by rewrite Houts. }
  destruct (constraint_rule_total
              (list_prod (s_chps m) (timesteps m)) (chp_eta_rule I_ O_ m))
    as [ce Hce]; [|apply chp_eta_rule_vars|].
  { intros [e t] (c & i & power & heat & rest & -> & Ht & Houts
                  & HIc & HOc & Hie & Hos)%Hidx.
    unfold chp_eta_rule.
    rewrite (getitem_Some _ _ _ HIc), (getitem_Some _ _ _ HOc).
    cbn [mbind result_bind].
    rewrite (declared_w_getitem Hd _ _ _ Hie Ht).
    cbn [mbind result_bind].
    rewrite (mapM_Ok_fmap _ (λ o, Var (W (uid c) o t))); [by eexists|].
    intros o (b & -> & Hb)%list_elem_of_fmap.
    apply (declared_w_getitem Hd); [|done]. by apply Hos. }
  unfold and_then, attach. rewrite Hce.
  destruct (constraint_rule_total
              (list_prod (s_chps m) (timesteps m))
              (power_to_heat_rule O_ (set_s_chp_eta_constr ce m)))
    as [cp Hcp]; [|apply power_to_heat_rule_vars|].
  { intros [e t] (c & i & power & heat & rest & -> & Ht & Houts
                  & HIc & HOc & Hie & Hos)%Hidx.
    unfold power_to_heat_rule, py_index.
    rewrite (getitem_Some _ _ _ HOc), Houts. cbn [mbind result_bind].
    cbn [fmap list_fmap lookup list_lookup].
    cbn [mbind result_bind].
    assert (declared entities E T inv (set_s_chp_eta_constr ce m)) as Hd'
      by (by apply (declared_env _ _ _ _ m)).
    rewrite !(declared_w_getitem Hd'); try done; [by eexists|..].
    - apply Hos. rewrite Houts. apply list_elem_of_here.
    - apply Hos. rewrite Houts.
      apply list_elem_of_further, list_elem_of_here. }
  fields. fields_in Hcp. rewrite Hcp. eexists. split; [reflexivity|].
  by apply (declared_env _ _ _ _ m).
Qed.

Lemma simple_transformer_model_runs m :
  declared entities E T inv m →
  ∃ m', simple_transformer_model entities m = Returned m'
        ∧ declared entities E T inv m'.
Proof.
  intros Hd. unfold simple_transformer_model.
  destruct (dict_comprehension_total uid
              (λ t, uid <$> py_index (inputs t) 0)
              (ent_s_transformers entities)) as [I_ HI].
  { intros c Hc. destruct (ro_transformers _ _ _ _ Hro c Hc) as ([i Hi] & _).
    unfold py_index. rewrite Hi. by eexists. }
  destruct (dict_comprehension_total uid
              (λ t, uid <$> py_index (outputs t) 0)
              (ent_s_transformers entities)) as [O_ HO].
  { intros c Hc.
    destruct (ro_transformers _ _ _ _ Hro c Hc) as (_ & [o Ho] & _).
    unfold py_index. rewrite Ho. by eexists. }
  destruct (dict_comprehension_total uid getattr_eta
              (ent_s_transformers entities)) as [etas Heta].
  { intros c Hc.
    destruct (ro_transformers _ _ _ _ Hro c Hc) as (_ & _ & [η Hη]).
    exists η. unfold getattr_eta. by rewrite Hη. }
  rewrite HI. cbn [mbind result_bind]. rewrite HO. cbn [mbind result_bind].
  rewrite Heta. cbn [mbind result_bind mret result_ret].
  destruct (constraint_rule_total
              (list_prod (s_transformers m) (timesteps m))
              (transformer_eta_rule I_ O_ etas m)) as [te Hte];
    [|apply transformer_eta_rule_vars|].
  { intros [e t] [He Ht]%elem_of_list_prod.
    rewrite (dcl_s_transformers _ _ _ _ _ Hd) in He.
    rewrite (dcl_timesteps _ _ _ _ _ Hd) in Ht.
    assert (T ≠ []) as HT by (by intros ->; apply elem_of_nil in Ht).
    apply list_elem_of_fmap in He as (c & -> & Hc).
    destruct (dict_comprehension_lookup_NoDup _ _ _ _ _ HI (Hnt HT) Hc)
      as (ui & (i & Hi & ->)%fmap_py_index_Ok & HIc).
    destruct (dict_comprehension_lookup_NoDup _ _ _ _ _ HO (Hnt HT) Hc)
      as (uo & (o & Ho & ->)%fmap_py_index_Ok & HOc).
    destruct (dict_comprehension_lookup_NoDup _ _ _ _ _ Heta (Hnt HT) Hc)
      as (η & _ & Hηc).
    destruct (ro_transformer_edges _ _ _ _ Hro HT c i o Hc Hi Ho)
      as [Hie Hoe].
    unfold transformer_eta_rule.
    rewrite (getitem_Some _ _ _ HIc), (getitem_Some _ _ _ HOc),
      (getitem_Some _ _ _ Hηc).
    cbn [mbind result_bind].
    rewrite !(declared_w_getitem Hd); try done. by eexists. }
  unfold and_then, attach. rewrite Hte.
  assert (declared entities E T inv (set_s_transformer_eta_constr te m))
    as Hd1 by (by apply (declared_env _ _ _ _ m)).
  change (invest (set_s_transformer_eta_constr te m)) with (invest m).
  rewrite (dcl_invest _ _ _ _ _ Hd).
  pose proof (dcl_w_add _ _ _ _ _ Hd) as Hadd.
  pose proof (ro_invest _ _ _ _ Hro) as Hedges.
  destruct inv; [|by eexists].
  destruct Hadd as (d & Hdv & Hwadd). cbv zeta.
  set (m1 := set_ee (get_edges (ent_s_transformers entities))
                    (set_s_transformer_eta_constr te m)).
  assert (declared entities E T true m1) as Hd2
    by (by apply (declared_env _ _ _ _ m)).
  destruct (constraint_rule_total (list_prod (ee m1) (timesteps m1))
              (w_bound_investment m1)) as [tw Htw];
    [|apply w_bound_investment_vars|].
  { intros [[i j] t] [Hij Ht]%elem_of_list_prod.
    change (ee m1) with (get_edges (ent_s_transformers entities)) in Hij.
    change (timesteps m1) with (timesteps m) in Ht.
    rewrite (dcl_timesteps _ _ _ _ _ Hd) in Ht.
    assert (T ≠ []) as HT by (by intros ->; apply elem_of_nil in Ht).
    apply elem_of_get_edges in Hij as (c & Hc & Hij).
    apply (Hedges HT eq_refl c Hc) in Hij.
    unfold w_bound_investment, w_add_getitem.
    rewrite (declared_w_getitem Hd2 _ _ _ Hij Ht). cbn [mbind result_bind].
    rewrite (getitem_Some _ _ _ (declared_w_max_elem Hd2 _ _ Hij)).
    cbn [mbind result_bind].
    change (w_add m1) with (w_add m). rewrite Hwadd.
    unfold po_Var, var_rule in Hdv.
    destruct (indexed_component_elem _ _ _ (i, j) Hdv Hij) as (v & _ & Hv).
    rewrite (getitem_Some _ _ _ Hv). by eexists. }
  rewrite Htw. eexists. split; [reflexivity|].
  by apply (declared_env _ _ _ _ m1).
Qed.

(** On such inputs [opt_model] returns a model. *)
Lemma opt_model_runs :
  ∃ m, opt_model entities E T inv = Returned m.
Proof.
  unfold opt_model, add_components.
  destruct (declare_variables_new_model entities E T inv)
    as (m1 & -> & Hd1 & _).
  cbn [and_then].
  destruct (bus_constr_total _ _ _ _ _ Hd1 (ro_buses _ _ _ _ Hro))
    as [bc Hbc].
  unfold attach at 1. unfold po_Constraint in Hbc. rewrite Hbc.
  cbn [and_then].
  assert (declared entities E T inv (set_bus_constr bc m1)) as Hd2
    by (by apply (declared_env _ _ _ _ m1)).
  destruct (simple_chp_model_runs _ Hd2) as (m3 & -> & Hd3).
  cbn [and_then].
  destruct (simple_transformer_model_runs _ Hd3) as (m4 & -> & Hd4).
  cbn [and_then]. unfold objective_model, assign.
  rewrite (obj_rule_Ok _ _ _ _ _ Hd4). by eexists.
Qed.
End runs.

(** A well-formed input is one the builder runs on, whatever the timesteps
    and the investment flag. *)
Lemma well_formed_runs_on entities E T inv :
  well_formed entities E → runs_on entities E T inv.
Proof.
  intros Hwf.
  assert (∀ l : list Bus, l ≠ [] → is_Some (l !! 0%nat)) as Hfirst.
  { intros [|x l] Hl; [done|]. by exists x. }
  assert (∀ c, c ∈ ent_s_transformers entities → component_edges c ⊆ E)
    as Ht.
  { intros c Hc. apply (wf_edges _ _ Hwf). apply elem_of_app. by left. }
  assert (∀ c, c ∈ ent_s_chps entities → component_edges c ⊆ E) as Hc.
  { intros c Hc. apply (wf_edges _ _ Hwf). apply elem_of_app. by right. }
  split.
  - intros c (Hin & Hout & Hη)%(wf_transformers _ _ Hwf). auto.
  - intros c [Hin _]%(wf_chps _ _ Hwf). auto.
  - intros _. apply (wf_buses _ _ Hwf).
  - intros _ c i o Hin Hi Ho. split; apply (Ht c Hin); unfold component_edges;
      apply elem_of_app; [left|right].
    + apply (list_elem_of_fmap_2 (λ i, (uid i, uid c))).
      by apply list_elem_of_lookup_2 in Hi.
    + apply (list_elem_of_fmap_2 (λ o, (uid c, uid o))).
      by apply list_elem_of_lookup_2 in Ho.
  - intros _ c i Hin Hi. destruct (wf_chps _ _ Hwf c Hin) as [_ Hlen].
    split; [|split; [done|]].
    + apply (Hc c Hin). unfold component_edges. apply elem_of_app. left.
      apply (list_elem_of_fmap_2 (λ i, (uid i, uid c))).
      by apply list_elem_of_lookup_2 in Hi.
    + intros o Ho. apply (Hc c Hin). unfold component_edges.
      apply elem_of_app. right.
      by apply (list_elem_of_fmap_2 (λ o, (uid c, uid o))).
  - intros _ _. exact Ht.
Qed.

(** On well-formed inputs [opt_model] returns a model, with either value
    of the investment flag and any list of timesteps. *)
Lemma opt_model_total {entities E T inv} :
  well_formed entities E →
  ∃ m, opt_model entities E T inv = Returned m.
Proof.
  intros Hwf.
  apply (opt_model_runs (well_formed_runs_on _ _ T inv Hwf)).
  - intros _. apply (wf_transformer_ids _ _ Hwf).
  - intros _. apply (wf_chp_ids _ _ Hwf).
Qed.

(** The small network is well-formed, so the builder returns on it. *)
Lemma example_well_formed : well_formed entities_dict example_edges.
Proof.
  assert (example_edges
          = [("b1", "t0"); ("t0", "b2"); ("b1", "t1"); ("t1", "b2");
             ("b1", "c0"); ("c0", "b2"); ("c0", "b3");
             ("b1", "c1"); ("c1", "b2"); ("c1", "b3")]%string) as ->
    by reflexivity.
  split.
  - apply (bool_decide_unpack _). vm_compute. exact I.
  - apply (bool_decide_unpack _). vm_compute. exact I.
  - intros c Hc. cbn in Hc.
    repeat (apply elem_of_cons in Hc as [->|Hc]);
      [..|by apply elem_of_nil in Hc]; cbn; by eauto.
  - intros c Hc. cbn in Hc.
    repeat (apply elem_of_cons in Hc as [->|Hc]);
      [..|by apply elem_of_nil in Hc]; cbn; split; (done || lia).
  - intros c Hc ij Hij. cbn in Hc.
    repeat (apply elem_of_cons in Hc as [->|Hc]);
      [..|by apply elem_of_nil in Hc]; cbn in Hij;
      repeat (apply elem_of_cons in Hij as [->|Hij]);
      try (by apply elem_of_nil in Hij);
      apply (bool_decide_unpack _); vm_compute; exact I.
  - intros b Hb. cbn in Hb.
    repeat (apply elem_of_cons in Hb as [->|Hb]);
      [..|by apply elem_of_nil in Hb].
    + exists ("b1", "t0")%string. split; [apply list_elem_of_here | by left].
    + exists ("t0", "b2")%string.
      split; [apply list_elem_of_further, list_elem_of_here | by right].
    + exists ("c0", "b3")%string. split; [|by right].
      do 6 apply list_elem_of_further. apply list_elem_of_here.
Qed.

(** * Further properties of the builder *)

(** ** What a rule that returned has looked up *)

Lemma mapM_w_getitem_Ok_inv m e t os wouts :
  mapM (λ o, w_getitem m e o t) os = Ok wouts →
  wouts = (λ o, Var (W e o t)) <$> os
  ∧ ∀ o, o ∈ os → is_Some (w m !! ((e, o), t)).
Proof.
  intros Hm. split; [exact (mapM_w_getitem_inv _ _ _ _ _ Hm)|].
  intros o Ho. destruct (mapM_Ok_elem _ _ _ _ Hm Ho) as (y & _ & Hy).
  by apply w_getitem_inv in Hy as [_ ?].
Qed.

Lemma mapM_flow_terms_Ok_inv m t l terms :
  mapM (λ ij : edge, w_getitem m ij.1 ij.2 t) l = Ok terms →
  terms = flow_terms t l
  ∧ ∀ i j, (i, j) ∈ l → is_Some (w m !! ((i, j), t)).
Proof.
  intros Hm. split.
  - apply mapM_Ok_Forall2 in Hm. unfold flow_terms.
    induction Hm as [|ij y l' terms' Hy _ IH]; [reflexivity|].
    apply w_getitem_inv in Hy as [-> _]. by rewrite fmap_cons, IH.
  - intros i j Hij. destruct (mapM_Ok_elem _ _ _ _ Hm Hij) as (y & _ & Hy).
    by apply w_getitem_inv in Hy as [_ ?].
Qed.

Lemma getitem_Ok `{Countable K} {V} (d : gmap K V) (k : K) (v : V) :
  getitem d k = Ok v → d !! k = Some v.
Proof. unfold getitem. destruct (d !! k); [by intros [= ->] | done]. Qed.

Lemma py_index_Ok {A} (l : list A) (n : nat) (x : A) :
  py_index l n = Ok x → l !! n = Some x.
Proof. unfold py_index. destruct (l !! n); [by intros [= ->] | done]. Qed.

Lemma bus_rule_Ok_inv m e t c :
  bus_rule m (e, t) = Ok c →
  c = EqTuple
        (Add (Add (Num 0)
                  (Neg (py_sum (flow_terms t (edges_from e (edges m))))))
             (py_sum (flow_terms t (edges_into e (edges m)))))
        (Num 0)
  ∧ ∀ i j, (i, j) ∈ edges_from e (edges m) ++ edges_into e (edges m) →
      is_Some (w m !! ((i, j), t)).
Proof.
  unfold bus_rule. fold (edges_from e (edges m)) (edges_into e (edges m)).
  intros (outs & [-> Hout]%mapM_flow_terms_Ok_inv
          & (ins & [-> Hin]%mapM_flow_terms_Ok_inv & [= <-])%bind_Ok)%bind_Ok.
  split; [reflexivity|].
  intros i j [Hij|Hij]%elem_of_app; [by apply Hout | by apply Hin].
Qed.

Lemma transformer_eta_rule_Ok_inv I_ O_ etas m e t c :
  transformer_eta_rule I_ O_ etas m (e, t) = Ok c →
  ∃ i o η,
    I_ !! e = Some i ∧ O_ !! e = Some o ∧ etas !! e = Some η
    ∧ is_Some (w m !! ((i, e), t)) ∧ is_Some (w m !! ((e, o), t))
    ∧ c = EqTuple (Add (Add (Num 0) (Mul (Var (W i e t)) (Num η)))
                       (Neg (Var (W e o t))))
                  (Num 0).
Proof.
  unfold transformer_eta_rule.
  intros (i & Hi%getitem_Ok & (win & [-> Hwin]%w_getitem_inv
          & (η & Hη%getitem_Ok & (o & Ho%getitem_Ok
          & (wout & [-> Hwout]%w_getitem_inv & [= <-])%bind_Ok)%bind_Ok
          )%bind_Ok)%bind_Ok)%bind_Ok.
  by exists i, o, η.
Qed.

Lemma chp_eta_rule_Ok_inv I_ O_ m e t c :
  chp_eta_rule I_ O_ m (e, t) = Ok c →
  ∃ i os,
    I_ !! e = Some i ∧ O_ !! e = Some os
    ∧ is_Some (w m !! ((i, e), t))
    ∧ (∀ o, o ∈ os → is_Some (w m !! ((e, o), t)))
    ∧ c = EqTuple
            (Add (Add (Num 0) (Var (W i e t)))
                 (Div (Neg (py_sum ((λ o, Var (W e o t)) <$> os)))
                      (Num 0.8)))
            (Num 0).
Proof.
  unfold chp_eta_rule.
  intros (i & Hi%getitem_Ok & (win & [-> Hwin]%w_getitem_inv
          & (os & Hos%getitem_Ok
          & (wouts & [-> Hwouts]%mapM_w_getitem_Ok_inv & [= <-])%bind_Ok
          )%bind_Ok)%bind_Ok)%bind_Ok.
  by exists i, os.
Qed.

Lemma power_to_heat_rule_Ok_inv O_ m e t c :
  power_to_heat_rule O_ m (e, t) = Ok c →
  ∃ os power heat,
    O_ !! e = Some os ∧ os !! 0%nat = Some power ∧ os !! 1%nat = Some heat
    ∧ is_Some (w m !! ((e, power), t)) ∧ is_Some (w m !! ((e, heat), t))
    ∧ c = EqTuple
            (Add (Add (Num 0) (Var (W e power t)))
                 (Mul (Neg (Var (W e heat t))) (Num 0.6)))
            (Num 0).
Proof.
  unfold power_to_heat_rule.
  intros (os & Hos%getitem_Ok & (power & Hp%py_index_Ok
          & (wp & [-> Hwp]%w_getitem_inv & (os' & Hos'%getitem_Ok
          & (heat & Hh%py_index_Ok & (wh & [-> Hwh]%w_getitem_inv
          & [= <-])%bind_Ok)%bind_Ok)%bind_Ok)%bind_Ok)%bind_Ok)%bind_Ok.
  rewrite Hos in Hos'. injection Hos' as <-. by exists os, power, heat.
Qed.

Lemma w_bound_investment_Ok_inv m i j t c :
  w_bound_investment m ((i, j), t) = Ok c →
  ∃ cap d,
    w_max m !! (i, j) = Some cap
    ∧ is_Some (w m !! ((i, j), t))
    ∧ w_add m = Some d ∧ is_Some (d !! (i, j))
    ∧ c = LeExpr (Var (W i j t)) (Add (Num cap) (Var (W_add i j))).
Proof.
  unfold w_bound_investment, w_add_getitem.
  intros (wijt & [-> Hw]%w_getitem_inv & (cap & Hcap%getitem_Ok
          & (wadd & Hadd & [= <-])%bind_Ok)%bind_Ok)%bind_Ok.
  destruct (w_add m) as [d|]; [|discriminate].
  apply bind_Ok in Hadd as (v & Hv%getitem_Ok & [= <-]).
  exists cap, d. eauto 10.
Qed.

(** ** The entries of the constraint components of a returned model *)

Lemma elem_of_map_values `{Countable K} {V} (d : gmap K V) (v : V) :
  v ∈ (map_to_list d).*2 ↔ ∃ k, d !! k = Some v.
Proof.
  rewrite list_elem_of_fmap. split.
  - intros ([k v'] & -> & Hkv%elem_of_map_to_list). by exists k.
  - intros [k Hk]. exists (k, v). split; [reflexivity|].
    by apply elem_of_map_to_list.
Qed.

Lemma elem_of_model_constraints (m : Model) (c : constraint) :
  c ∈ model_constraints m ↔
  (∃ k, bus_constr m !! k = Some c)
  ∨ (∃ k, s_chp_eta_constr m !! k = Some c)
  ∨ (∃ k, s_chp_pth_constr m !! k = Some c)
  ∨ (∃ k, s_transformer_eta_constr m !! k = Some c)
  ∨ (∃ k, s_transformer_w_max m !! k = Some c).
Proof.
  unfold model_constraints. by rewrite !elem_of_app, !elem_of_map_values.
Qed.

Section returned.
Context {entities : Entities} {E : list edge} {T : list Z} {inv : bool}
        {m : Model} (Hm : assembled entities E T inv m).

Lemma returned_w_inv i j t :
  is_Some (w m !! ((i, j), t)) → (i, j) ∈ E ∧ t ∈ T.
Proof.
  intros [v Hv].
  by apply (declared_w (asm_declared _ _ _ _ _ Hm)) in Hv as [? _].
Qed.

Lemma returned_bus_entry e t c :
  bus_constr m !! (e, t) = Some c →
  e ∈ uid <$> ent_buses entities ∧ t ∈ T
  ∧ c = EqTuple
          (Add (Add (Num 0) (Neg (py_sum (flow_terms t (edges_from e E)))))
               (py_sum (flow_terms t (edges_into e E))))
          (Num 0).
Proof.
  pose proof (asm_declared _ _ _ _ _ Hm) as Hd.
  pose proof (asm_bus_constr _ _ _ _ _ Hm) as Hbc.
  rewrite (dcl_buses _ _ _ _ _ Hd) in Hbc. apply po_Constraint_Ok in Hbc.
  intros [[He Ht]%elem_of_list_prod Hc]%(indexed_component_lookup _ _ _ _ _ Hbc).
  apply bus_rule_Ok_inv in Hc as [-> _].
  by rewrite (dcl_edges _ _ _ _ _ Hd).
Qed.

Lemma returned_transformer_entry e t c :
  s_transformer_eta_constr m !! (e, t) = Some c →
  ∃ i o η,
    (i, e) ∈ E ∧ (e, o) ∈ E ∧ t ∈ T
    ∧ c = EqTuple (Add (Add (Num 0) (Mul (Var (W i e t)) (Num η)))
                       (Neg (Var (W e o t))))
                  (Num 0).
Proof.
  destruct (asm_transformer _ _ _ _ _ Hm)
    as (I_ & O_ & etas & _ & _ & _ & Hte).
  apply po_Constraint_Ok in Hte.
  intros [_ Hc]%(indexed_component_lookup _ _ _ _ _ Hte).
  apply transformer_eta_rule_Ok_inv in Hc
    as (i & o & η & _ & _ & _ & [Hi Ht]%returned_w_inv
        & [Ho _]%returned_w_inv & ->).
  by exists i, o, η.
Qed.

Lemma returned_chp_eta_entry e t c :
  s_chp_eta_constr m !! (e, t) = Some c →
  ∃ i os,
    (i, e) ∈ E ∧ (∀ o, o ∈ os → (e, o) ∈ E) ∧ t ∈ T
    ∧ c = EqTuple
            (Add (Add (Num 0) (Var (W i e t)))
                 (Div (Neg (py_sum ((λ o, Var (W e o t)) <$> os)))
                      (Num 0.8)))
            (Num 0).
Proof.
  destruct (asm_chp _ _ _ _ _ Hm) as (I_ & O_ & _ & _ & Hce & _).
  apply po_Constraint_Ok in Hce.
  intros [_ Hc]%(indexed_component_lookup _ _ _ _ _ Hce).
  apply chp_eta_rule_Ok_inv in Hc
    as (i & os & _ & _ & [Hi Ht]%returned_w_inv & Hos & ->).
  exists i, os. repeat split; try done.
  intros o Ho. by apply Hos, returned_w_inv in Ho as [? _].
Qed.

Lemma returned_chp_pth_entry e t c :
  s_chp_pth_constr m !! (e, t) = Some c →
  ∃ power heat,
    (e, power) ∈ E ∧ (e, heat) ∈ E ∧ t ∈ T
    ∧ c = EqTuple
            (Add (Add (Num 0) (Var (W e power t)))
                 (Mul (Neg (Var (W e heat t))) (Num 0.6)))
            (Num 0).
Proof.
  destruct (asm_chp _ _ _ _ _ Hm) as (I_ & O_ & _ & _ & _ & Hcp).
  apply po_Constraint_Ok in Hcp.
  intros [_ Hc]%(indexed_component_lookup _ _ _ _ _ Hcp).
  apply power_to_heat_rule_Ok_inv in Hc
    as (os & power & heat & _ & _ & _ & [Hp Ht]%returned_w_inv
        & [Hh _]%returned_w_inv & ->).
  by exists power, heat.
Qed.

Lemma returned_w_bound_entry i j t c :
  s_transformer_w_max m !! ((i, j), t) = Some c →
  inv = true ∧ (i, j) ∈ E ∧ t ∈ T
  ∧ (∃ d, w_add m = Some d ∧ is_Some (d !! (i, j)))
  ∧ c = LeExpr (Var (W i j t)) (Add (Num 100) (Var (W_add i j))).
Proof.
  pose proof (asm_declared _ _ _ _ _ Hm) as Hd.
  pose proof (asm_w_bound _ _ _ _ _ Hm) as Htw. intros Hc.
  pose proof returned_w_inv as Hwinv.
  pose proof (declared_w_max Hd) as Hmax.
  destruct inv.
  - destruct Htw as [_ Htw]. apply po_Constraint_Ok in Htw.
    apply (indexed_component_lookup _ _ _ _ _ Htw) in Hc as [_ Hc].
    apply w_bound_investment_Ok_inv in Hc
      as (cap & d & [-> _]%Hmax & [Hij Ht]%Hwinv & Hadd & Hdij & ->).
    repeat split; try done. by exists d.
  - rewrite Htw in Hc. by rewrite lookup_empty in Hc.
Qed.
End returned.

(** ** Sums of rationals and the variables of a sum *)

Lemma Qsum_zero (l : list Q) :
  (∀ x, x ∈ l → (x == 0)%Q) → (Qsum l == 0)%Q.
Proof.
  induction l as [|x l IH]; intros Hall; cbn [Qsum]; [reflexivity|].
  rewrite (Hall x), IH; [ring| |apply list_elem_of_here].
  intros y Hy. by apply Hall, list_elem_of_further.
Qed.

Lemma Qsum_nonneg (l : list Q) :
  (∀ x, x ∈ l → (0 <= x)%Q) → (0 <= Qsum l)%Q.
Proof.
  induction l as [|x l IH]; intros Hall; cbn [Qsum]; [apply Qle_refl|].
  apply (Qplus_le_compat 0 x 0 (Qsum l)).
  - apply Hall, list_elem_of_here.
  - apply IH. intros y Hy. by apply Hall, list_elem_of_further.
Qed.

Lemma eval_sum_of_vars {A} (ρ : valuation) (f : A → var) (l : list A) :
  (eval ρ (py_sum ((λ x, Var (f x)) <$> l)) == Qsum ((λ x, ρ (f x)) <$> l))%Q.
Proof. by rewrite eval_py_sum, <- list_fmap_compose. Qed.

(** ** Invariants of a returned model *)

(** X1: every variable a constraint or the objective of a returned model
    mentions is a declared one: a flow variable [w[i,j,t]] has [(i, j)]
    among the edges handed to the builder and [t] among the timesteps, and
    [w_add[i,j]] only occurs when [w_add] exists and has [(i, j)]. *)
Theorem referenced_variables_are_declared entities E T inv m :
  opt_model entities E T inv = Returned m →
  (∀ c v, c ∈ model_constraints m → v ∈ constraint_vars c →
     declared_var m v)
  ∧ (∀ obj v, objective m = Some obj → v ∈ expr_vars obj →
       declared_var m v)
  ∧ (∀ i j t, declared_var m (W i j t) ↔ (i, j) ∈ E ∧ t ∈ T).
Proof.
  intros Hm%opt_model_Returned.
  pose proof (asm_declared _ _ _ _ _ Hm) as Hd.
  assert (∀ i j t, (i, j) ∈ E → t ∈ T → declared_var m (W i j t)) as Hw.
  { intros i j t Hij Ht. by apply (declared_w_is_Some Hd). }
  split; [|split].
  - intros c v Hc Hv. apply elem_of_model_constraints in Hc
      as [[[e t] Hc]|[[[e t] Hc]|[[[e t] Hc]|[[[e t] Hc]|[[[i j] t] Hc]]]]].
    + apply (returned_bus_entry Hm) in Hc as (_ & Ht & ->).
      cbn [constraint_vars expr_vars] in Hv.
      rewrite !app_nil_l, app_nil_r in Hv. unfold flow_terms in Hv.
      apply elem_of_app in Hv
        as [([i j] & Hij & ->)%(expr_vars_sum_of_vars
                                  (λ ij : edge, W ij.1 ij.2 t))
           |([i j] & Hij & ->)%(expr_vars_sum_of_vars
                                  (λ ij : edge, W ij.1 ij.2 t))].
      * apply Hw; [|done]. unfold edges_from in Hij.
        by apply list_elem_of_filter in Hij as [_ ?].
      * apply Hw; [|done]. unfold edges_into in Hij.
        by apply list_elem_of_filter in Hij as [_ ?].
    + apply (returned_chp_eta_entry Hm) in Hc
        as (i & os & Hi & Hos & Ht & ->).
      cbn [constraint_vars expr_vars] in Hv.
      rewrite !app_nil_l, !app_nil_r in Hv.
      apply elem_of_cons in Hv
        as [->|(o & Ho & ->)%(expr_vars_sum_of_vars (λ o, W e o t))].
      * by apply Hw.
      * apply Hw; [by apply Hos | done].
    + apply (returned_chp_pth_entry Hm) in Hc
        as (power & heat & Hp & Hh & Ht & ->).
      cbn [constraint_vars expr_vars app] in Hv.
      apply elem_of_cons in Hv as [->|Hv]; [by apply Hw|].
      apply elem_of_cons in Hv as [->|Hv]; [by apply Hw|].
      by apply elem_of_nil in Hv.
    + apply (returned_transformer_entry Hm) in Hc
        as (i & o & η & Hi & Ho & Ht & ->).
      cbn [constraint_vars expr_vars app] in Hv.
      apply elem_of_cons in Hv as [->|Hv]; [by apply Hw|].
      apply elem_of_cons in Hv as [->|Hv]; [by apply Hw|].
      by apply elem_of_nil in Hv.
    + apply (returned_w_bound_entry Hm) in Hc
        as (_ & Hij & Ht & Hadd & ->).
      cbn [constraint_vars expr_vars app] in Hv.
      apply elem_of_cons in Hv as [->|Hv]; [by apply Hw|].
      apply elem_of_cons in Hv as [->|Hv]; [exact Hadd|].
      by apply elem_of_nil in Hv.
  - intros obj v Hobj Hv.
    destruct (asm_objective _ _ _ _ _ Hm) as (obj' & Hrule & Hobj').
    rewrite Hobj in Hobj'. injection Hobj' as <-.
    rewrite (obj_rule_Ok _ _ _ _ _ Hd) in Hrule. injection Hrule as <-.
    cbn [expr_vars app] in Hv. unfold indexed_flow_terms in Hv.
    apply (expr_vars_sum_of_vars (λ ijt : edge * Z, W ijt.1.1 ijt.1.2 ijt.2))
      in Hv as ([[i j] t] & [Hij Ht]%elem_of_list_prod & ->).
    by apply Hw.
  - intros i j t. split; [apply (returned_w_inv Hm) | by intros [? ?]; apply Hw].
Qed.

Lemma referenced_variables_are_declared_witness :
  let m := final_model
             (opt_model entities_dict example_edges example_timesteps true) in
  (∀ c v, c ∈ model_constraints m → v ∈ constraint_vars c →
     declared_var m v)
  ∧ (∀ obj v, objective m = Some obj → v ∈ expr_vars obj →
       declared_var m v)
  ∧ (∀ i j t, declared_var m (W i j t)
              ↔ (i, j) ∈ example_edges ∧ t ∈ example_timesteps).
Proof.
  apply (referenced_variables_are_declared entities_dict example_edges
           example_timesteps true).
  apply is_returned_final. vm_compute. reflexivity.
Defined.

Lemma assembled_zero_flow entities E T inv m :
  assembled entities E T inv m →
  satisfies (λ _, 0%Q) m
  ∧ within_bounds (λ _, 0%Q) m
  ∧ ∃ obj, objective m = Some obj
           ∧ (eval (λ _, 0%Q) obj == 0)%Q
           ∧ ∀ ρ, within_bounds ρ m → (0 <= eval ρ obj)%Q.
Proof.
  intros Hm.
  pose proof (asm_declared _ _ _ _ _ Hm) as Hd.
  assert (∀ {A} (f : A → var) (l : list A),
            (eval (λ _, 0%Q) (py_sum ((λ x, Var (f x)) <$> l)) == 0)%Q)
    as Hzero.
  { intros A f l. rewrite eval_sum_of_vars. apply Qsum_zero.
    by intros x (y & -> & _)%list_elem_of_fmap. }
  split; [|split].
  - intros c Hc. apply elem_of_model_constraints in Hc
      as [[[e t] Hc]|[[[e t] Hc]|[[[e t] Hc]|[[[e t] Hc]|[[[i j] t] Hc]]]]].
    + apply (returned_bus_entry Hm) in Hc as (_ & _ & ->).
      cbn [holds eval]. unfold flow_terms. rewrite !Hzero. ring.
    + apply (returned_chp_eta_entry Hm) in Hc as (i & os & _ & _ & _ & ->).
      cbn [holds eval]. rewrite Hzero. field.
    + apply (returned_chp_pth_entry Hm) in Hc as (p & h & _ & _ & _ & ->).
      cbn [holds eval]. ring.
    + apply (returned_transformer_entry Hm) in Hc
        as (i & o & η & _ & _ & _ & ->).
      cbn [holds eval]. ring.
    + apply (returned_w_bound_entry Hm) in Hc as (_ & _ & _ & _ & ->).
      cbn [holds eval]. discriminate.
  - split.
    + intros i j t v [_ ->]%(declared_w Hd).
      split; [by destruct inv|]. intros u. destruct inv; [done|].
      intros [= <-]. discriminate.
    + intros d i j v Hadd Hv. pose proof (dcl_w_add _ _ _ _ _ Hd) as Hdv.
      destruct inv; [|congruence]. destruct Hdv as (d' & Hd' & Hadd').
      rewrite Hadd in Hadd'. injection Hadd' as <-. unfold po_Var, var_rule in Hd'.
      apply (indexed_component_lookup _ _ _ _ _ Hd') in Hv as [_ [= <-]].
      split; [apply Qle_refl | done].
  - destruct (asm_objective _ _ _ _ _ Hm) as (obj & Hrule & Hobj).
    rewrite (obj_rule_Ok _ _ _ _ _ Hd) in Hrule. injection Hrule as <-.
    eexists. split; [exact Hobj|]. unfold indexed_flow_terms. split.
    + cbn [eval]. rewrite Hzero. ring.
    + intros ρ [Hw _]. cbn [eval]. rewrite eval_sum_of_vars.
      apply (Qplus_le_compat 0 0 0); [apply Qle_refl|].
      apply Qsum_nonneg.
      intros x ([[i j] t] & -> & [Hij Ht]%elem_of_list_prod)%list_elem_of_fmap.
      destruct (declared_w_is_Some Hd i j t Hij Ht) as [v Hv].
      destruct (Hw _ _ _ _ Hv) as [Hlb _].
      apply (declared_w Hd) in Hv as [_ ->]. by destruct inv.
Qed.

(** X2: the zero flow solves every returned model: it satisfies all the
    constraints and lies within the bounds of every variable, and the
    objective is 0 there; within the bounds the objective is never
    negative, so 0 is its least value over the solutions. *)
Theorem zero_flow_is_optimal entities E T inv m :
  opt_model entities E T inv = Returned m →
  satisfies (λ _, 0%Q) m
  ∧ within_bounds (λ _, 0%Q) m
  ∧ ∃ obj, objective m = Some obj
           ∧ (eval (λ _, 0%Q) obj == 0)%Q
           ∧ ∀ ρ, within_bounds ρ m → (0 <= eval ρ obj)%Q.
Proof.
  intros Hm%opt_model_Returned. exact (assembled_zero_flow _ _ _ _ _ Hm).
Qed.

Lemma zero_flow_is_optimal_witness :
  let m := final_model
             (opt_model entities_dict example_edges example_timesteps true) in
  satisfies (λ _, 0%Q) m
  ∧ within_bounds (λ _, 0%Q) m
  ∧ ∃ obj, objective m = Some obj
           ∧ (eval (λ _, 0%Q) obj == 0)%Q
           ∧ ∀ ρ, within_bounds ρ m → (0 <= eval ρ obj)%Q.
Proof.
  apply (zero_flow_is_optimal entities_dict example_edges example_timesteps
           true).
  apply is_returned_final. vm_compute. reflexivity.
Defined.

(** ** When the builder returns *)

(** X3: on a well-formed input (distinct transformer ids and distinct CHP
    ids, every transformer with an input, an output and an efficiency,
    every CHP with an input and at least two outputs, every edge of a
    component among the edges, every bus at one end of an edge)
    [opt_model] returns a model and raises nothing, for every list of
    timesteps and either investment flag. *)
Theorem opt_model_returns_on_well_formed entities E T inv :
  well_formed entities E →
  ∃ m, opt_model entities E T inv = Returned m.
Proof. intros Hwf. exact (opt_model_total Hwf). Qed.

Lemma opt_model_returns_on_well_formed_witness :
  ∃ m, opt_model entities_dict example_edges example_timesteps true
       = Returned m.
Proof.
  apply (opt_model_returns_on_well_formed entities_dict example_edges
           example_timesteps true).
  exact example_well_formed.
Defined.

(** X4: the edges [get_edges] derives from the transformers followed by
    the CHPs, as the script's main block passes them, are all the edges
    [opt_model] needs: with distinct ids, components of the right shape
    and every bus among the inputs or outputs of a component, the builder
    returns a model. *)
Theorem get_edges_suffice entities T inv :
  NoDup (uid <$> ent_s_transformers entities) →
  NoDup (uid <$> ent_s_chps entities) →
  (∀ c, c ∈ ent_s_transformers entities →
     inputs c ≠ [] ∧ outputs c ≠ [] ∧ is_Some (eta c)) →
  (∀ c, c ∈ ent_s_chps entities →
     inputs c ≠ [] ∧ (2 ≤ length (outputs c))%nat) →
  (∀ b, b ∈ ent_buses entities →
     ∃ c, c ∈ ent_s_transformers entities ++ ent_s_chps entities
          ∧ uid b ∈ uid <$> inputs c ++ outputs c) →
  ∃ m, opt_model entities
         (get_edges (ent_s_transformers entities ++ ent_s_chps entities))
         T inv = Returned m.
Proof.
  intros Hnt Hnc Ht Hc Hb. apply opt_model_total. split; try assumption.
  - intros c Hin ij Hij. apply elem_of_get_edges. by exists c.
  - intros b (c & Hin & Hbc)%Hb. rewrite fmap_app in Hbc.
    apply elem_of_app in Hbc
      as [(i & -> & Hi)%list_elem_of_fmap|(o & -> & Ho)%list_elem_of_fmap].
    + exists (uid i, uid c). split; [|by left].
      apply elem_of_get_edges. exists c. split; [done|].
      apply elem_of_app. left.
      by apply (list_elem_of_fmap_2 (λ i, (uid i, uid c))).
    + exists (uid c, uid o). split; [|by right].
      apply elem_of_get_edges. exists c. split; [done|].
      apply elem_of_app. right.
      by apply (list_elem_of_fmap_2 (λ o, (uid c, uid o))).
Qed.

Lemma get_edges_suffice_witness :
  ∃ m, opt_model entities_dict
         (get_edges (ent_s_transformers entities_dict
                     ++ ent_s_chps entities_dict))
         example_timesteps false = Returned m.
Proof.
  apply (get_edges_suffice entities_dict example_timesteps false).
  - apply example_well_formed.
  - apply example_well_formed.
  - apply example_well_formed.
  - apply example_well_formed.
  - intros b Hb. exists (mkComponent "c0" [bus1] [bus2; bus3] None).
    split; [do 2 apply list_elem_of_further; apply list_elem_of_here|].
    cbn in Hb.
    repeat (apply elem_of_cons in Hb as [->|Hb]);
      [..|by apply elem_of_nil in Hb];
      apply (bool_decide_unpack _); vm_compute; exact I.
Defined.

Lemma assembled_shaped entities E T inv m :
  assembled entities E T inv m →
  (∀ c, c ∈ ent_s_transformers entities →
     is_Some (inputs c !! 0%nat) ∧ is_Some (outputs c !! 0%nat)
     ∧ is_Some (eta c))
  ∧ (∀ c, c ∈ ent_s_chps entities → is_Some (inputs c !! 0%nat)).
Proof.
  intros Hm.
  destruct (asm_transformer _ _ _ _ _ Hm)
    as (It & Ot & etas & HIt & HOt & Hetas & _).
  destruct (asm_chp _ _ _ _ _ Hm) as (Ic & Oc & HIc & _ & _ & _).
  split.
  - intros c Hc.
    destruct (dict_comprehension_elem _ _ _ _ _ HIt Hc)
      as (ui & (i & Hi & _)%fmap_py_index_Ok).
    destruct (dict_comprehension_elem _ _ _ _ _ HOt Hc)
      as (uo & (o & Ho & _)%fmap_py_index_Ok).
    destruct (dict_comprehension_elem _ _ _ _ _ Hetas Hc)
      as (η & Hη%getattr_eta_Ok).
    rewrite Hi, Ho, Hη. eauto.
  - intros c Hc.
    destruct (dict_comprehension_elem _ _ _ _ _ HIc Hc)
      as (ui & (i & Hi & _)%fmap_py_index_Ok).
    rewrite Hi. eauto.
Qed.

(** X5: a returned model means that every simple transformer has a first
    input, a first output and an efficiency, and every CHP a first input:
    a component short of one of these makes [opt_model] raise, whatever
    the edges and the timesteps, an empty list of timesteps included. *)
Theorem returned_components_are_shaped entities E T inv m :
  opt_model entities E T inv = Returned m →
  (∀ c, c ∈ ent_s_transformers entities →
     is_Some (inputs c !! 0%nat) ∧ is_Some (outputs c !! 0%nat)
     ∧ is_Some (eta c))
  ∧ (∀ c, c ∈ ent_s_chps entities → is_Some (inputs c !! 0%nat)).
Proof. intros Hm%opt_model_Returned. by apply assembled_shaped in Hm. Qed.

Lemma returned_components_are_shaped_witness :
  (∀ c, c ∈ ent_s_transformers entities_dict →
     is_Some (inputs c !! 0%nat) ∧ is_Some (outputs c !! 0%nat)
     ∧ is_Some (eta c))
  ∧ (∀ c, c ∈ ent_s_chps entities_dict → is_Some (inputs c !! 0%nat)).
Proof.
  apply (returned_components_are_shaped entities_dict example_edges
           example_timesteps false
           (final_model (opt_model entities_dict example_edges
                                   example_timesteps false))).
  apply is_returned_final. vm_compute. reflexivity.
Defined.

Lemma assembled_edges entities E T inv m :
  assembled entities E T inv m →
  NoDup (uid <$> ent_s_transformers entities) →
  NoDup (uid <$> ent_s_chps entities) →
  T ≠ [] →
  (∀ c i o, c ∈ ent_s_transformers entities →
     inputs c !! 0%nat = Some i → outputs c !! 0%nat = Some o →
     (uid i, uid c) ∈ E ∧ (uid c, uid o) ∈ E)
  ∧ (∀ c i, c ∈ ent_s_chps entities → inputs c !! 0%nat = Some i →
       (uid i, uid c) ∈ E
       ∧ (2 ≤ length (outputs c))%nat
       ∧ ∀ o, o ∈ outputs c → (uid c, uid o) ∈ E)
  ∧ (inv = true →
     ∀ c, c ∈ ent_s_transformers entities → component_edges c ⊆ E).
Proof.
  intros Hm Hnt Hnc HT.
  destruct T as [|t0 T']; [done|]. clear HT.
  pose proof (asm_declared _ _ _ _ _ Hm) as Hd.
  assert (t0 ∈ t0 :: T') as Ht0 by apply list_elem_of_here.
  split; [|split].
  - intros c i o Hc Hi Ho.
    destruct (asm_transformer _ _ _ _ _ Hm)
      as (I_ & O_ & etas & HI & HO & _ & Hte).
    apply po_Constraint_Ok in Hte.
    rewrite (dcl_s_transformers _ _ _ _ _ Hd) in Hte.
    destruct (indexed_component_elem _ _ _ (uid c, t0) Hte) as (k & Hk & _).
    { apply elem_of_list_prod. split; [by apply list_elem_of_fmap_2|done]. }
    apply transformer_eta_rule_Ok_inv in Hk
      as (i' & o' & η & HIc & HOc & _ & [Hie _]%(returned_w_inv Hm)
          & [Hoe _]%(returned_w_inv Hm) & _).
    destruct (dict_comprehension_lookup_NoDup _ _ _ _ _ HI Hnt Hc)
      as (ui & (i2 & Hi2 & ->)%fmap_py_index_Ok & HIc').
    destruct (dict_comprehension_lookup_NoDup _ _ _ _ _ HO Hnt Hc)
      as (uo & (o2 & Ho2 & ->)%fmap_py_index_Ok & HOc').
    rewrite HIc in HIc'. rewrite HOc in HOc'.
    injection HIc' as ->. injection HOc' as ->.
    rewrite Hi in Hi2. rewrite Ho in Ho2.
    injection Hi2 as <-. injection Ho2 as <-. done.
  - intros c i Hc Hi.
    destruct (asm_chp _ _ _ _ _ Hm) as (I_ & O_ & HI & HO & Hce & Hcp).
    apply po_Constraint_Ok in Hce, Hcp.
    rewrite (dcl_s_chps _ _ _ _ _ Hd) in Hce, Hcp.
    assert ((uid c, t0) ∈ list_prod (uid <$> ent_s_chps entities) (t0 :: T'))
      as Hidx.
    { apply elem_of_list_prod. split; [by apply list_elem_of_fmap_2|done]. }
    destruct (indexed_component_elem _ _ _ _ Hce Hidx) as (k1 & Hk1 & _).
    destruct (indexed_component_elem _ _ _ _ Hcp Hidx) as (k2 & Hk2 & _).
    destruct (dict_comprehension_lookup_NoDup _ _ _ _ _ HI Hnc Hc)
      as (ui & (i2 & Hi2 & ->)%fmap_py_index_Ok & HIc).
    destruct (dict_comprehension_lookup_NoDup _ _ _ _ _ HO Hnc Hc)
      as (os & [= <-] & HOc).
    rewrite Hi in Hi2. injection Hi2 as <-.
    apply chp_eta_rule_Ok_inv in Hk1
      as (i' & os' & HIc' & HOc' & [Hie _]%(returned_w_inv Hm) & Hos & _).
    rewrite HIc in HIc'. injection HIc' as <-.
    rewrite HOc in HOc'. injection HOc' as <-.
    apply power_to_heat_rule_Ok_inv in Hk2
      as (os' & power & heat & HOc' & _ & Hheat & _).
    rewrite HOc in HOc'. injection HOc' as <-.
    split; [done|]. split.
    + apply lookup_lt_Some in Hheat. by rewrite length_fmap in Hheat.
    + intros o Ho.
      by apply (list_elem_of_fmap_2 uid), Hos, (returned_w_inv Hm) in Ho
        as [? _].
  - intros -> c Hc [i j] Hij.
    destruct (asm_w_bound _ _ _ _ _ Hm) as [Hee Htw]. rewrite Hee in Htw.
    apply po_Constraint_Ok in Htw.
    destruct (indexed_component_elem _ _ _ ((i, j), t0) Htw) as (k & Hk & _).
    { apply elem_of_list_prod. split; [|done].
      apply elem_of_get_edges. by exists c. }
    by apply w_bound_investment_Ok_inv in Hk
      as (_ & _ & _ & [? _]%(returned_w_inv Hm) & _).
Qed.

(** X6: a model returned for at least one timestep, the ids being
    distinct, means that the edges the rules look up were all handed to
    the builder: for a simple transformer the edge from its first input
    and the edge to its first output, with investment all its edges; for a
    CHP the edge from its first input and the edges to all its outputs, of
    which there are at least two. An edge missing there makes the builder
    raise. *)
Theorem returned_edges_are_declared entities E T inv m :
  opt_model entities E T inv = Returned m →
  NoDup (uid <$> ent_s_transformers entities) →
  NoDup (uid <$> ent_s_chps entities) →
  T ≠ [] →
  (∀ c i o, c ∈ ent_s_transformers entities →
     inputs c !! 0%nat = Some i → outputs c !! 0%nat = Some o →
     (uid i, uid c) ∈ E ∧ (uid c, uid o) ∈ E)
  ∧ (∀ c i, c ∈ ent_s_chps entities → inputs c !! 0%nat = Some i →
       (uid i, uid c) ∈ E
       ∧ (2 ≤ length (outputs c))%nat
       ∧ ∀ o, o ∈ outputs c → (uid c, uid o) ∈ E)
  ∧ (inv = true →
     ∀ c, c ∈ ent_s_transformers entities → component_edges c ⊆ E).
Proof.
  intros Hm%opt_model_Returned Hnt Hnc HT.
  exact (assembled_edges _ _ _ _ _ Hm Hnt Hnc HT).
Qed.

Lemma returned_edges_are_declared_witness :
  (∀ c i o, c ∈ ent_s_transformers entities_dict →
     inputs c !! 0%nat = Some i → outputs c !! 0%nat = Some o →
     (uid i, uid c) ∈ example_edges ∧ (uid c, uid o) ∈ example_edges)
  ∧ (∀ c i, c ∈ ent_s_chps entities_dict → inputs c !! 0%nat = Some i →
       (uid i, uid c) ∈ example_edges
       ∧ (2 ≤ length (outputs c))%nat
       ∧ ∀ o, o ∈ outputs c → (uid c, uid o) ∈ example_edges)
  ∧ (true = true →
     ∀ c, c ∈ ent_s_transformers entities_dict →
       component_edges c ⊆ example_edges).
Proof.
  apply (returned_edges_are_declared entities_dict example_edges
           example_timesteps true
           (final_model (opt_model entities_dict example_edges
                                   example_timesteps true))).
  - apply is_returned_final. vm_compute. reflexivity.
  - apply (bool_decide_unpack _). vm_compute. exact I.
  - apply (bool_decide_unpack _). vm_compute. exact I.
  - discriminate.
Defined.

(** ** When the builder raises *)

Lemma same_base_trans m1 m2 m3 :
  same_base m1 m2 → same_base m2 m3 → same_base m1 m3.
Proof. unfold same_base. intuition congruence. Qed.

Lemma same_base_declared entities E T inv m p :
  same_base m p → declared entities E T inv m → declared entities E T inv p.
Proof.
  unfold same_base. intros H Hd.
  apply (declared_env _ _ _ _ m); intuition.
Qed.

Lemma simple_chp_model_frame entities m :
  same_base m (final_model (simple_chp_model entities m)).
Proof.
  unfold simple_chp_model.
  destruct (dict_comprehension _ _ _ ≫= _) as [[I_ O_]|e]; [|by repeat split].
  unfold and_then, attach.
  destruct (indexed_component _ (constraint_rule (chp_eta_rule I_ O_ m)));
    [|by repeat split].
  destruct (indexed_component _ (constraint_rule (power_to_heat_rule O_ _)));
    by repeat split.
Qed.

Lemma simple_transformer_model_frame entities m :
  same_base m (final_model (simple_transformer_model entities m)).
Proof.
  unfold simple_transformer_model.
  destruct (dict_comprehension _ _ _ ≫= _) as [[[I_ O_] eta]|e];
    [|by repeat split].
  unfold and_then, attach.
  destruct (indexed_component _
              (constraint_rule (transformer_eta_rule I_ O_ eta m)));
    [|by repeat split].
  change (invest (set_s_transformer_eta_constr a m)) with (invest m).
  destruct (invest m); [|by repeat split]. cbv zeta.
  destruct (indexed_component _ (constraint_rule (w_bound_investment _)));
    by repeat split.
Qed.

Lemma transformer_eta_rule_Raise I_ O_ etas m k e :
  transformer_eta_rule I_ O_ etas m k = Raise e → e = KeyError.
Proof.
  destruct k as [c t]. unfold transformer_eta_rule.
  intros [Hr|(i & _ & [Hr|(win & _ & [Hr|(η & _ & [Hr|(o & _
    & [Hr|(wout & _ & Hr)]%bind_Raise)]%bind_Raise)]%bind_Raise
    )]%bind_Raise)]%bind_Raise.
  - by apply getitem_Raise in Hr.
  - by apply w_getitem_Raise in Hr.
  - by apply getitem_Raise in Hr.
  - by apply getitem_Raise in Hr.
  - by apply w_getitem_Raise in Hr.
  - discriminate Hr.
Qed.

Lemma w_bound_investment_Raise m k e :
  w_bound_investment m k = Raise e → e = KeyError ∨ e = AttributeError.
Proof.
  destruct k as [[i j] t]. unfold w_bound_investment, w_add_getitem.
  intros [Hr|(wijt & _ & [Hr|(cap & _ & [Hr|(wadd & _ & Hr)]%bind_Raise
    )]%bind_Raise)]%bind_Raise.
  - left. by apply w_getitem_Raise in Hr.
  - left. by apply getitem_Raise in Hr.
  - destruct (w_add m) as [d|]; [|right; by injection Hr as <-].
    left. apply bind_Raise in Hr as [Hr|(v & _ & Hr)]; [|discriminate Hr].
    by apply getitem_Raise in Hr.
  - discriminate Hr.
Qed.

Lemma fmap_py_index_Raise {A B} (f : A → B) (l : list A) (n : nat) e :
  f <$> py_index l n = Raise e → e = IndexError.
Proof.
  unfold py_index. destruct (l !! n); [discriminate | by intros [= <-]].
Qed.

Lemma getattr_eta_Raise (t : Component) (e : exn) :
  getattr_eta t = Raise e → e = AttributeError.
Proof.
  unfold getattr_eta. destruct (eta t); [discriminate | by intros [= <-]].
Qed.

Lemma simple_transformer_model_Raised entities m e partial :
  simple_transformer_model entities m = Raised e partial →
  e = IndexError ∨ e = KeyError ∨ e = AttributeError.
Proof.
  unfold simple_transformer_model.
  destruct (dict_comprehension _ _ _ ≫= _) as [[[I_ O_] eta]|e'] eqn:Hd.
  - unfold and_then, attach.
    destruct (indexed_component _
                (constraint_rule (transformer_eta_rule I_ O_ eta m)))
      as [te|e1] eqn:Hte.
    + change (invest (set_s_transformer_eta_constr te m)) with (invest m).
      destruct (invest m); [|discriminate]. cbv zeta.
      destruct (indexed_component _ (constraint_rule (w_bound_investment _)))
        as [tw|e2] eqn:Htw; [discriminate|].
      intros [= <- <-].
      apply po_Constraint_Raise_rule in Htw as (k & _ & Hk);
        [|apply w_bound_investment_vars].
      apply w_bound_investment_Raise in Hk. tauto.
    + intros [= <- <-].
      apply po_Constraint_Raise_rule in Hte as (k & _ & Hk);
        [|apply transformer_eta_rule_vars].
      apply transformer_eta_rule_Raise in Hk. tauto.
  - intros [= <- <-].
    apply bind_Raise in Hd as [Hr|(I_ & _ & [Hr|(O_ & _
      & [Hr|(eta & _ & Hr)]%bind_Raise)]%bind_Raise)].
    + apply dict_comprehension_Raise in Hr as (c & _ & Hr).
      apply fmap_py_index_Raise in Hr. tauto.
    + apply dict_comprehension_Raise in Hr as (c & _ & Hr).
      apply fmap_py_index_Raise in Hr. tauto.
    + apply dict_comprehension_Raise in Hr as (c & _ & Hr).
      apply getattr_eta_Raise in Hr. tauto.
    + discriminate Hr.
Qed.

Lemma declare_variables_objective m :
  objective (final_model (declare_variables m)) = objective m.
Proof.
  unfold declare_variables, and_then, attach.
  destruct (invest m).
  - destruct (indexed_component _ (var_rule None _)); [|reflexivity].
    by destruct (indexed_component _ (var_rule None _)).
  - by destruct (indexed_component _ (var_rule (Some _) _)).
Qed.

(** X7: [opt_model] raises at one of two stages, and in both only after
    every flow variable has been declared and before the objective is
    set. Either the bus balance stops at a bus that no edge touches, with
    the library's [InvalidConstraintError] and before any CHP or
    transformer constraint exists; or the CHP or transformer part raises
    a built-in [IndexError], [KeyError] or [AttributeError], when the bus
    balance constraint of every bus and timestep is already in the
    model. *)
Theorem opt_model_raising_stages entities E T inv e partial :
  opt_model entities E T inv = Raised e partial →
  (∀ i j t, (i, j) ∈ E → t ∈ T → is_Some (w partial !! ((i, j), t)))
  ∧ objective partial = None
  ∧ ((e = InvalidConstraintError
      ∧ (∃ b, b ∈ ent_buses entities ∧ ¬ touched (uid b) E)
      ∧ s_chp_eta_constr partial = ∅ ∧ s_chp_pth_constr partial = ∅
      ∧ s_transformer_eta_constr partial = ∅
      ∧ s_transformer_w_max partial = ∅)
     ∨ ((e = IndexError ∨ e = KeyError ∨ e = AttributeError)
        ∧ ∀ b t, b ∈ ent_buses entities → t ∈ T →
            is_Some (bus_constr partial !! (uid b, t)))).
Proof.
  unfold opt_model, add_components.
  pose proof (declare_variables_objective (new_model entities E T inv))
    as Hobj1.
  destruct (declare_variables_new_model entities E T inv)
    as (m1 & Hm1 & Hd1 & Hnone).
  rewrite Hm1 in Hobj1 |- *. cbn [final_model objective new_model] in Hobj1.
  cbn [and_then]. unfold attach at 1.
  destruct (indexed_component _ (constraint_rule (bus_rule m1)))
    as [bc|e1] eqn:Hbc; cbn [and_then].
  2:{ intros [= <- <-].
      apply (bus_constr_Raise _ _ _ _ _ _ Hd1) in Hbc as (-> & _ & Hb).
      split; [intros i j t; apply (declared_w_is_Some Hd1)|].
      split; [exact Hobj1|]. left.
      destruct Hnone as (_ & ? & ? & ? & ?). by repeat split. }
  set (m2 := set_bus_constr bc m1).
  assert (declared entities E T inv m2) as Hd2
    by (by apply (declared_env _ _ _ _ m1)).
  assert (∀ p, same_base m2 p →
            (∀ i j t, (i, j) ∈ E → t ∈ T → is_Some (w p !! ((i, j), t)))
            ∧ objective p = None
            ∧ ∀ b t, b ∈ ent_buses entities → t ∈ T →
                 is_Some (bus_constr p !! (uid b, t))) as Hbase.
  { intros p Hp. pose proof (same_base_declared _ _ _ _ _ _ Hp Hd2) as Hdp.
    split; [|split].
    - intros i j t. apply (declared_w_is_Some Hdp).
    - destruct Hp as (_ & _ & _ & _ & _ & _ & _ & _ & _ & _ & ->).
      exact Hobj1.
    - intros b t Hb Ht.
      destruct Hp as (_ & _ & _ & _ & _ & _ & _ & _ & _ & -> & _).
      destruct (indexed_component_elem _ _ _ (uid b, t) Hbc)
        as (v & _ & Hv); [|by exists v].
      apply elem_of_list_prod.
      rewrite (dcl_buses _ _ _ _ _ Hd1), (dcl_timesteps _ _ _ _ _ Hd1).
      split; [by apply list_elem_of_fmap_2 | done]. }
  pose proof (simple_chp_model_frame entities m2) as Hf2.
  destruct (simple_chp_model entities m2) as [m3|e3 p3] eqn:Hchp;
    cbn [and_then final_model] in *.
  - pose proof (simple_transformer_model_frame entities m3) as Hf3.
    destruct (simple_transformer_model entities m3) as [m4|e4 p4] eqn:Htr;
      cbn [and_then final_model] in *.
    + pose proof (same_base_trans _ _ _ Hf2 Hf3) as Hf4.
      unfold objective_model, assign.
      rewrite (obj_rule_Ok _ _ _ _ _
                 (same_base_declared _ _ _ _ _ _ Hf4 Hd2)).
      discriminate.
    + intros [= <- <-].
      destruct (Hbase p4 (same_base_trans _ m3 _ Hf2 Hf3)) as (Hw & Ho & Hb).
      split; [exact Hw|]. split; [exact Ho|]. right. split; [|exact Hb].
      by apply simple_transformer_model_Raised in Htr.
  - intros [= <- <-]. destruct (Hbase p3 Hf2) as (Hw & Ho & Hb).
    split; [exact Hw|]. split; [exact Ho|]. right. split; [|exact Hb].
    apply simple_chp_model_Raised in Hchp as [[->| ->] _]; tauto.
Qed.

Lemma opt_model_raising_stages_witness :
  let o := opt_model one_output_entities one_output_edges example_timesteps
                     false in
  (∀ i j t, (i, j) ∈ one_output_edges → t ∈ example_timesteps →
     is_Some (w (final_model o) !! ((i, j), t)))
  ∧ objective (final_model o) = None
  ∧ ((IndexError = InvalidConstraintError
      ∧ (∃ b, b ∈ ent_buses one_output_entities
              ∧ ¬ touched (uid b) one_output_edges)
      ∧ s_chp_eta_constr (final_model o) = ∅
      ∧ s_chp_pth_constr (final_model o) = ∅
      ∧ s_transformer_eta_constr (final_model o) = ∅
      ∧ s_transformer_w_max (final_model o) = ∅)
     ∨ ((IndexError = IndexError ∨ IndexError = KeyError
         ∨ IndexError = AttributeError)
        ∧ ∀ b t, b ∈ ent_buses one_output_entities → t ∈ example_timesteps →
            is_Some (bus_constr (final_model o) !! (uid b, t)))).
Proof.
  apply (opt_model_raising_stages one_output_entities one_output_edges
           example_timesteps false IndexError).
  assert (∀ o, raised_exn o = Some IndexError →
            o = Raised IndexError (final_model o)) as Hraised.
  { intros [m|e p]; [discriminate|]. by intros [= ->]. }
  apply Hraised. vm_compute. reflexivity.
Defined.

(** X8: a CHP without any input makes [opt_model] raise [IndexError],
    whatever the timesteps and the other components, as soon as the bus
    balance goes through (every bus has an edge, or there is no
    timestep): the exception comes from the dictionary of first inputs,
    when no CHP or transformer constraint has been generated yet. *)
Theorem chp_without_input_raises entities E T inv c :
  c ∈ ent_s_chps entities →
  inputs c = [] →
  (T ≠ [] → ∀ b, b ∈ ent_buses entities → touched (uid b) E) →
  ∃ partial,
    opt_model entities E T inv = Raised IndexError partial
    ∧ s_chp_eta_constr partial = ∅ ∧ s_chp_pth_constr partial = ∅
    ∧ s_transformer_eta_constr partial = ∅
    ∧ s_transformer_w_max partial = ∅.
Proof.
  intros Hc Hin Hb. unfold opt_model, add_components.
  destruct (declare_variables_new_model entities E T inv)
    as (m1 & -> & Hd1 & (_ & Hce & Hcp & Hte & Htw)).
  cbn [and_then].
  destruct (bus_constr_total _ _ _ _ _ Hd1 Hb) as [bc Hbc].
  unfold attach at 1. unfold po_Constraint in Hbc. rewrite Hbc.
  cbn [and_then]. unfold simple_chp_model.
  destruct (dict_comprehension uid (λ t, uid <$> py_index (inputs t) 0)
              (ent_s_chps entities)) as [I_|e] eqn:HI.
  - destruct (dict_comprehension_elem _ _ _ _ _ HI Hc) as [v Hv].
    rewrite Hin in Hv. discriminate Hv.
  - apply dict_comprehension_Raise in HI as (c' & _ & ->%fmap_py_index_Raise).
    cbn [mbind result_bind and_then]. eexists. split; [reflexivity|].
    by cbn [s_chp_eta_constr s_chp_pth_constr s_transformer_eta_constr
            s_transformer_w_max set_bus_constr].
Qed.

Lemma chp_without_input_raises_witness :
  ∃ partial,
    opt_model (mkEntities [bus1] objs_sf [mkComponent "c0" [] [bus2] None])
              example_edges example_timesteps true
    = Raised IndexError partial
    ∧ s_chp_eta_constr partial = ∅ ∧ s_chp_pth_constr partial = ∅
    ∧ s_transformer_eta_constr partial = ∅
    ∧ s_transformer_w_max partial = ∅.
Proof.
  apply (chp_without_input_raises
           (mkEntities [bus1] objs_sf [mkComponent "c0" [] [bus2] None])
           example_edges example_timesteps true
           (mkComponent "c0" [] [bus2] None)).
  - apply list_elem_of_here.
  - reflexivity.
  - intros _ b ->%list_elem_of_singleton.
    exists ("b1", "t0")%string. split; [apply list_elem_of_here | by left].
Defined.

(** ** Combined heat and power, beyond two outputs *)

Section returned_chp.
Context {entities : Entities} {E : list edge} {T : list Z} {inv : bool}
        {m : Model} (Hm : assembled entities E T inv m)
        (Hnd : NoDup (uid <$> ent_s_chps entities)).

Lemma returned_chp_constraints e t power heat rest :
  e ∈ ent_s_chps entities → t ∈ T → outputs e = power :: heat :: rest →
  ∃ i,
    inputs e !! 0%nat = Some i
    ∧ s_chp_eta_constr m !! (uid e, t)
      = Some (EqTuple
                (Add (Add (Num 0) (Var (W (uid i) (uid e) t)))
                     (Div (Neg (py_sum ((λ o, Var (W (uid e) (uid o) t))
                                          <$> outputs e)))
                          (Num 0.8)))
                (Num 0))
    ∧ s_chp_pth_constr m !! (uid e, t)
      = Some (EqTuple
                (Add (Add (Num 0) (Var (W (uid e) (uid power) t)))
                     (Mul (Neg (Var (W (uid e) (uid heat) t))) (Num 0.6)))
                (Num 0)).
Proof.
  intros He Ht Houts.
  destruct (asm_chp _ _ _ _ _ Hm) as (I_ & O_ & HI & HO & Hce & Hcp).
  apply po_Constraint_Ok in Hce, Hcp.
  rewrite (dcl_s_chps _ _ _ _ _ (asm_declared _ _ _ _ _ Hm)) in Hce, Hcp.
  destruct (dict_comprehension_lookup_NoDup _ _ _ _ _ HI Hnd He)
    as (ui & (i & Hi & ->)%fmap_py_index_Ok & HIe).
  destruct (dict_comprehension_lookup_NoDup _ _ _ _ _ HO Hnd He)
    as (os & [= <-] & HOe).
  assert ((uid e, t) ∈ list_prod (uid <$> ent_s_chps entities) T) as Hidx.
  { apply elem_of_list_prod. split; [by apply list_elem_of_fmap_2|done]. }
  destruct (indexed_component_elem _ _ _ _ Hce Hidx) as (c1 & Hc1 & Hl1).
  destruct (indexed_component_elem _ _ _ _ Hcp Hidx) as (c2 & Hc2 & Hl2).
  apply (chp_eta_rule_inv _ _ _ _ _ _ _ _ HIe HOe) in Hc1.
  apply (power_to_heat_rule_inv _ _ _ _ _ _ (uid power) (uid heat) HOe)
    in Hc2; [|by rewrite Houts..].
  subst c1 c2. exists i. split; [exact Hi|]. split; [|exact Hl2].
  by rewrite <- list_fmap_compose in Hl1.
Qed.
End returned_chp.

(** X9: for a CHP with more than two outputs, every output enters the
    efficiency constraint, [w[I(e),e,t] - (sum over all outputs o of
    w[e,o,t]) / 0.8 = 0], but only the first two enter the power-to-heat
    constraint [w[e,out0,t] - w[e,out1,t] * 0.6 = 0], which mentions no
    other variable. *)
Theorem chp_with_more_outputs entities E T inv m :
  opt_model entities E T inv = Returned m →
  NoDup (uid <$> ent_s_chps entities) →
  ∀ e t power heat rest,
    e ∈ ent_s_chps entities → t ∈ T → outputs e = power :: heat :: rest →
    ∃ i body_eta body_pth,
      inputs e !! 0%nat = Some i
      ∧ s_chp_eta_constr m !! (uid e, t) = Some (EqTuple body_eta (Num 0))
      ∧ s_chp_pth_constr m !! (uid e, t) = Some (EqTuple body_pth (Num 0))
      ∧ (∀ ρ, (eval ρ body_eta
               == ρ (W (uid i) (uid e) t)
                  - Qsum ((λ o, ρ (W (uid e) (uid o) t)) <$> outputs e)
                    / 0.8)%Q)
      ∧ (∀ ρ, (eval ρ body_pth
               == ρ (W (uid e) (uid power) t)
                  - ρ (W (uid e) (uid heat) t) * 0.6)%Q)
      ∧ expr_vars body_pth
        = [W (uid e) (uid power) t; W (uid e) (uid heat) t].
Proof.
  intros Hm%opt_model_Returned Hnd e t power heat rest He Ht Houts.
  destruct (returned_chp_constraints Hm Hnd e t power heat rest He Ht Houts)
    as (i & Hi & Hl1 & Hl2).
  exists i. do 2 eexists.
  split; [exact Hi|]. split; [exact Hl1|]. split; [exact Hl2|].
  split; [|split].
  - intros ρ. cbn [eval].
    rewrite (eval_sum_of_vars ρ (λ o, W (uid e) (uid o) t)). field.
  - intros ρ. cbn [eval]. ring.
  - reflexivity.
Qed.

Lemma chp_with_more_outputs_witness :
  let m := final_model (opt_model three_output_entities three_output_edges
                                  example_timesteps false) in
  ∃ i body_eta body_pth,
    inputs three_output_chp !! 0%nat = Some i
    ∧ s_chp_eta_constr m !! ("c0"%string, 0%Z)
      = Some (EqTuple body_eta (Num 0))
    ∧ s_chp_pth_constr m !! ("c0"%string, 0%Z)
      = Some (EqTuple body_pth (Num 0))
    ∧ (∀ ρ, (eval ρ body_eta
             == ρ (W (uid i) "c0" 0)
                - Qsum ((λ o, ρ (W "c0" (uid o) 0))
                          <$> [bus2; bus3; bus4]) / 0.8)%Q)
    ∧ (∀ ρ, (eval ρ body_pth
             == ρ (W "c0" "b2" 0) - ρ (W "c0" "b3" 0) * 0.6)%Q)
    ∧ expr_vars body_pth = [W "c0" "b2" 0; W "c0" "b3" 0].
Proof.
  apply (chp_with_more_outputs three_output_entities three_output_edges
           example_timesteps false
           (final_model (opt_model three_output_entities three_output_edges
                                   example_timesteps false)))
    with (e := three_output_chp) (t := 0%Z) (power := bus2) (heat := bus3)
         (rest := [bus4]).
  - apply is_returned_final. vm_compute. reflexivity.
  - apply NoDup_singleton.
  - apply list_elem_of_here.
  - apply list_elem_of_here.
  - reflexivity.
Defined.

(** ** Exactly when the builder returns *)

Lemma assembled_runs_on entities E T inv m :
  assembled entities E T inv m →
  NoDup (uid <$> ent_s_transformers entities) →
  NoDup (uid <$> ent_s_chps entities) →
  runs_on entities E T inv.
Proof.
  intros Hm Hnt Hnc. destruct (assembled_shaped _ _ _ _ _ Hm) as [Ht Hc].
  split; [exact Ht | exact Hc | ..].
  - intros HT. pose proof (asm_declared _ _ _ _ _ Hm) as Hd.
    pose proof (asm_bus_constr _ _ _ _ _ Hm) as Hbc.
    rewrite <- (dcl_timesteps _ _ _ _ _ Hd) in Hbc at 1.
    exact (bus_constr_touched _ _ _ _ _ _ Hd Hbc HT).
  - intros HT. by destruct (assembled_edges _ _ _ _ _ Hm Hnt Hnc HT) as [? _].
  - intros HT.
    by destruct (assembled_edges _ _ _ _ _ Hm Hnt Hnc HT) as (_ & ? & _).
  - intros HT.
    by destruct (assembled_edges _ _ _ _ _ Hm Hnt Hnc HT) as (_ & _ & ?).
Qed.

Lemma runs_on_mono entities entities' E E' T inv :
  runs_on entities E T inv →
  ent_s_transformers entities' = ent_s_transformers entities →
  ent_s_chps entities' = ent_s_chps entities →
  E ⊆ E' →
  (T ≠ [] → ∀ b, b ∈ ent_buses entities' → touched (uid b) E') →
  runs_on entities' E' T inv.
Proof.
  intros [Ht Hc _ Hte Hce Hinv] Het Hec Hsub Hb. split; rewrite ?Het, ?Hec.
  - exact Ht.
  - exact Hc.
  - exact Hb.
  - intros HT c i o Hin Hi Ho.
    destruct (Hte HT c i o Hin Hi Ho) as [? ?]. split; by apply Hsub.
  - intros HT c i Hin Hi. destruct (Hce HT c i Hin Hi) as (? & ? & Hos).
    split; [by apply Hsub|]. split; [done|].
    intros o Ho. by apply Hsub, Hos.
  - intros HT Htrue c Hin ij Hij. by apply Hsub, (Hinv HT Htrue c Hin).
Qed.

Lemma list_prod_nil_r {A B} (l : list A) : list_prod l (@nil B) = [].
Proof. by induction l. Qed.

(** X11: with distinct transformer ids and distinct CHP ids, [opt_model]
    returns a model exactly when every component has the shape its
    dictionaries read and, unless there is no timestep, every bus has an
    edge and the edges its rules look up are among the edges: for a
    transformer the edge from its first input and the edge to its first
    output (all its edges with investment), for a CHP the edge from its
    first input and the edges to all its outputs, which are at least two.
    In every other case it raises. *)
Theorem opt_model_returns_exactly_when entities E T inv :
  NoDup (uid <$> ent_s_transformers entities) →
  NoDup (uid <$> ent_s_chps entities) →
  (∃ m, opt_model entities E T inv = Returned m) ↔ runs_on entities E T inv.
Proof.
  intros Hnt Hnc. split.
  - intros [m Hm%opt_model_Returned]. by apply (assembled_runs_on _ _ _ _ m).
  - intros Hro. by apply (opt_model_runs Hro).
Qed.

Lemma opt_model_returns_exactly_when_witness :
  (∃ m, opt_model entities_dict example_edges example_timesteps true
        = Returned m)
  ↔ runs_on entities_dict example_edges example_timesteps true.
Proof.
  apply (opt_model_returns_exactly_when entities_dict example_edges
           example_timesteps true).
  - apply (bool_decide_unpack _). vm_compute. exact I.
  - apply (bool_decide_unpack _). vm_compute. exact I.
Defined.

(** X12: with an empty list of timesteps no rule is ever called: the
    builder returns exactly when every simple transformer has a first
    input, a first output and an efficiency and every CHP a first input,
    whatever the edges and the outputs of the CHPs, and the model it
    returns has no flow variable and no constraint. *)
Theorem no_timesteps entities E inv :
  ((∃ m, opt_model entities E [] inv = Returned m)
   ↔ (∀ c, c ∈ ent_s_transformers entities →
        is_Some (inputs c !! 0%nat) ∧ is_Some (outputs c !! 0%nat)
        ∧ is_Some (eta c))
     ∧ (∀ c, c ∈ ent_s_chps entities → is_Some (inputs c !! 0%nat)))
  ∧ ∀ m, opt_model entities E [] inv = Returned m →
      w m = ∅ ∧ model_constraints m = [].
Proof.
  split; [split|].
  - intros [m Hm%opt_model_Returned]. by apply assembled_shaped in Hm.
  - intros [Ht Hc].
    assert (runs_on entities E [] inv) as Hro by (by split).
    by apply (opt_model_runs Hro).
  - intros m Hm%opt_model_Returned.
    pose proof (asm_declared _ _ _ _ _ Hm) as Hd.
    assert (∀ {K} `{Countable K} {V} (l : list K) rule
              (d : gmap (K * Z) V),
              indexed_component (list_prod l []) rule = Ok d → d = ∅)
      as Hempty.
    { intros K ? ? V l rule d Hd'. apply map_empty. intros k.
      apply (indexed_component_lookup_None _ _ _ _ Hd').
      rewrite list_prod_nil_r. apply not_elem_of_nil. }
    split; [exact (Hempty _ _ _ _ _ _ _ (dcl_w _ _ _ _ _ Hd))|].
    destruct (asm_chp _ _ _ _ _ Hm) as (Ic & Oc & _ & _ & Hce & Hcp).
    apply po_Constraint_Ok in Hce, Hcp.
    destruct (asm_transformer _ _ _ _ _ Hm)
      as (It & Ot & etas & _ & _ & _ & Hte).
    apply po_Constraint_Ok in Hte.
    pose proof (asm_w_bound _ _ _ _ _ Hm) as Htw.
    unfold model_constraints.
    rewrite (Hempty _ _ _ _ _ _ _ (asm_bus_constr _ _ _ _ _ Hm)),
      (Hempty _ _ _ _ _ _ _ Hce), (Hempty _ _ _ _ _ _ _ Hcp),
      (Hempty _ _ _ _ _ _ _ Hte).
    assert (s_transformer_w_max m = ∅) as ->.
    { destruct inv; [|exact Htw]. destruct Htw as [_ Htw].
      exact (Hempty _ _ _ _ _ _ _ Htw). }
    by rewrite !map_to_list_empty.
Qed.

(** X13: the builder checks the edges neither against the buses nor
    against the components: once it returns for some edges, it returns for
    every larger list of edges, with any list of buses each of which has
    an edge in that list, and each of the edges gets its flow variables,
    also an edge to a node that is nowhere declared. *)
Theorem stray_edges_are_accepted entities entities' E E' T inv m :
  opt_model entities E T inv = Returned m →
  NoDup (uid <$> ent_s_transformers entities) →
  NoDup (uid <$> ent_s_chps entities) →
  ent_s_transformers entities' = ent_s_transformers entities →
  ent_s_chps entities' = ent_s_chps entities →
  E ⊆ E' →
  (T ≠ [] → ∀ b, b ∈ ent_buses entities' → touched (uid b) E') →
  ∃ m', opt_model entities' E' T inv = Returned m'
        ∧ buses m' = uid <$> ent_buses entities'
        ∧ ∀ i j t, (i, j) ∈ E' → t ∈ T → is_Some (w m' !! ((i, j), t)).
Proof.
  intros Hm%opt_model_Returned Hnt Hnc Het Hec Hsub Hb.
  pose proof (assembled_runs_on _ _ _ _ _ Hm Hnt Hnc) as Hro.
  apply (runs_on_mono _ entities' _ E') in Hro; [|done..].
  rewrite <- Het in Hnt. rewrite <- Hec in Hnc.
  destruct (opt_model_runs Hro (λ _, Hnt) (λ _, Hnc)) as [m' Hm'].
  exists m'. split; [exact Hm'|].
  apply opt_model_Returned, asm_declared in Hm'.
  split; [apply (dcl_buses _ _ _ _ _ Hm')|].
  intros i j t Hij Ht. by apply (declared_w_is_Some Hm').
Qed.

Lemma stray_edges_are_accepted_witness :
  ∃ m', opt_model stray_entities stray_edges example_timesteps false
        = Returned m'
        ∧ buses m' = uid <$> ent_buses stray_entities
        ∧ ∀ i j t, (i, j) ∈ stray_edges → t ∈ example_timesteps →
            is_Some (w m' !! ((i, j), t)).
Proof.
  apply (stray_edges_are_accepted entities_dict stray_entities
           example_edges stray_edges example_timesteps false
           (final_model (opt_model entities_dict example_edges
                                   example_timesteps false))).
  - apply is_returned_final. vm_compute. reflexivity.
  - apply (bool_decide_unpack _). vm_compute. exact I.
  - apply (bool_decide_unpack _). vm_compute. exact I.
  - reflexivity.
  - reflexivity.
  - intros ij Hij. apply elem_of_app. by left.
  - intros _ b Hb. cbn in Hb.
    repeat (apply elem_of_cons in Hb as [->|Hb]);
      [..|by apply elem_of_nil in Hb].
    + exists ("b1", "t0")%string. split; [apply list_elem_of_here | by left].
    + exists ("t0", "b2")%string.
      split; [apply list_elem_of_further, list_elem_of_here | by right].
    + exists ("c0", "b3")%string. split; [|by right].
      do 6 apply list_elem_of_further. apply list_elem_of_here.
    + exists ("x", "y")%string. split; [|by left].
      do 10 apply list_elem_of_further. apply list_elem_of_here.
Defined.

(** ** The derived edges *)

Lemma component_edges_in (c : Component) (ij : edge) :
  ij ∈ component_edges c ↔
  (∃ i, i ∈ inputs c ∧ ij = (uid i, uid c))
  ∨ (∃ o, o ∈ outputs c ∧ ij = (uid c, uid o)).
Proof.
  unfold component_edges. rewrite elem_of_app, !list_elem_of_fmap.
  split; (intros [(x & ? & ?)|(x & ? & ?)]; [left|right]; by exists x).
Qed.

Lemma NoDup_component_edges (c : Component) :
  NoDup (uid <$> inputs c) → NoDup (uid <$> outputs c) →
  (∀ b, b ∈ inputs c ++ outputs c → uid b ≠ uid c) →
  NoDup (component_edges c).
Proof.
  intros Hin Hout Hne. unfold component_edges. apply NoDup_app.
  split; [|split].
  - apply (NoDup_fmap_1 fst). by rewrite <- list_fmap_compose.
  - intros ij (i & -> & Hi)%list_elem_of_fmap
      (o & [= Hic _] & _)%list_elem_of_fmap.
    apply (Hne i); [|done]. apply elem_of_app. by left.
  - apply (NoDup_fmap_1 snd). by rewrite <- list_fmap_compose.
Qed.

(** X14: [get_edges] derives no edge twice when the components have
    distinct ids, no component lists a bus twice among its inputs or twice
    among its outputs, and no bus carries the id of a component. *)
Theorem get_edges_NoDup (components : list Component) :
  NoDup (uid <$> components) →
  (∀ c, c ∈ components →
     NoDup (uid <$> inputs c) ∧ NoDup (uid <$> outputs c)) →
  (∀ c c' b, c ∈ components → c' ∈ components →
     b ∈ inputs c ++ outputs c → uid b ≠ uid c') →
  NoDup (get_edges components).
Proof.
  rewrite get_edges_concat.
  induction components as [|c cs IH]; intros Hids Hio Hne;
    cbn [fmap list_fmap concat]; [apply NoDup_nil_2|].
  apply NoDup_cons in Hids as [Hc Hids].
  apply NoDup_app. split; [|split].
  - destruct (Hio c) as [Hin Hout]; [apply list_elem_of_here|].
    apply NoDup_component_edges; [done..|].
    intros b Hb. apply (Hne c c b); (done || apply list_elem_of_here).
  - intros ij Hij. rewrite <- get_edges_concat.
    intros (c' & Hc' & Hij')%elem_of_get_edges.
    assert (uid c ≠ uid c') as Hcc'.
    { intros Heq. apply Hc. rewrite Heq. by apply list_elem_of_fmap_2. }
    assert (c ∈ c :: cs) as Hin by apply list_elem_of_here.
    assert (c' ∈ c :: cs) as Hin' by (by apply list_elem_of_further).
    apply component_edges_in in Hij as [(i & Hi & ->)|(o & Ho & ->)];
      apply component_edges_in in Hij'
        as [(i' & Hi' & [= H1 H2])|(o' & Ho' & [= H1 H2])].
    + done.
    + apply (Hne c c' i Hin Hin'); [|done]. apply elem_of_app. by left.
    + apply (Hne c' c i' Hin' Hin); [|done]. apply elem_of_app. by left.
    + done.
  - apply IH; [done|..].
    + intros c' Hc'. by apply Hio, list_elem_of_further.
    + intros c1 c2 b H1 H2. by apply Hne; apply list_elem_of_further.
Qed.

Lemma get_edges_NoDup_witness : NoDup (get_edges (objs_sf ++ objs_schp)).
Proof.
  apply (get_edges_NoDup (objs_sf ++ objs_schp)).
  - apply (bool_decide_unpack _). vm_compute. exact I.
  - intros c Hc. cbn in Hc.
    repeat (apply elem_of_cons in Hc as [->|Hc]);
      [..|by apply elem_of_nil in Hc];
      split; apply (bool_decide_unpack _); vm_compute; exact I.
  - intros c c' b Hc Hc' Hb. cbn in Hc, Hc'.
    repeat (apply elem_of_cons in Hc as [->|Hc]);
      [..|by apply elem_of_nil in Hc];
      repeat (apply elem_of_cons in Hc' as [->|Hc']);
      try (by apply elem_of_nil in Hc');
      cbn in Hb;
      repeat (apply elem_of_cons in Hb as [->|Hb]);
      try (by apply elem_of_nil in Hb);
      discriminate.
Defined.

(** ** The size of a model *)

Lemma indexed_component_prod_size {A B V} `{Countable A} `{Countable B}
    (l : list A) (k : list B) (rule : A * B → result V) (d : gmap (A * B) V) :
  indexed_component (list_prod l k) rule = Ok d →
  NoDup l → NoDup k →
  size d = (length l * length k)%nat.
Proof.
  intros Hd Hl Hk. rewrite (indexed_component_size _ _ _ Hd).
  - apply length_prod.
  - by apply NoDup_list_prod.
Qed.

(** X15: the size of a returned model, all indices being free of
    duplicates: one flow variable per edge and timestep, with investment
    one more variable per edge, and per timestep one constraint for every
    bus, two for every CHP, one for every simple transformer and, with
    investment, one for every edge of a simple transformer. *)
Theorem model_size entities E T inv m :
  opt_model entities E T inv = Returned m →
  NoDup E → NoDup T →
  NoDup (uid <$> ent_buses entities) →
  NoDup (uid <$> ent_s_transformers entities) →
  NoDup (uid <$> ent_s_chps entities) →
  (inv = true → NoDup (get_edges (ent_s_transformers entities))) →
  size (w m) = (length E * length T)%nat
  ∧ (if inv then ∃ d, w_add m = Some d ∧ size d = length E
     else w_add m = None)
  ∧ length (model_constraints m)
    = ((length (ent_buses entities)
        + 2 * length (ent_s_chps entities)
        + length (ent_s_transformers entities)
        + (if inv then length (get_edges (ent_s_transformers entities))
           else 0))
       * length T)%nat.
Proof.
  intros Hm%opt_model_Returned HE HT Hb Ht Hc Hee.
  pose proof (asm_declared _ _ _ _ _ Hm) as Hd.
  pose proof (asm_bus_constr _ _ _ _ _ Hm) as Hbc.
  destruct (asm_chp _ _ _ _ _ Hm) as (Ic & Oc & _ & _ & Hce & Hcp).
  apply po_Constraint_Ok in Hce, Hcp.
  destruct (asm_transformer _ _ _ _ _ Hm) as (It & Ot & etas & _ & _ & _ & Hte).
  apply po_Constraint_Ok in Hte.
  pose proof (asm_w_bound _ _ _ _ _ Hm) as Htw.
  pose proof (dcl_w _ _ _ _ _ Hd) as Hw.
  pose proof (dcl_w_add _ _ _ _ _ Hd) as Hadd.
  rewrite (dcl_buses _ _ _ _ _ Hd) in Hbc.
  rewrite (dcl_s_chps _ _ _ _ _ Hd) in Hce, Hcp.
  rewrite (dcl_s_transformers _ _ _ _ _ Hd) in Hte.
  unfold po_Constraint, po_Var in *.
  split; [by apply (indexed_component_prod_size _ _ _ _ Hw)|]. split.
  - destruct inv; [|exact Hadd]. destruct Hadd as (d & Hdv & Hadd).
    exists d. split; [exact Hadd|].
    by apply (indexed_component_size _ _ _ Hdv).
  - unfold model_constraints.
    rewrite !length_app, !length_fmap, !length_map_to_list.
    rewrite (indexed_component_prod_size _ _ _ _ Hbc Hb HT),
      (indexed_component_prod_size _ _ _ _ Hce Hc HT),
      (indexed_component_prod_size _ _ _ _ Hcp Hc HT),
      (indexed_component_prod_size _ _ _ _ Hte Ht HT), !length_fmap.
    destruct inv.
    + destruct Htw as [Hee' Htw]. rewrite Hee' in Htw.
      rewrite (indexed_component_prod_size _ _ _ _ Htw (Hee eq_refl) HT). lia.
    + rewrite Htw, map_size_empty. lia.
Qed.

Lemma model_size_witness :
  let m := final_model
             (opt_model entities_dict example_edges example_timesteps true) in
  size (w m) = (length example_edges * length example_timesteps)%nat
  ∧ (∃ d, w_add m = Some d ∧ size d = length example_edges)
  ∧ length (model_constraints m)
    = ((length (ent_buses entities_dict)
        + 2 * length (ent_s_chps entities_dict)
        + length (ent_s_transformers entities_dict)
        + length (get_edges (ent_s_transformers entities_dict)))
       * length example_timesteps)%nat.
Proof.
  apply (model_size entities_dict example_edges example_timesteps true).
  - apply is_returned_final. vm_compute. reflexivity.
  - apply (bool_decide_unpack _). vm_compute. exact I.
  - apply (bool_decide_unpack _). vm_compute. exact I.
  - apply (bool_decide_unpack _). vm_compute. exact I.
  - apply (bool_decide_unpack _). vm_compute. exact I.
  - apply (bool_decide_unpack _). vm_compute. exact I.
  - intros _. apply (bool_decide_unpack _). vm_compute. exact I.
Defined.

(** ** With and without investment *)

Lemma indexed_component_agree `{Countable K} {V} (index : list K)
    (rule rule' : K → result V) (d d' : gmap K V) :
  indexed_component index rule = Ok d →
  indexed_component index rule' = Ok d' →
  (∀ k v v', rule k = Ok v → rule' k = Ok v' → v = v') →
  d = d'.
Proof.
  intros Hd Hd' Hagree. apply map_eq. intros k.
  destruct (d !! k) as [v|] eqn:Hk.
  - apply (indexed_component_lookup _ _ _ _ _ Hd) in Hk as [Hin Hv].
    destruct (indexed_component_elem _ _ _ _ Hd' Hin) as (v' & Hv' & ->).
    by rewrite (Hagree k v v' Hv Hv').
  - apply (indexed_component_lookup_None _ _ _ _ Hd) in Hk.
    symmetry. by apply (indexed_component_lookup_None _ _ _ _ Hd').
Qed.

(** X16: the investment flag leaves the balance and conversion
    constraints and the objective as they are: the models returned for the
    same input with and without investment have the same bus, CHP and
    transformer constraints, the same objective and the same flow
    variables; they differ in the bounds, in [w_add] and in the capacity
    constraints only. *)
Theorem investment_keeps_the_constraints entities E T m m' :
  opt_model entities E T false = Returned m →
  opt_model entities E T true = Returned m' →
  bus_constr m' = bus_constr m
  ∧ s_chp_eta_constr m' = s_chp_eta_constr m
  ∧ s_chp_pth_constr m' = s_chp_pth_constr m
  ∧ s_transformer_eta_constr m' = s_transformer_eta_constr m
  ∧ objective m' = objective m
  ∧ (∀ k, is_Some (w m' !! k) ↔ is_Some (w m !! k)).
Proof.
  intros Hm%opt_model_Returned Hm'%opt_model_Returned.
  pose proof (asm_declared _ _ _ _ _ Hm) as Hd.
  pose proof (asm_declared _ _ _ _ _ Hm') as Hd'.
  pose proof (asm_bus_constr _ _ _ _ _ Hm) as Hb.
  pose proof (asm_bus_constr _ _ _ _ _ Hm') as Hb'.
  destruct (asm_chp _ _ _ _ _ Hm) as (Ic & Oc & HIc & HOc & Hce & Hcp).
  apply po_Constraint_Ok in Hce, Hcp.
  destruct (asm_chp _ _ _ _ _ Hm') as (Ic' & Oc' & HIc' & HOc' & Hce' & Hcp').
  apply po_Constraint_Ok in Hce', Hcp'.
  destruct (asm_transformer _ _ _ _ _ Hm)
    as (It & Ot & etas & HIt & HOt & Hetas & Hte).
  apply po_Constraint_Ok in Hte.
  destruct (asm_transformer _ _ _ _ _ Hm')
    as (It' & Ot' & etas' & HIt' & HOt' & Hetas' & Hte').
  apply po_Constraint_Ok in Hte'.
  rewrite HIc in HIc'. rewrite HOc in HOc'. rewrite HIt in HIt'.
  rewrite HOt in HOt'. rewrite Hetas in Hetas'.
  injection HIc' as <-. injection HOc' as <-. injection HIt' as <-.
  injection HOt' as <-. injection Hetas' as <-.
  rewrite (dcl_buses _ _ _ _ _ Hd') in Hb'.
  rewrite (dcl_buses _ _ _ _ _ Hd) in Hb.
  rewrite (dcl_s_chps _ _ _ _ _ Hd') in Hce', Hcp'.
  rewrite (dcl_s_chps _ _ _ _ _ Hd) in Hce, Hcp.
  rewrite (dcl_s_transformers _ _ _ _ _ Hd') in Hte'.
  rewrite (dcl_s_transformers _ _ _ _ _ Hd) in Hte.
  apply po_Constraint_Ok in Hb, Hb'.
  split; [|split; [|split; [|split; [|split]]]].
  - apply (indexed_component_agree _ _ _ _ _ Hb' Hb).
    intros [e t] c c' [-> _]%bus_rule_Ok_inv [-> _]%bus_rule_Ok_inv.
    by rewrite (dcl_edges _ _ _ _ _ Hd), (dcl_edges _ _ _ _ _ Hd').
  - apply (indexed_component_agree _ _ _ _ _ Hce' Hce).
    intros [e t] c c'
      (i & os & Hi & Hos & _ & _ & ->)%chp_eta_rule_Ok_inv
      (i' & os' & Hi' & Hos' & _ & _ & ->)%chp_eta_rule_Ok_inv.
    congruence.
  - apply (indexed_component_agree _ _ _ _ _ Hcp' Hcp).
    intros [e t] c c'
      (os & p & h & Hos & Hp & Hh & _ & _ & ->)%power_to_heat_rule_Ok_inv
      (os' & p' & h' & Hos' & Hp' & Hh' & _ & _ & ->)%power_to_heat_rule_Ok_inv.
    congruence.
  - apply (indexed_component_agree _ _ _ _ _ Hte' Hte).
    intros [e t] c c'
      (i & o & η & Hi & Ho & Hη & _ & _ & ->)%transformer_eta_rule_Ok_inv
      (i' & o' & η' & Hi' & Ho' & Hη' & _ & _ & ->)%transformer_eta_rule_Ok_inv.
    congruence.
  - destruct (asm_objective _ _ _ _ _ Hm) as (obj & Hrule & ->).
    destruct (asm_objective _ _ _ _ _ Hm') as (obj' & Hrule' & ->).
    rewrite (obj_rule_Ok _ _ _ _ _ Hd) in Hrule.
    rewrite (obj_rule_Ok _ _ _ _ _ Hd') in Hrule'. congruence.
  - intros [[i j] t]. split.
    + intros [Hij Ht]%(returned_w_inv Hm'). by apply (declared_w_is_Some Hd).
    + intros [Hij Ht]%(returned_w_inv Hm). by apply (declared_w_is_Some Hd').
Qed.

Lemma investment_keeps_the_constraints_witness :
  let m := final_model
             (opt_model entities_dict example_edges example_timesteps false) in
  let m' := final_model
              (opt_model entities_dict example_edges example_timesteps true) in
  bus_constr m' = bus_constr m
  ∧ s_chp_eta_constr m' = s_chp_eta_constr m
  ∧ s_chp_pth_constr m' = s_chp_pth_constr m
  ∧ s_transformer_eta_constr m' = s_transformer_eta_constr m
  ∧ objective m' = objective m
  ∧ (∀ k, is_Some (w m' !! k) ↔ is_Some (w m !! k)).
Proof.
  apply (investment_keeps_the_constraints entities_dict example_edges
           example_timesteps).
  - apply is_returned_final. vm_compute. reflexivity.
  - apply is_returned_final. vm_compute. reflexivity.
Defined.

(** ** Solutions *)

Lemma Qsum_zero_inv (l : list Q) :
  (∀ x, x ∈ l → (0 <= x)%Q) → (Qsum l == 0)%Q → ∀ x, x ∈ l → (x == 0)%Q.
Proof.
  induction l as [|y l IH]; intros Hall Hsum x Hx; cbn [Qsum] in Hsum.
  - by apply elem_of_nil in Hx.
  - assert (0 <= y)%Q as Hy by apply Hall, list_elem_of_here.
    assert (0 <= Qsum l)%Q as Hl.
    { apply Qsum_nonneg. intros z Hz. by apply Hall, list_elem_of_further. }
    apply elem_of_cons in Hx as [->|Hx]; [lra|].
    apply IH; [|lra|done].
    intros z Hz. by apply Hall, list_elem_of_further.
Qed.

Section feasible.
Context {entities : Entities} {E : list edge} {T : list Z} {inv : bool}
        {m : Model} (Hm : assembled entities E T inv m)
        (ρ : valuation) (Hsat : satisfies ρ m) (Hbd : within_bounds ρ m).

Lemma feasible_nonneg i j t : (i, j) ∈ E → t ∈ T → (0 <= ρ (W i j t))%Q.
Proof.
  intros Hij Ht. pose proof (asm_declared _ _ _ _ _ Hm) as Hd.
  destruct (declared_w_is_Some Hd i j t Hij Ht) as [v Hv].
  destruct Hbd as [Hw _]. destruct (Hw _ _ _ _ Hv) as [Hlb _].
  apply (declared_w Hd) in Hv as [_ ->]. clear -Hlb. by destruct inv.
Qed.

Lemma feasible_bus_balance b t :
  b ∈ ent_buses entities → t ∈ T →
  (flow ρ t (edges_into (uid b) E) == flow ρ t (edges_from (uid b) E))%Q.
Proof.
  intros Hb Ht. pose proof (asm_declared _ _ _ _ _ Hm) as Hd.
  pose proof (asm_bus_constr _ _ _ _ _ Hm) as Hbc.
  rewrite (dcl_buses _ _ _ _ _ Hd) in Hbc. apply po_Constraint_Ok in Hbc.
  destruct (indexed_component_elem _ _ _ (uid b, t) Hbc) as (c & _ & Hc).
  { apply elem_of_list_prod. split; [by apply list_elem_of_fmap_2|done]. }
  assert (holds ρ c) as Hh.
  { apply Hsat, elem_of_model_constraints. left. by exists (uid b, t). }
  apply (returned_bus_entry Hm) in Hc as (_ & _ & ->).
  cbn [holds eval] in Hh. rewrite !eval_flow_terms in Hh. lra.
Qed.

Lemma flow_zero_inv t l :
  l ⊆ E → t ∈ T → (flow ρ t l == 0)%Q →
  ∀ i j, (i, j) ∈ l → (ρ (W i j t) == 0)%Q.
Proof.
  intros Hl Ht Hz i j Hij. unfold flow in Hz.
  apply (Qsum_zero_inv _) with (x := ρ (W i j t)) in Hz; [done| |].
  - intros x ([i' j'] & -> & Hin)%list_elem_of_fmap.
    by apply feasible_nonneg; [apply Hl|].
  - by apply (list_elem_of_fmap_2 (λ ij : edge, ρ (W ij.1 ij.2 t)) _ (i, j)).
Qed.
End feasible.

(** X17: in a solution of a returned model (all constraints hold, all
    variables within their bounds) a bus that no edge enters passes
    nothing on, and a bus that no edge leaves receives nothing: the flow
    on each of its edges is 0 at every timestep. The model has no source
    or sink other than the flow variables themselves. *)
Theorem unfed_bus_passes_nothing entities E T inv m ρ :
  opt_model entities E T inv = Returned m →
  satisfies ρ m → within_bounds ρ m →
  ∀ b t, b ∈ ent_buses entities → t ∈ T →
    (edges_into (uid b) E = [] →
       ∀ i j, (i, j) ∈ edges_from (uid b) E → (ρ (W i j t) == 0)%Q)
    ∧ (edges_from (uid b) E = [] →
       ∀ i j, (i, j) ∈ edges_into (uid b) E → (ρ (W i j t) == 0)%Q).
Proof.
  intros Hm%opt_model_Returned Hsat Hbd b t Hb Ht.
  pose proof (feasible_bus_balance Hm ρ Hsat b t Hb Ht) as Hbal.
  split; intros Hnil; rewrite Hnil in Hbal; cbn in Hbal.
  - apply (flow_zero_inv Hm ρ Hbd); [|done|by symmetry].
    intros ij Hij. unfold edges_from in Hij.
    by apply list_elem_of_filter in Hij as [_ ?].
  - apply (flow_zero_inv Hm ρ Hbd); [|done|done].
    intros ij Hij. unfold edges_into in Hij.
    by apply list_elem_of_filter in Hij as [_ ?].
Qed.

Lemma unfed_bus_passes_nothing_witness :
  let ρ : valuation := λ _, 0%Q in
  (edges_into "b1" example_edges = [] →
     ∀ i j, (i, j) ∈ edges_from "b1" example_edges → (ρ (W i j 0) == 0)%Q)
  ∧ (edges_from "b1" example_edges = [] →
     ∀ i j, (i, j) ∈ edges_into "b1" example_edges → (ρ (W i j 0) == 0)%Q).
Proof.
  assert (opt_model entities_dict example_edges example_timesteps false
          = Returned (final_model (opt_model entities_dict example_edges
                                             example_timesteps false)))
    as Hret by (apply is_returned_final; vm_compute; reflexivity).
  destruct (assembled_zero_flow _ _ _ _ _ (opt_model_Returned _ _ _ _ _ Hret))
    as (Hsat & Hbd & _).
  apply (unfed_bus_passes_nothing entities_dict example_edges
           example_timesteps false _ (λ _, 0%Q) Hret Hsat Hbd bus1 0%Z).
  - apply list_elem_of_here.
  - apply list_elem_of_here.
Defined.

(** ** What went wrong when the builder raises *)

Lemma dict_comprehension_key `{Countable K} {A V} (key : A → K)
    (value : A → result V) (l : list A) (d : gmap K V) (k : K) :
  dict_comprehension key value l = Ok d → k ∈ key <$> l →
  ∃ x v, x ∈ l ∧ key x = k ∧ value x = Ok v ∧ d !! k = Some v.
Proof.
  intros Hd Hk. destruct (d !! k) as [v|] eqn:Hl.
  - destruct (dict_comprehension_lookup_Some _ _ _ _ _ _ Hd Hl)
      as (x & Hx & Hkx & Hv).
    by exists x, v.
  - by apply (dict_comprehension_lookup_None _ _ _ _ _ Hd) in Hl.
Qed.

Lemma py_index_Raise_length {A} (l : list A) (n : nat) (e : exn) :
  py_index l n = Raise e → e = IndexError ∧ (length l ≤ n)%nat.
Proof.
  unfold py_index. destruct (l !! n) eqn:Hl; [discriminate|].
  intros [= <-]. split; [reflexivity|]. by apply lookup_ge_None.
Qed.

Lemma input_edge (c : Component) (i : Bus) :
  inputs c !! 0%nat = Some i → (uid i, uid c) ∈ component_edges c.
Proof.
  intros Hi%list_elem_of_lookup_2. apply elem_of_app. left.
  by apply (list_elem_of_fmap_2 (λ i, (uid i, uid c))).
Qed.

Lemma output_edge (c : Component) (o : Bus) :
  o ∈ outputs c → (uid c, uid o) ∈ component_edges c.
Proof.
  intros Ho. apply elem_of_app. right.
  by apply (list_elem_of_fmap_2 (λ o, (uid c, uid o))).
Qed.

Section causes.
Context {entities : Entities} {E : list edge} {T : list Z} {inv : bool}
        {m : Model} (Hd : declared entities E T inv m).

Lemma w_getitem_Raise_edge i j t e :
  t ∈ T → w_getitem m i j t = Raise e → e = KeyError ∧ (i, j) ∉ E.
Proof.
  intros Ht Hr. split; [by apply w_getitem_Raise in Hr|].
  intros Hij. by rewrite (declared_w_getitem Hd _ _ _ Hij Ht) in Hr.
Qed.

Lemma chp_eta_rule_Raise_edge I_ O_ k t e :
  dict_comprehension uid (λ t, uid <$> py_index (inputs t) 0)
                     (ent_s_chps entities) = Ok I_ →
  dict_comprehension uid (λ t, mret (uid <$> outputs t))
                     (ent_s_chps entities) = Ok O_ →
  k ∈ uid <$> ent_s_chps entities → t ∈ T →
  chp_eta_rule I_ O_ m (k, t) = Raise e →
  e = KeyError
  ∧ ∃ c ij, c ∈ ent_s_chps entities ∧ ij ∈ component_edges c ∧ ij ∉ E.
Proof.
  intros HI HO Hk Ht Hr.
  destruct (dict_comprehension_key _ _ _ _ _ HI Hk)
    as (c & ui & Hc & Hkc & (i & Hi & ->)%fmap_py_index_Ok & HIk).
  destruct (dict_comprehension_key _ _ _ _ _ HO Hk)
    as (c' & os & Hc' & Hkc' & [= <-] & HOk).
  unfold chp_eta_rule in Hr. rewrite (getitem_Some _ _ _ HIk) in Hr.
  apply bind_Raise in Hr as [Hr|(? & [= <-] & Hr)]; [discriminate|].
  apply bind_Raise in Hr as [[-> Hr]%(w_getitem_Raise_edge _ _ _ _ Ht)
                            |(win & _ & Hr)].
  { split; [reflexivity|]. exists c, (uid i, k).
    rewrite <- Hkc in Hr |- *. by split; [|split; [apply input_edge|]]. }
  rewrite (getitem_Some _ _ _ HOk) in Hr.
  apply bind_Raise in Hr as [Hr|(? & [= <-] & Hr)]; [discriminate|].
  apply bind_Raise in Hr as [Hr|(wouts & _ & Hr)]; [|discriminate].
  apply mapM_Raise_elem in Hr
    as (o & (b & -> & Hb)%list_elem_of_fmap
        & [-> Hr]%(w_getitem_Raise_edge _ _ _ _ Ht)).
  split; [reflexivity|]. exists c', (k, uid b).
  rewrite <- Hkc' in Hr |- *. by split; [|split; [apply output_edge|]].
Qed.

Lemma power_to_heat_rule_Raise_cause O_ k t e :
  dict_comprehension uid (λ t, mret (uid <$> outputs t))
                     (ent_s_chps entities) = Ok O_ →
  k ∈ uid <$> ent_s_chps entities → t ∈ T →
  power_to_heat_rule O_ m (k, t) = Raise e →
  (e = IndexError
   ∧ ∃ c, c ∈ ent_s_chps entities ∧ (length (outputs c) < 2)%nat)
  ∨ (e = KeyError
     ∧ ∃ c ij, c ∈ ent_s_chps entities ∧ ij ∈ component_edges c ∧ ij ∉ E).
Proof.
  intros HO Hk Ht Hr.
  destruct (dict_comprehension_key _ _ _ _ _ HO Hk)
    as (c & os & Hc & Hkc & [= <-] & HOk).
  unfold power_to_heat_rule in Hr. rewrite !(getitem_Some _ _ _ HOk) in Hr.
  apply bind_Raise in Hr as [Hr|(? & [= <-] & Hr)]; [discriminate|].
  apply bind_Raise in Hr as [[-> Hr]%py_index_Raise_length|(power & Hp & Hr)].
  { left. split; [reflexivity|]. exists c. split; [done|].
    rewrite length_fmap in Hr. lia. }
  apply py_index_Ok, list_lookup_fmap_Some in Hp as (bp & -> & Hbp).
  apply bind_Raise in Hr as [[-> Hr]%(w_getitem_Raise_edge _ _ _ _ Ht)
                            |(wp & _ & Hr)].
  { right. split; [reflexivity|]. exists c, (k, uid bp).
    rewrite <- Hkc in Hr |- *. split; [done|]. split; [|done].
    by apply list_elem_of_lookup_2, output_edge in Hbp. }
  apply bind_Raise in Hr as [Hr|(? & [= <-] & Hr)]; [discriminate|].
  apply bind_Raise in Hr as [[-> Hr]%py_index_Raise_length|(heat & Hh & Hr)].
  { left. split; [reflexivity|]. exists c. split; [done|].
    rewrite length_fmap in Hr. lia. }
  apply py_index_Ok, list_lookup_fmap_Some in Hh as (bh & -> & Hbh).
  apply bind_Raise in Hr as [[-> Hr]%(w_getitem_Raise_edge _ _ _ _ Ht)
                            |(wh & _ & Hr)]; [|discriminate].
  right. split; [reflexivity|]. exists c, (k, uid bh).
  rewrite <- Hkc in Hr |- *. split; [done|]. split; [|done].
  by apply list_elem_of_lookup_2, output_edge in Hbh.
Qed.

Lemma transformer_eta_rule_Raise_edge I_ O_ etas k t e :
  dict_comprehension uid (λ t, uid <$> py_index (inputs t) 0)
                     (ent_s_transformers entities) = Ok I_ →
  dict_comprehension uid (λ t, uid <$> py_index (outputs t) 0)
                     (ent_s_transformers entities) = Ok O_ →
  dict_comprehension uid getattr_eta (ent_s_transformers entities)
  = Ok etas →
  k ∈ uid <$> ent_s_transformers entities → t ∈ T →
  transformer_eta_rule I_ O_ etas m (k, t) = Raise e →
  e = KeyError
  ∧ ∃ c ij, c ∈ ent_s_transformers entities ∧ ij ∈ component_edges c
            ∧ ij ∉ E.
Proof.
  intros HI HO Hη Hk Ht Hr.
  destruct (dict_comprehension_key _ _ _ _ _ HI Hk)
    as (c & ui & Hc & Hkc & (i & Hi & ->)%fmap_py_index_Ok & HIk).
  destruct (dict_comprehension_key _ _ _ _ _ HO Hk)
    as (c' & uo & Hc' & Hkc' & (o & Ho & ->)%fmap_py_index_Ok & HOk).
  destruct (dict_comprehension_key _ _ _ _ _ Hη Hk)
    as (c'' & η & _ & _ & _ & Hηk).
  unfold transformer_eta_rule in Hr.
  rewrite (getitem_Some _ _ _ HIk), (getitem_Some _ _ _ HOk),
    (getitem_Some _ _ _ Hηk) in Hr.
  apply bind_Raise in Hr as [Hr|(? & [= <-] & Hr)]; [discriminate|].
  apply bind_Raise in Hr as [[-> Hr]%(w_getitem_Raise_edge _ _ _ _ Ht)
                            |(win & _ & Hr)].
  { split; [reflexivity|]. exists c, (uid i, k).
    rewrite <- Hkc in Hr |- *. by split; [|split; [apply input_edge|]]. }
  apply bind_Raise in Hr as [Hr|(? & [= <-] & Hr)]; [discriminate|].
  apply bind_Raise in Hr as [Hr|(? & [= <-] & Hr)]; [discriminate|].
  apply bind_Raise in Hr as [[-> Hr]%(w_getitem_Raise_edge _ _ _ _ Ht)
                            |(wout & _ & Hr)]; [|discriminate].
  split; [reflexivity|]. exists c', (k, uid o).
  rewrite <- Hkc' in Hr |- *. split; [done|]. split; [|done].
  by apply list_elem_of_lookup_2, output_edge in Ho.
Qed.
End causes.

Lemma w_bound_investment_Raise_edge entities E T m i j t e :
  declared entities E T true m →
  (i, j) ∈ get_edges (ent_s_transformers entities) → t ∈ T →
  w_bound_investment m ((i, j), t) = Raise e →
  e = KeyError
  ∧ ∃ c ij, c ∈ ent_s_transformers entities ∧ ij ∈ component_edges c
            ∧ ij ∉ E.
Proof.
  intros Hd (c & Hc & Hij)%elem_of_get_edges Ht Hr.
  unfold w_bound_investment in Hr.
  apply bind_Raise in Hr as [[-> Hr]%(w_getitem_Raise_edge Hd _ _ _ _ Ht)
                            |(wijt & [_ [HE _]]%(declared_w_getitem_inv Hd)
                              & Hr)].
  { split; [reflexivity|]. by exists c, (i, j). }
  rewrite (getitem_Some _ _ _ (declared_w_max_elem Hd _ _ HE)) in Hr.
  apply bind_Raise in Hr as [Hr|(? & [= <-] & Hr)]; [discriminate|].
  destruct (dcl_w_add _ _ _ _ _ Hd) as (d & Hdv & Hadd).
  unfold po_Var, var_rule in Hdv.
  destruct (indexed_component_elem _ _ _ (i, j) Hdv HE) as (v & _ & Hv).
  unfold w_add_getitem in Hr. rewrite Hadd, (getitem_Some _ _ _ Hv) in Hr.
  discriminate.
Qed.

Lemma simple_chp_model_Raised_defect entities E T inv m e partial :
  declared entities E T inv m →
  simple_chp_model entities m = Raised e partial →
  defect entities E e.
Proof.
  intros Hd. unfold simple_chp_model.
  assert (∀ e : exn,
            e = KeyError
            ∧ (∃ c ij, c ∈ ent_s_chps entities ∧ ij ∈ component_edges c
                       ∧ ij ∉ E) →
            defect entities E e) as Hkey.
  { intros ? (-> & c & ij & Hc & Hij & HE). exists c, ij.
    split; [|done]. apply elem_of_app. by right. }
  destruct (dict_comprehension _ _ _ ≫= _) as [[I_ O_]|e'] eqn:Hdict.
  - apply bind_Ok in Hdict as (I' & HI & (O' & HO & [= -> ->])%bind_Ok).
    unfold and_then, attach.
    rewrite (dcl_s_chps _ _ _ _ _ Hd), (dcl_timesteps _ _ _ _ _ Hd).
    destruct (indexed_component _ (constraint_rule (chp_eta_rule I_ O_ m)))
      as [ce|e1] eqn:Hce.
    + change (s_chps (set_s_chp_eta_constr ce m)) with (s_chps m).
      change (timesteps (set_s_chp_eta_constr ce m)) with (timesteps m).
      rewrite (dcl_s_chps _ _ _ _ _ Hd), (dcl_timesteps _ _ _ _ _ Hd).
      destruct (indexed_component _
                  (constraint_rule (power_to_heat_rule O_ _)))
        as [cp|e2] eqn:Hcp; [discriminate|].
      intros [= <- <-].
      apply po_Constraint_Raise_rule in Hcp
        as ([k t] & [Hk Ht]%elem_of_list_prod & Hr);
        [|apply power_to_heat_rule_vars].
      assert (declared entities E T inv (set_s_chp_eta_constr ce m)) as Hd'
        by (by apply (declared_env _ _ _ _ m)).
      apply (power_to_heat_rule_Raise_cause Hd' _ _ _ _ HO Hk Ht) in Hr
        as [(-> & c & Hc & Hlen)|Hr]; [|by apply Hkey].
      right. exists c. auto.
    + intros [= <- <-].
      apply po_Constraint_Raise_rule in Hce
        as ([k t] & [Hk Ht]%elem_of_list_prod & Hr);
        [|apply chp_eta_rule_vars].
      apply (chp_eta_rule_Raise_edge Hd _ _ _ _ _ HI HO Hk Ht) in Hr.
      by apply Hkey.
  - intros [= <- <-].
    apply bind_Raise in Hdict
      as [Hr|(I_ & _ & [Hr|(O_ & _ & Hr)]%bind_Raise)].
    + apply dict_comprehension_Raise in Hr as (c & Hc & Hr).
      unfold fmap, result_fmap in Hr.
      destruct (py_index (inputs c) 0) eqn:Hi; [discriminate|].
      injection Hr as <-.
      apply py_index_Raise_length in Hi as [-> Hlen].
      right. exists c. split; [done|]. left.
      destruct (inputs c); [done|cbn in Hlen; lia].
    + apply dict_comprehension_Raise in Hr as (c & _ & Hr). discriminate Hr.
    + discriminate Hr.
Qed.

Lemma simple_transformer_model_Raised_defect entities E T inv m e partial :
  declared entities E T inv m →
  simple_transformer_model entities m = Raised e partial →
  defect entities E e.
Proof.
  intros Hd. unfold simple_transformer_model.
  assert (∀ e : exn,
            e = KeyError
            ∧ (∃ c ij, c ∈ ent_s_transformers entities
                       ∧ ij ∈ component_edges c ∧ ij ∉ E) →
            defect entities E e) as Hkey.
  { intros ? (-> & c & ij & Hc & Hij & HE). exists c, ij.
    split; [|done]. apply elem_of_app. by left. }
  assert (∀ (f : Component → list Bus) c e,
            c ∈ ent_s_transformers entities →
            uid <$> py_index (f c) 0 = Raise e →
            e = IndexError ∧ f c = []) as Hshape.
  { intros f c x Hc Hr. unfold fmap, result_fmap in Hr.
    destruct (py_index (f c) 0) eqn:Hi; [discriminate|].
    injection Hr as <-. apply py_index_Raise_length in Hi as [-> Hlen].
    split; [reflexivity|]. destruct (f c); [done|cbn in Hlen; lia]. }
  destruct (dict_comprehension _ _ _ ≫= _) as [[[I_ O_] etas]|e'] eqn:Hdict.
  - apply bind_Ok in Hdict
      as (I' & HI & (O' & HO & (η' & Hη & [= -> -> ->])%bind_Ok)%bind_Ok).
    unfold and_then, attach.
    rewrite (dcl_s_transformers _ _ _ _ _ Hd), (dcl_timesteps _ _ _ _ _ Hd).
    destruct (indexed_component _
                (constraint_rule (transformer_eta_rule I_ O_ etas m)))
      as [te|e1] eqn:Hte.
    + change (invest (set_s_transformer_eta_constr te m)) with (invest m).
      rewrite (dcl_invest _ _ _ _ _ Hd).
      destruct inv; [|discriminate]. cbv zeta.
      set (m1 := set_ee (get_edges (ent_s_transformers entities))
                        (set_s_transformer_eta_constr te m)).
      assert (declared entities E T true m1) as Hd1
        by (by apply (declared_env _ _ _ _ m)).
      change (ee m1) with (get_edges (ent_s_transformers entities)).
      change (timesteps m1) with (timesteps m).
      rewrite (dcl_timesteps _ _ _ _ _ Hd).
      destruct (indexed_component _ (constraint_rule (w_bound_investment m1)))
        as [tw|e2] eqn:Htw; [discriminate|].
      intros [= <- <-].
      apply po_Constraint_Raise_rule in Htw
        as ([[i j] t] & [Hij Ht]%elem_of_list_prod & Hr);
        [|apply w_bound_investment_vars].
      apply (w_bound_investment_Raise_edge _ _ _ _ _ _ _ _ Hd1 Hij Ht) in Hr.
      by apply Hkey.
    + intros [= <- <-].
      apply po_Constraint_Raise_rule in Hte
        as ([k t] & [Hk Ht]%elem_of_list_prod & Hr);
        [|apply transformer_eta_rule_vars].
      apply (transformer_eta_rule_Raise_edge Hd _ _ _ _ _ _ HI HO Hη Hk Ht)
        in Hr.
      by apply Hkey.
  - intros [= <- <-].
    apply bind_Raise in Hdict as [Hr|(I_ & _ & [Hr|(O_ & _
      & [Hr|(etas & _ & Hr)]%bind_Raise)]%bind_Raise)].
    + apply dict_comprehension_Raise in Hr as (c & Hc & Hr).
      apply (Hshape inputs) in Hr as [-> Hnil]; [|done].
      left. exists c. auto.
    + apply dict_comprehension_Raise in Hr as (c & Hc & Hr).
      apply (Hshape outputs) in Hr as [-> Hnil]; [|done].
      left. exists c. auto.
    + apply dict_comprehension_Raise in Hr as (c & Hc & Hr).
      unfold getattr_eta in Hr. destruct (eta c) eqn:Hη; [discriminate|].
      injection Hr as <-. by exists c.
    + discriminate Hr.
Qed.

(** X18: the exception [opt_model] raises tells what is wrong with its
    input. The library's [InvalidConstraintError] means that a bus has no
    edge; an [IndexError] that a simple transformer has no input or no
    output, or a CHP no input or fewer than two outputs; an
    [AttributeError] that a simple transformer has no [eta]; a [KeyError]
    that an edge of a component, from one of its inputs or to one of its
    outputs, is not among the edges. Nothing else is raised. *)
Theorem exception_tells_the_defect entities E T inv e partial :
  opt_model entities E T inv = Raised e partial →
  defect entities E e.
Proof.
  unfold opt_model, add_components.
  destruct (declare_variables_new_model entities E T inv)
    as (m1 & -> & Hd1 & _).
  cbn [and_then]. unfold attach at 1.
  destruct (indexed_component _ (constraint_rule (bus_rule m1)))
    as [bc|e1] eqn:Hbc; cbn [and_then].
  2:{ intros [= <- <-].
      by apply (bus_constr_Raise _ _ _ _ _ _ Hd1) in Hbc as (-> & _ & Hb). }
  set (m2 := set_bus_constr bc m1).
  assert (declared entities E T inv m2) as Hd2
    by (by apply (declared_env _ _ _ _ m1)).
  pose proof (simple_chp_model_frame entities m2) as Hf2.
  destruct (simple_chp_model entities m2) as [m3|e3 p3] eqn:Hchp;
    cbn [and_then final_model] in *.
  - pose proof (same_base_declared _ _ _ _ _ _ Hf2 Hd2) as Hd3.
    pose proof (simple_transformer_model_frame entities m3) as Hf3.
    destruct (simple_transformer_model entities m3) as [m4|e4 p4] eqn:Htr;
      cbn [and_then final_model] in *.
    + unfold objective_model, assign.
      rewrite (obj_rule_Ok _ _ _ _ _ (same_base_declared _ _ _ _ _ _ Hf3 Hd3)).
      discriminate.
    + intros [= <- <-].
      by apply (simple_transformer_model_Raised_defect _ _ _ _ _ _ _ Hd3) in Htr.
  - intros [= <- <-].
    by apply (simple_chp_model_Raised_defect _ _ _ _ _ _ _ Hd2) in Hchp.
Qed.

Lemma is_raised_final (o : outcome) (e : exn) :
  raised_exn o = Some e → o = Raised e (final_model o).
Proof. destruct o as [m|e' p]; [discriminate|]. by intros [= ->]. Qed.

Lemma exception_tells_the_defect_witness :
  ∃ c ij, c ∈ ent_s_transformers entities_dict ++ ent_s_chps entities_dict
          ∧ ij ∈ component_edges c ∧ ij ∉ short_edges.
Proof.
  apply (exception_tells_the_defect entities_dict short_edges
           example_timesteps false KeyError
           (final_model (opt_model entities_dict short_edges
                                   example_timesteps false))).
  apply is_raised_final. vm_compute. reflexivity.
Defined.

(** ** Investment and the objective *)

Lemma eval_ext (ρ ρ' : valuation) (e : expr) :
  (∀ v, v ∈ expr_vars e → ρ' v = ρ v) → eval ρ' e = eval ρ e.
Proof.
  induction e as [q|v|a IHa b IHb|a IHa|a IHa b IHb|a IHa b IHb];
    intros Hv; cbn [eval expr_vars] in *.
  - reflexivity.
  - apply Hv, list_elem_of_here.
  - rewrite IHa, IHb; [done|intros v ?; apply Hv, elem_of_app; auto..].
  - by rewrite IHa.
  - rewrite IHa, IHb; [done|intros v ?; apply Hv, elem_of_app; auto..].
  - rewrite IHa, IHb; [done|intros v ?; apply Hv, elem_of_app; auto..].
Qed.

Lemma eval_flow_ext (ρ ρ' : valuation) (e : expr) :
  (∀ i j t, ρ' (W i j t) = ρ (W i j t)) →
  (∀ v, v ∈ expr_vars e → flow_var v) →
  eval ρ' e = eval ρ e.
Proof.
  intros Hw Hflow. apply eval_ext. intros v Hv.
  specialize (Hflow v Hv). destruct v; [apply Hw|done].
Qed.

(** X19: extra capacity costs nothing. In a model returned with
    investment, a solution stays a solution, with the same objective
    value, when the values of the variables [w_add] are raised and the
    flows are left as they are: [w_add] occurs in the capacity constraints
    only, has no upper bound and is not part of the objective. *)
Theorem investment_is_free entities E T m ρ ρ' :
  opt_model entities E T true = Returned m →
  satisfies ρ m → within_bounds ρ m →
  (∀ i j t, ρ' (W i j t) = ρ (W i j t)) →
  (∀ i j, (ρ (W_add i j) <= ρ' (W_add i j))%Q) →
  satisfies ρ' m ∧ within_bounds ρ' m
  ∧ ∀ obj, objective m = Some obj → eval ρ' obj = eval ρ obj.
Proof.
  intros Hm%opt_model_Returned Hsat Hbd Hw Hadd.
  pose proof (asm_declared _ _ _ _ _ Hm) as Hd.
  assert (∀ c, c ∈ model_constraints m →
            (∀ v, v ∈ constraint_vars c → flow_var v) →
            holds ρ' c) as Hsame.
  { intros c Hc Hflow. specialize (Hsat c Hc).
    destruct c as [a b|a b]; cbn [holds constraint_vars] in *;
      rewrite !(eval_flow_ext ρ ρ'); try done;
      intros v Hv; apply Hflow, elem_of_app; auto. }
  split; [|split].
  - intros c Hc. pose proof Hc as Hc'.
    apply elem_of_model_constraints in Hc'
      as [[[e t] Hk]|[[[e t] Hk]|[[[e t] Hk]|[[[e t] Hk]|[[[i j] t] Hk]]]]].
    + apply (Hsame c Hc). apply (returned_bus_entry Hm) in Hk as (_ & _ & ->).
      intros v Hv. cbn [constraint_vars expr_vars] in Hv.
      rewrite !app_nil_l, app_nil_r in Hv. unfold flow_terms in Hv.
      by apply elem_of_app in Hv
        as [([i j] & _ & ->)%(expr_vars_sum_of_vars
                                (λ ij : edge, W ij.1 ij.2 t))
           |([i j] & _ & ->)%(expr_vars_sum_of_vars
                                (λ ij : edge, W ij.1 ij.2 t))].
    + apply (Hsame c Hc).
      apply (returned_chp_eta_entry Hm) in Hk as (i & os & _ & _ & _ & ->).
      intros v Hv. cbn [constraint_vars expr_vars] in Hv.
      rewrite !app_nil_l, !app_nil_r in Hv.
      by apply elem_of_cons in Hv
        as [->|(o & _ & ->)%(expr_vars_sum_of_vars (λ o, W e o t))].
    + apply (Hsame c Hc).
      apply (returned_chp_pth_entry Hm) in Hk as (p & h & _ & _ & _ & ->).
      intros v Hv. cbn [constraint_vars expr_vars app] in Hv.
      apply elem_of_cons in Hv as [->|Hv]; [done|].
      apply elem_of_cons in Hv as [->|Hv]; [done|].
      by apply elem_of_nil in Hv.
    + apply (Hsame c Hc).
      apply (returned_transformer_entry Hm) in Hk
        as (i & o & η & _ & _ & _ & ->).
      intros v Hv. cbn [constraint_vars expr_vars app] in Hv.
      apply elem_of_cons in Hv as [->|Hv]; [done|].
      apply elem_of_cons in Hv as [->|Hv]; [done|].
      by apply elem_of_nil in Hv.
    + specialize (Hsat c Hc).
      apply (returned_w_bound_entry Hm) in Hk as (_ & _ & _ & _ & ->).
      cbn [holds eval] in *. rewrite Hw. specialize (Hadd i j). lra.
  - destruct Hbd as [Hbw Hba]. split.
    + intros i j t v Hv. rewrite Hw. by apply Hbw.
    + intros d i j v Hwadd Hv. destruct (Hba d i j v Hwadd Hv) as [Hlb Hub].
      destruct (dcl_w_add _ _ _ _ _ Hd) as (d' & Hd' & Hwadd').
      rewrite Hwadd in Hwadd'. injection Hwadd' as <-. unfold po_Var, var_rule in Hd'.
      apply (indexed_component_lookup _ _ _ _ _ Hd') in Hv as [_ [= <-]].
      split; [|done]. specialize (Hadd i j). lra.
  - intros obj Hobj.
    destruct (asm_objective _ _ _ _ _ Hm) as (obj' & Hrule & Hobj').
    rewrite Hobj in Hobj'. injection Hobj' as <-.
    rewrite (obj_rule_Ok _ _ _ _ _ Hd) in Hrule. injection Hrule as <-.
    apply eval_flow_ext; [done|]. intros v Hv.
    cbn [expr_vars app] in Hv. unfold indexed_flow_terms in Hv.
    by apply (expr_vars_sum_of_vars (λ ijt : edge * Z, W ijt.1.1 ijt.1.2 ijt.2))
      in Hv as ([[i j] t] & _ & ->).
Qed.

Lemma investment_is_free_witness :
  let m := final_model
             (opt_model entities_dict example_edges example_timesteps true) in
  let ρ' : valuation :=
    λ v, match v with W _ _ _ => 0%Q | W_add _ _ => 1%Q end in
  satisfies ρ' m ∧ within_bounds ρ' m
  ∧ ∀ obj, objective m = Some obj → eval ρ' obj = eval (λ _, 0%Q) obj.
Proof.
  assert (opt_model entities_dict example_edges example_timesteps true
          = Returned (final_model (opt_model entities_dict example_edges
                                             example_timesteps true)))
    as Hret by (apply is_returned_final; vm_compute; reflexivity).
  destruct (assembled_zero_flow _ _ _ _ _ (opt_model_Returned _ _ _ _ _ Hret))
    as (Hsat & Hbd & _).
  apply (investment_is_free entities_dict example_edges example_timesteps
           _ (λ _, 0%Q) _ Hret Hsat Hbd).
  - reflexivity.
  - intros i j. discriminate.
Defined.

Lemma Qsum_le_length (l : list Q) (u : Q) :
  (∀ x, x ∈ l → (x <= u)%Q) →
  (Qsum l <= u * inject_Z (Z.of_nat (length l)))%Q.
Proof.
  induction l as [|x l IH]; intros Hall; cbn [Qsum length].
  - change (inject_Z (Z.of_nat 0)) with 0%Q. lra.
  - rewrite Nat2Z.inj_succ, <- Z.add_1_r, inject_Z_plus.
    assert (x <= u)%Q by apply Hall, list_elem_of_here.
    assert (Qsum l <= u * inject_Z (Z.of_nat (length l)))%Q.
    { apply IH. intros y Hy. by apply Hall, list_elem_of_further. }
    change (inject_Z 1) with 1%Q. lra.
Qed.

(** X20: without investment the objective is bounded: within the bounds
    of the variables it is at most 100 for every edge and timestep,
    [100 * |E| * |T|] in all. *)
Theorem objective_is_bounded entities E T m :
  opt_model entities E T false = Returned m →
  ∃ obj, objective m = Some obj
         ∧ ∀ ρ, within_bounds ρ m →
             (eval ρ obj
              <= 100 * inject_Z (Z.of_nat (length E * length T)))%Q.
Proof.
  intros Hm%opt_model_Returned.
  pose proof (asm_declared _ _ _ _ _ Hm) as Hd.
  destruct (asm_objective _ _ _ _ _ Hm) as (obj & Hrule & Hobj).
  rewrite (obj_rule_Ok _ _ _ _ _ Hd) in Hrule. injection Hrule as <-.
  eexists. split; [exact Hobj|]. intros ρ [Hw _].
  unfold indexed_flow_terms. cbn [eval]. rewrite eval_sum_of_vars.
  assert (∀ x, x ∈ (λ ijt : edge * Z, ρ (W ijt.1.1 ijt.1.2 ijt.2))
                     <$> list_prod E T → (x <= 100)%Q) as Hall.
  { intros x ([[i j] t] & -> & [Hij Ht]%elem_of_list_prod)%list_elem_of_fmap.
    destruct (declared_w_is_Some Hd i j t Hij Ht) as [v Hv].
    destruct (Hw _ _ _ _ Hv) as [Hlb Hub].
    apply (declared_w Hd) in Hv as [_ ->].
    by apply Hub. }
  rewrite <- length_prod, <- (length_fmap
    (λ ijt : edge * Z, ρ (W ijt.1.1 ijt.1.2 ijt.2))).
  rewrite Qplus_0_l. by apply Qsum_le_length.
Qed.

Lemma objective_is_bounded_witness :
  ∃ obj,
    objective (final_model (opt_model entities_dict example_edges
                                      example_timesteps false)) = Some obj
    ∧ ∀ ρ, within_bounds ρ (final_model
                              (opt_model entities_dict example_edges
                                         example_timesteps false)) →
        (eval ρ obj
         <= 100 * inject_Z (Z.of_nat (length example_edges
                                      * length example_timesteps)))%Q.
Proof.
  apply (objective_is_bounded entities_dict example_edges example_timesteps).
  apply is_returned_final. vm_compute. reflexivity.
Defined.
